(** * dependency_manager: entity extraction, import resolution, traversal,
      aggregation and error location

    A shallow embedding of the algorithmic core of the repository:
    - [utils/dependency_analyzer.py]: [DependencyVisitor], [DependencyAnalyzer];
    - [build_project_structure.py]: [extract_internal_module_paths],
      [build_project_structure];
    - [make_file_summaries.py]: [find_nearest_entity].

    Python dictionaries keep insertion order and the code iterates over them,
    so they are association lists here.  A key that may be missing from a
    dictionary read with [d.get(k, default)] is an [option] field. *)

From Stdlib Require Import String Ascii List ZArith Lia Bool Arith.
From Stdlib Require DecimalString.
Import ListNotations.
Set Warnings "-register-all".
Open Scope string_scope.

(** [d.get(k, default)] on a key that may be absent. *)
Definition get {A : Type} (o : option A) (default : A) : A :=
  match o with
  | Some x => x
  | None => default
  end.

(* ================================================================== *)
(** * make_file_summaries.py: [find_nearest_entity] *)
(* ================================================================== *)

Module ErrorLocator.

(** The part of a persisted function entry that the locator reads. *)
Record func_data := mk_func {
  f_start_line : option Z;
  f_end_line : option Z
}.

(** The part of a persisted class entry that the locator reads. *)
Record cls_data := mk_cls {
  c_start_line : option Z;
  c_end_line : option Z;
  c_methods : option (list (string * func_data))
}.

(** [json_info]: the record loaded from the analysis file, or [{}] when
    there is none ([get_json_info_for_file]). *)
Record json_info := mk_info {
  classes : option (list (string * cls_data));
  functions : option (list (string * func_data))
}.

Definition empty_info : json_info := mk_info None None.

(** [best_distance] starts at [float('inf')]. *)
Inductive distance :=
| Inf
| Fin (d : Z).

(** [dist < best_distance] *)
Definition dist_lt (dist : Z) (best : distance) : bool :=
  match best with
  | Inf => true
  | Fin b => (dist <? b)%Z
  end.

(** The pair [(best_match, best_distance)] threaded through the loops. *)
Definition best := (option string * distance)%type.

Definition best_match (b : best) : option string := fst b.
Definition best_distance (b : best) : distance := snd b.

Definition update (dist : Z) (descr : string) (b : best) : best :=
  if dist_lt dist (best_distance b) then (Some descr, Fin dist) else b.

(** [start <= line_num <= end] *)
Definition within (lo line_num hi : Z) : bool :=
  ((lo <=? line_num) && (line_num <=? hi))%Z.

(** [min(abs(line_num - start), abs(line_num - end))] *)
Definition edge_distance (line_num lo hi : Z) : Z :=
  (Z.min (Z.abs (line_num - lo)) (Z.abs (line_num - hi)))%Z.

(** Body of [for m_name, m_data in methods.items()]. *)
Definition scan_method (line_num : Z) (cls_name : string) (cls_start cls_end : Z)
    (b : best) (m : string * func_data) : best :=
  let m_name := fst m in
  let m_data := snd m in
  let m_start := get (f_start_line m_data) 0%Z in
  let m_end := get (f_end_line m_data) 0%Z in
  if within m_start line_num m_end then
    update 0%Z ("Method " ++ m_name ++ " of class " ++ cls_name) b
  else
    update (edge_distance line_num cls_start cls_end)
           ("Inside class " ++ cls_name) b.

(** Body of [for cls_name, cls_data in classes.items()]. *)
Definition scan_class (line_num : Z) (b : best) (c : string * cls_data) : best :=
  let cls_name := fst c in
  let cls := snd c in
  let cls_start := get (c_start_line cls) 0%Z in
  let cls_end := get (c_end_line cls) 0%Z in
  if within cls_start line_num cls_end then
    let methods := get (c_methods cls) [] in
    fold_left (scan_method line_num cls_name cls_start cls_end) methods b
  else b.

(** Distance and description of one top-level function. *)
Definition func_distance (line_num : Z) (f_data : func_data) : Z :=
  let f_start := get (f_start_line f_data) 0%Z in
  let f_end := get (f_end_line f_data) 0%Z in
  if within f_start line_num f_end then 0%Z
  else edge_distance line_num f_start f_end.

Definition func_descr (line_num : Z) (f : string * func_data) : string :=
  let f_start := get (f_start_line (snd f)) 0%Z in
  let f_end := get (f_end_line (snd f)) 0%Z in
  if within f_start line_num f_end then "Function " ++ fst f
  else "Near function " ++ fst f.

(** Body of [for f_name, f_data in functions.items()]. *)
Definition scan_function (line_num : Z) (b : best) (f : string * func_data) : best :=
  let f_name := fst f in
  let f_data := snd f in
  let f_start := get (f_start_line f_data) 0%Z in
  let f_end := get (f_end_line f_data) 0%Z in
  if within f_start line_num f_end then
    update 0%Z ("Function " ++ f_name) b
  else
    update (edge_distance line_num f_start f_end) ("Near function " ++ f_name) b.

Definition scan_classes (info : json_info) (line_num : Z) : best :=
  fold_left (scan_class line_num) (get (classes info) []) (None, Inf).

Definition scan_functions (info : json_info) (line_num : Z) (b : best) : best :=
  fold_left (scan_function line_num) (get (functions info) []) b.

(** [best_match or "No nearby entity found"]: Python's [or] also replaces
    an empty string. *)
Definition or_default (m : option string) : string :=
  match m with
  | Some s => if String.eqb s "" then "No nearby entity found" else s
  | None => "No nearby entity found"
  end.

Definition find_nearest_entity (info : json_info) (line_num : Z) : string :=
  let b := scan_classes info line_num in
  let b :=
    match best_match b with
    | None => scan_functions info line_num b
    | Some _ => b
    end in
  or_default (best_match b).

(** [cls] contains the line. *)
Definition class_contains (line_num : Z) (cls : cls_data) : bool :=
  within (get (c_start_line cls) 0%Z) line_num (get (c_end_line cls) 0%Z).

(** What the function loop leaves in [best_match]. *)
Definition from_functions (m : option string) : Prop :=
  m = None \/ exists f, m = Some ("Function " ++ f) \/ m = Some ("Near function " ++ f).

(** What the class loop leaves in [best_match]: a method match, or an
    "Inside class" match for a class that contains the line. *)
Definition from_classes (cs : list (string * cls_data)) (line_num : Z)
    (m : option string) : Prop :=
  m = None \/
  (exists mn c, m = Some ("Method " ++ mn ++ " of class " ++ c)) \/
  (exists c cls, m = Some ("Inside class " ++ c) /\ In (c, cls) cs /\
                 class_contains line_num cls = true).

(** [b] holds a function of [seen] at the least distance. *)
Definition is_best_of (line_num : Z) (seen : list (string * func_data)) (b : best) : Prop :=
  exists g, In g seen /\
    b = (Some (func_descr line_num g), Fin (func_distance line_num (snd g))) /\
    forall h, In h seen ->
      (func_distance line_num (snd g) <= func_distance line_num (snd h))%Z.

(** The record of the failing input of C3: class [C] spans lines 10-40 and
    declares no method; there is no top-level function. *)
Definition methodless_record : json_info :=
  mk_info (Some [("C", mk_cls (Some 10%Z) (Some 40%Z) (Some []))]) (Some []).

(** The record of the specification's example: class [C] spans lines 10-40
    and its method [m] lines 15-20; there is no top-level function. *)
Definition spec_example : json_info :=
  mk_info (Some [("C", mk_cls (Some 10%Z) (Some 40%Z)
                        (Some [("m", mk_func (Some 15%Z) (Some 20%Z))]))])
          (Some []).

(** A record with one far-away function: the distance is not bounded. *)
Definition far_function_record : json_info :=
  mk_info (Some [("C", mk_cls (Some 10%Z) (Some 40%Z) (Some []))])
          (Some [("f", mk_func (Some 100000%Z) (Some 100020%Z))]).

End ErrorLocator.

(* ================================================================== *)
(** * Strings, paths and the file system *)
(* ================================================================== *)

(** [s.split(sep)] for a one-character separator: never empty. *)
Fixpoint split_on (sep : ascii) (s : string) : list string :=
  match s with
  | EmptyString => [EmptyString]
  | String c rest =>
      if Ascii.eqb c sep then EmptyString :: split_on sep rest
      else match split_on sep rest with
           | [] => [String c EmptyString]
           | p :: ps => String c p :: ps
           end
  end.

Definition in_chars (c : ascii) (chars : list ascii) : bool :=
  existsb (Ascii.eqb c) chars.

Fixpoint lstrip (chars : list ascii) (s : string) : string :=
  match s with
  | EmptyString => EmptyString
  | String c rest => if in_chars c chars then lstrip chars rest else s
  end.

Fixpoint rstrip (chars : list ascii) (s : string) : string :=
  match s with
  | EmptyString => EmptyString
  | String c rest =>
      match rstrip chars rest with
      | EmptyString => if in_chars c chars then EmptyString else String c EmptyString
      | r => String c r
      end
  end.

(** [s.strip(chars)] *)
Definition strip (chars : list ascii) (s : string) : string :=
  rstrip chars (lstrip chars s).

(** [s.rfind('.')], as an index from the left. *)
Fixpoint rfind_dot (s : string) (pos : nat) : option nat :=
  match s with
  | EmptyString => None
  | String c rest =>
      match rfind_dot rest (S pos) with
      | Some i => Some i
      | None => if Ascii.eqb c "."%char then Some pos else None
      end
  end.

(** [PurePath.stem] of a final component: the name without its last suffix;
    a leading or a trailing dot starts no suffix. *)
Definition stem (name : string) : string :=
  match rfind_dot name 0 with
  | Some i =>
      if ((0 <? i) && (i <? String.length name - 1))%nat then substring 0 i name else name
  | None => name
  end.

(** A path is the list of its components below the file-system root. *)
Definition Path := list string.

Definition Path_eq_dec : forall p q : Path, {p = q} + {p <> q} :=
  list_eq_dec string_dec.

(** [base / name]: pathlib drops an empty segment. *)
Definition join_path (base : Path) (name : string) : Path :=
  if String.eqb name "" then base else (base ++ [name])%list.

(** [str(path)] of an absolute path. *)
Definition str_abs (p : Path) : string := "/" ++ String.concat "/" p.

(** [str(path)] of a relative path; the empty one prints as a dot. *)
Definition str_rel (p : Path) : string :=
  match p with
  | [] => "."
  | _ => String.concat "/" p
  end.

(** [path.relative_to(base)]: [None] stands for the [ValueError]. *)
Fixpoint relative_to (p base : Path) : option Path :=
  match base with
  | [] => Some p
  | b :: base' =>
      match p with
      | [] => None
      | c :: p' => if String.eqb c b then relative_to p' base' else None
      end
  end.

(** [project_path / text] for the text of a relative path: pathlib splits at
    the slashes and drops empty and single-dot segments. *)
Definition join_text (base : Path) (text : string) : Path :=
  (base ++ filter (fun c => negb (String.eqb c "" || String.eqb c "."))
                  (split_on "/"%char text))%list.

(** The association list of a Python dictionary or of a directory. *)
Fixpoint assoc {A : Type} (k : string) (d : list (string * A)) : option A :=
  match d with
  | [] => None
  | (k', v) :: d' => if String.eqb k k' then Some v else assoc k d'
  end.

(** [d[k] = v]: an existing key keeps its place, a new one goes last. *)
Fixpoint dict_set {A : Type} (k : string) (v : A) (d : list (string * A))
  : list (string * A) :=
  match d with
  | [] => [(k, v)]
  | (k', v') :: d' =>
      if String.eqb k k' then (k, v) :: d' else (k', v') :: dict_set k v d'
  end.

Definition has_key {A : Type} (k : string) (d : list (string * A)) : bool :=
  match assoc k d with
  | Some _ => true
  | None => false
  end.

Module FileSystem.

(** A file system over file contents of type [C]; there are no symbolic
    links, so [Path.resolve()] is the identity on the paths the analyzer
    builds. *)
Inductive fsnode (C : Type) :=
| File (content : C)
| Dir (entries : list (string * fsnode C)).
Arguments File {C} content.
Arguments Dir {C} entries.

Fixpoint fs_lookup {C : Type} (n : fsnode C) (p : Path) : option (fsnode C) :=
  match p with
  | [] => Some n
  | c :: rest =>
      match n with
      | File _ => None
      | Dir entries =>
          match assoc c entries with
          | Some child => fs_lookup child rest
          | None => None
          end
      end
  end.

(** [path.exists()] *)
Definition exists_ {C : Type} (fs : fsnode C) (p : Path) : bool :=
  match fs_lookup fs p with
  | Some _ => true
  | None => false
  end.

(** [path.is_dir()] *)
Definition is_dir {C : Type} (fs : fsnode C) (p : Path) : bool :=
  match fs_lookup fs p with
  | Some (Dir _) => true
  | _ => false
  end.

End FileSystem.

(* ================================================================== *)
(** * utils/dependency_analyzer.py: the import resolver *)
(* ================================================================== *)

Module ImportResolver.
Import FileSystem.

Section Resolver.
Context {C : Type}.
Variable fs : fsnode C.
Variable project_path : Path.

(** The test shared by both branches of [_find_module_file]: the file
    [name.py] under [base], else the initializer of the package [name]. *)
Definition file_or_package (base : Path) (name : string) : option Path :=
  let file_candidate := join_path base (name ++ ".py") in
  if exists_ fs file_candidate then Some file_candidate
  else
    let dir_candidate := join_path base name in
    let init_candidate := join_path dir_candidate "__init__.py" in
    if exists_ fs dir_candidate && exists_ fs init_candidate
    then Some init_candidate
    else None.

(** The loop [for p in parts[:-1]] over the leading directories. *)
Fixpoint walk_dirs (base : Path) (dirs : list string) : option Path :=
  match dirs with
  | [] => Some base
  | p :: rest =>
      let base := join_path base p in
      if negb (exists_ fs base) || negb (is_dir fs base) then None
      else walk_dirs base rest
  end.

(** [_find_module_file]; it is only called on a non-empty list (on the
    empty one [parts[-1]] would raise). *)
Definition _find_module_file (parts : list string) : option Path :=
  match parts with
  | [] => None
  | [single_name] => file_or_package project_path single_name
  | _ =>
      match walk_dirs project_path (removelast parts) with
      | None => None
      | Some base => file_or_package base (last parts "")
      end
  end.

(** The loop [for i in range(len(parts), 0, -1)] of [_resolve_import]. *)
Fixpoint try_prefixes (parts : list string) (i : nat)
  : option (string * Path * list string) :=
  match i with
  | O => None
  | S j =>
      let prefix := firstn i parts in
      match _find_module_file prefix with
      | Some candidate_file =>
          let sub_modules := if (i <? length parts)%nat then skipn i parts else [] in
          Some (last prefix "", candidate_file, sub_modules)
      | None => try_prefixes parts j
      end
  end.

Definition _resolve_import (import_name : string)
  : option (string * Path * list string) :=
  let parts := split_on "."%char import_name in
  try_prefixes parts (length parts).

(** [_classify_imports]: the internal triples and the external names, both
    in the order of the imports. *)
Fixpoint _classify_imports (imports : list string)
  : list (string * Path * list string) * list string :=
  match imports with
  | [] => ([], [])
  | imp :: rest =>
      let '(internal, external) := _classify_imports rest in
      match _resolve_import imp with
      | Some result => (result :: internal, external)
      | None => (internal, imp :: external)
      end
  end.

End Resolver.
End ImportResolver.

(* ================================================================== *)
(** * utils/dependency_analyzer.py: [DependencyVisitor] *)
(* ================================================================== *)

Module Ast.

Inductive expr_context := Load | Store | Del.

(** The syntax tree the parser hands over.  The node kinds that
    [DependencyVisitor] treats specially are constructors of their own;
    every other kind is [Other] with its children in field order, which is
    all [generic_visit] sees of it.  The children of the [arguments] node of
    a function are [posonlyargs] (the annotations of the positional-only
    parameters), [args] (name and annotation of each ordinary parameter) and
    [other_args] (the expressions of the remaining fields, in field order);
    the [args] of a [Call] are its arguments followed by the values of its
    keywords.
    [docstring] is what [ast.get_docstring] returns for the node. *)
Inductive node :=
| Import (names : list string)
| ImportFrom (module : option string) (names : list string)
| ClassDef (name : string) (lineno : Z) (end_lineno : option Z)
           (docstring : option string)
           (bases keywords body decorator_list : list node)
| FunctionDef (name : string) (lineno : Z) (end_lineno : option Z)
              (docstring : option string)
              (posonlyargs : list node) (args : list (string * option node))
              (other_args : list node)
              (body decorator_list : list node) (returns : option node)
| Call (func : node) (args : list node)
| Name (id : string) (ctx : expr_context)
| Attribute (value : node) (attr : string)
| Subscript (value slice : node)
| Other (children : list node).

(** Induction over syntax trees, with the hypothesis on every child. *)
Section NodeInduction.
Variable P : node -> Prop.

Definition on_option (o : option node) : Prop :=
  match o with
  | Some n => P n
  | None => True
  end.

Definition on_arg (a : string * option node) : Prop := on_option (snd a).

Hypothesis HImport : forall names, P (Import names).
Hypothesis HImportFrom : forall module names, P (ImportFrom module names).
Hypothesis HClassDef :
  forall name lineno end_lineno docstring bases keywords body decorator_list,
    Forall P bases -> Forall P keywords -> Forall P body ->
    Forall P decorator_list ->
    P (ClassDef name lineno end_lineno docstring bases keywords body decorator_list).
Hypothesis HFunctionDef :
  forall name lineno end_lineno docstring posonlyargs args other_args body
         decorator_list returns,
    Forall P posonlyargs -> Forall on_arg args ->
    Forall P other_args -> Forall P body -> Forall P decorator_list ->
    on_option returns ->
    P (FunctionDef name lineno end_lineno docstring posonlyargs args other_args
                   body decorator_list returns).
Hypothesis HCall : forall func args, P func -> Forall P args -> P (Call func args).
Hypothesis HName : forall id ctx, P (Name id ctx).
Hypothesis HAttribute : forall value attr, P value -> P (Attribute value attr).
Hypothesis HSubscript : forall value slice, P value -> P slice -> P (Subscript value slice).
Hypothesis HOther : forall children, Forall P children -> P (Other children).

Fixpoint node_induction (n : node) : P n :=
  let all :=
    fix all (l : list node) : Forall P l :=
      match l with
      | [] => Forall_nil P
      | x :: rest => Forall_cons x (node_induction x) (all rest)
      end in
  let all_args :=
    fix all_args (l : list (string * option node)) : Forall on_arg l :=
      match l with
      | [] => Forall_nil on_arg
      | (s, Some a) :: rest =>
          @Forall_cons _ on_arg (s, Some a) rest (node_induction a) (all_args rest)
      | (s, None) :: rest =>
          @Forall_cons _ on_arg (s, None) rest I (all_args rest)
      end in
  match n with
  | Import names => HImport names
  | ImportFrom module names => HImportFrom module names
  | ClassDef name lineno end_lineno docstring bases keywords body decorator_list =>
      HClassDef name lineno end_lineno docstring bases keywords body decorator_list
        (all bases) (all keywords) (all body) (all decorator_list)
  | FunctionDef name lineno end_lineno docstring posonlyargs args other_args body
                decorator_list returns =>
      HFunctionDef name lineno end_lineno docstring posonlyargs args other_args body
        decorator_list returns
        (all posonlyargs) (all_args args) (all other_args) (all body)
        (all decorator_list)
        (match returns as o return on_option o with
         | Some r => node_induction r
         | None => I
         end)
  | Call func args => HCall func args (node_induction func) (all args)
  | Name id ctx => HName id ctx
  | Attribute value attr => HAttribute value attr (node_induction value)
  | Subscript value slice =>
      HSubscript value slice (node_induction value) (node_induction slice)
  | Other children => HOther children (all children)
  end.

End NodeInduction.

End Ast.

Module Extractor.
Import Ast.

(** An annotation as [_get_annotation] returns it: nothing, a name, or the
    text [ast.dump(node)], kept as the node it is the dump of. *)
Inductive annotation :=
| NoAnnotation
| AnnText (s : string)
| AnnDump (n : node).

Record function_info := mk_function_info {
  fn_name : string;
  fn_type : string;
  fn_start_line : Z;
  fn_end_line : option Z;
  fn_docstring : option string;
  calls : list string;
  used : list string;
  assigned : list string;
  decorators : list string;
  fn_returns : annotation;
  parameters : list (string * annotation)
}.

(** A class entry.  [M] is what the [methods] dictionary holds: a reference
    to a [function_info] dictionary while the visitor runs, the dictionary
    itself in the finished record. *)
Record class_info (M : Type) := mk_class_info {
  cls_name : string;
  cls_start_line : Z;
  cls_end_line : option Z;
  cls_docstring : option string;
  methods : list (string * M);
  bases : list string
}.
Arguments mk_class_info {M}.
Arguments cls_name {M}.
Arguments cls_start_line {M}.
Arguments cls_end_line {M}.
Arguments cls_docstring {M}.
Arguments methods {M}.
Arguments bases {M}.

(** The visitor object.  Each [function_info] dictionary is created once and
    then reached through two aliases: the entry of [functions] or of a
    [methods] dictionary, and [current_function].  [objects] holds these
    dictionaries in order of creation and a reference is an index into it. *)
Record visitor := mk_visitor {
  classes : list (string * class_info nat);
  functions : list (string * nat);
  imports : list string;
  current_class : option string;
  current_function : option nat;
  objects : list function_info
}.

Definition init_visitor : visitor := mk_visitor [] [] [] None None [].

Definition set_current_class (c : option string) (v : visitor) : visitor :=
  mk_visitor (classes v) (functions v) (imports v) c (current_function v) (objects v).

Definition set_current_function (f : option nat) (v : visitor) : visitor :=
  mk_visitor (classes v) (functions v) (imports v) (current_class v) f (objects v).

Definition add_imports (names : list string) (v : visitor) : visitor :=
  mk_visitor (classes v) (functions v) (imports v ++ names) (current_class v)
             (current_function v) (objects v).

Fixpoint _get_full_name (n : node) : string :=
  match n with
  | Name id _ => id
  | Attribute value attr =>
      let value_name := _get_full_name value in
      if String.eqb value_name "" then attr else value_name ++ "." ++ attr
  | Call func _ => _get_full_name func
  | Subscript value _ => _get_full_name value
  | _ => ""
  end.

Definition _get_name (n : node) : string :=
  match n with
  | Name id _ => id
  | Attribute _ _ => _get_full_name n
  | _ => ""
  end.

Definition _get_annotation (a : option node) : annotation :=
  match a with
  | None => NoAnnotation
  | Some (Name id _) => AnnText id
  | Some (Subscript value slice) => AnnText (_get_full_name (Subscript value slice))
  | Some n => AnnDump n
  end.

Definition _get_parameters (args : list (string * option node))
  : list (string * annotation) :=
  map (fun a => (fst a, _get_annotation (snd a))) args.

(** Truth value of [self.current_class]: a non-empty name. *)
Definition truthy (c : option string) : bool :=
  match c with
  | Some s => negb (String.eqb s "")
  | None => false
  end.

(** Apply [f] to the dictionary stored at index [r]. *)
Fixpoint update_object (r : nat) (f : function_info -> function_info)
    (objs : list function_info) : list function_info :=
  match objs, r with
  | [], _ => []
  | o :: rest, O => f o :: rest
  | o :: rest, S r' => o :: update_object r' f rest
  end.

Definition with_objects (objs : list function_info) (v : visitor) : visitor :=
  mk_visitor (classes v) (functions v) (imports v) (current_class v)
             (current_function v) objs.

Definition append_call (func_name : string) (o : function_info) : function_info :=
  mk_function_info (fn_name o) (fn_type o) (fn_start_line o) (fn_end_line o)
    (fn_docstring o) (calls o ++ [func_name]) (used o) (assigned o)
    (decorators o) (fn_returns o) (parameters o).

Definition mem (x : string) (l : list string) : bool :=
  existsb (String.eqb x) l.

Definition add_used (id : string) (o : function_info) : function_info :=
  if mem id (used o) then o
  else mk_function_info (fn_name o) (fn_type o) (fn_start_line o) (fn_end_line o)
         (fn_docstring o) (calls o) (used o ++ [id]) (assigned o)
         (decorators o) (fn_returns o) (parameters o).

Definition add_assigned (id : string) (o : function_info) : function_info :=
  if mem id (assigned o) then o
  else mk_function_info (fn_name o) (fn_type o) (fn_start_line o) (fn_end_line o)
         (fn_docstring o) (calls o) (used o) (assigned o ++ [id])
         (decorators o) (fn_returns o) (parameters o).

(** [visit_Call], before its [generic_visit]. *)
Definition record_call (func : node) (v : visitor) : visitor :=
  let func_name := _get_full_name func in
  match current_function v with
  | Some r => with_objects (update_object r (append_call func_name) (objects v)) v
  | None => v
  end.

(** [visit_Name] *)
Definition record_name (id : string) (ctx : expr_context) (v : visitor) : visitor :=
  match current_function v with
  | Some r =>
      match ctx with
      | Load => with_objects (update_object r (add_used id) (objects v)) v
      | Store => with_objects (update_object r (add_assigned id) (objects v)) v
      | Del => v
      end
  | None => v
  end.

(** [visit_ImportFrom]: the names are prefixed with the module when it is
    given and non-empty. *)
Definition from_names (module : option string) (names : list string) : list string :=
  match module with
  | Some m => if String.eqb m "" then names else map (fun name => m ++ "." ++ name) names
  | None => names
  end.

(** [visit_ClassDef] up to its [generic_visit]: the new entry replaces an
    earlier class of that name, and the class becomes current. *)
Definition enter_class (name : string) (lineno : Z) (end_lineno : option Z)
    (docstring : option string) (base_nodes : list node) (v : visitor) : visitor :=
  let class_info :=
    mk_class_info name lineno end_lineno docstring [] (map _get_name base_nodes) in
  mk_visitor (dict_set name class_info (classes v)) (functions v) (imports v)
             (Some name) (current_function v) (objects v).

(** [self.file_info["classes"][c]["methods"][name] = function_info]; [c] is
    a key of [classes] whenever it is the current class ([current_class_known]
    below), so the lookup cannot fail. *)
Fixpoint set_method (c name : string) (r : nat)
    (cs : list (string * class_info nat)) : list (string * class_info nat) :=
  match cs with
  | [] => []
  | (k, ci) :: rest =>
      if String.eqb c k then
        (k, mk_class_info (cls_name ci) (cls_start_line ci) (cls_end_line ci)
              (cls_docstring ci) (dict_set name r (methods ci)) (bases ci)) :: rest
      else (k, ci) :: set_method c name r rest
  end.

(** [visit_FunctionDef] up to its [generic_visit]: a new dictionary is
    created, stored under the current class if there is one and among the
    top-level functions otherwise, and becomes the current function. *)
Definition enter_function (name : string) (lineno : Z) (end_lineno : option Z)
    (docstring : option string) (args : list (string * option node))
    (decorator_nodes : list node) (returns : option node) (v : visitor) : visitor :=
  let function_info :=
    mk_function_info name
      (if truthy (current_class v) then "method" else "function")
      lineno end_lineno docstring [] [] []
      (map _get_full_name decorator_nodes)
      (_get_annotation returns)
      (_get_parameters args) in
  let r := length (objects v) in
  let objs := (objects v ++ [function_info])%list in
  if truthy (current_class v) then
    mk_visitor (set_method (get (current_class v) "") name r (classes v))
               (functions v) (imports v) (current_class v) (Some r) objs
  else
    mk_visitor (classes v) (dict_set name r (functions v)) (imports v)
               (current_class v) (Some r) objs.

(** [NodeVisitor.visit]: the [visit_X] method of the node's kind, and
    [generic_visit] (the children, in field order) for the others. *)
Fixpoint visit (n : node) (v : visitor) {struct n} : visitor :=
  let visit_all :=
    fix visit_all (l : list node) (v : visitor) {struct l} : visitor :=
      match l with
      | [] => v
      | x :: rest => visit_all rest (visit x v)
      end in
  let visit_args :=
    fix visit_args (l : list (string * option node)) (v : visitor) {struct l}
      : visitor :=
      match l with
      | [] => v
      | (_, Some a) :: rest => visit_args rest (visit a v)
      | (_, None) :: rest => visit_args rest v
      end in
  match n with
  | Import names => add_imports names v
  | ImportFrom module names => add_imports (from_names module names) v
  | ClassDef name lineno end_lineno docstring bases keywords body decorator_list =>
      let v := enter_class name lineno end_lineno docstring bases v in
      let v := visit_all bases v in
      let v := visit_all keywords v in
      let v := visit_all body v in
      let v := visit_all decorator_list v in
      set_current_class None v
  | FunctionDef name lineno end_lineno docstring posonlyargs args other_args
                body decorator_list returns =>
      let v := enter_function name lineno end_lineno docstring args
                              decorator_list returns v in
      let v := visit_all posonlyargs v in
      let v := visit_args args v in
      let v := visit_all other_args v in
      let v := visit_all body v in
      let v := visit_all decorator_list v in
      let v := match returns with Some r => visit r v | None => v end in
      set_current_function None v
  | Call func args =>
      let v := record_call func v in
      let v := visit func v in
      visit_all args v
  | Name id ctx => record_name id ctx v
  | Attribute value _ => visit value v
  | Subscript value slice => visit slice (visit value v)
  | Other children => visit_all children v
  end.

(** [generic_visit] over a list of children. *)
Definition visit_all (l : list node) (v : visitor) : visitor :=
  fold_left (fun v x => visit x v) l v.

Definition visit_args (l : list (string * option node)) (v : visitor) : visitor :=
  fold_left (fun v a => match snd a with Some n => visit n v | None => v end) l v.

(** The finished [file_info]: every reference replaced by the dictionary it
    points to, as [json.dump] writes it. *)
Definition deref (objs : list function_info) (e : string * nat)
  : list (string * function_info) :=
  match nth_error objs (snd e) with
  | Some o => [(fst e, o)]
  | None => []
  end.

Definition finish_class (objs : list function_info) (e : string * class_info nat)
  : string * class_info function_info :=
  let ci := snd e in
  (fst e, mk_class_info (cls_name ci) (cls_start_line ci) (cls_end_line ci)
            (cls_docstring ci) (flat_map (deref objs) (methods ci)) (bases ci)).

Record extracted := mk_extracted {
  x_classes : list (string * class_info function_info);
  x_functions : list (string * function_info);
  x_imports : list string
}.

(** [analyze_source_code] on the tree of the source, then the [file_info]
    of the visitor. *)
Definition analyze_source_code (tree : node) : extracted :=
  let v := visit tree init_visitor in
  mk_extracted (map (finish_class (objects v)) (classes v))
               (flat_map (deref (objects v)) (functions v))
               (imports v).

(** [generic_visit] of an optional child. *)
Definition visit_option (o : option node) (v : visitor) : visitor :=
  match o with
  | Some r => visit r v
  | None => v
  end.

(** A dictionary that exists and is not the current function. *)
Definition idle (r : nat) (v : visitor) : Prop :=
  r < length (objects v) /\ current_function v <> Some r.

(** A step that leaves an idle dictionary idle and as it was. *)
Definition keeps (r : nat) (step : visitor -> visitor) : Prop :=
  forall v, idle r v ->
    idle r (step v) /\ nth_error (objects (step v)) r = nth_error (objects v) r.

(** The current class is always a key of [classes], so the lookup in
    [visit_FunctionDef] cannot fail. *)
Definition current_class_known (v : visitor) : Prop :=
  forall c, current_class v = Some c -> has_key c (classes v) = true.

(** A step that keeps an invariant of the visitor. *)
Definition preserves (Q : visitor -> Prop) (step : visitor -> visitor) : Prop :=
  forall v, Q v -> Q (step v).

(** [def f(): (def g(): pass); h()]: a call in [f] after the nested [g]. *)
Definition call_after_nested : node :=
  Other [FunctionDef "f" 1 (Some 4%Z) None [] [] []
           [FunctionDef "g" 2 (Some 3%Z) None [] [] [] [Other []] [] None;
            Other [Call (Name "h" Load) []]]
           [] None].

(** [class C: def m(self): (def g(): pass)]: a function nested in a method. *)
Definition nested_in_method : node :=
  Other [ClassDef "C" 1 (Some 4%Z) None [] []
           [FunctionDef "m" 2 (Some 4%Z) None [] [("self", None)] []
              [FunctionDef "g" 3 (Some 4%Z) None [] [] [] [Other []] [] None]
              [] None]
           []].

End Extractor.

(* ================================================================== *)
(** * utils/dependency_analyzer.py: [DependencyAnalyzer] *)
(* ================================================================== *)

Module Json.

(** The values of the dependency tree that is written to and read back from
    the analysis files: [None], strings, lists and dictionaries. *)
Inductive json :=
| JNull
| JStr (s : string)
| JList (items : list json)
| JDict (entries : list (string * json)).

(** Truth value of a JSON value in a Python condition. *)
Definition truthy (j : json) : bool :=
  match j with
  | JNull => false
  | JStr s => negb (String.eqb s "")
  | JList items => match items with [] => false | _ => true end
  | JDict entries => match entries with [] => false | _ => true end
  end.

(** Induction over JSON values, with the hypothesis on every element. *)
Section JsonInduction.
Variable P : json -> Prop.
Hypothesis HNull : P JNull.
Hypothesis HStr : forall s, P (JStr s).
Hypothesis HList : forall items, Forall P items -> P (JList items).
Hypothesis HDict :
  forall entries, Forall (fun e => P (snd e)) entries -> P (JDict entries).

Fixpoint json_induction (j : json) : P j :=
  match j with
  | JNull => HNull
  | JStr s => HStr s
  | JList items =>
      HList items
        ((fix all (l : list json) : Forall P l :=
            match l with
            | [] => Forall_nil P
            | x :: rest => Forall_cons x (json_induction x) (all rest)
            end) items)
  | JDict entries =>
      HDict entries
        ((fix all (l : list (string * json)) : Forall (fun e => P (snd e)) l :=
            match l with
            | [] => Forall_nil _
            | (k, x) :: rest =>
                @Forall_cons _ (fun e => P (snd e)) (k, x) rest
                  (json_induction x) (all rest)
            end) entries)
  end.

End JsonInduction.

End Json.

Module Analyzer.
Import FileSystem ImportResolver Json.

(** What reading and parsing a file gives: the [SyntaxError] or
    [UnicodeDecodeError] with its message, or the tree. *)
Inductive source :=
| Unparsable (message : string)
| Parsed (tree : Ast.node).

(** The dictionary [_analyze_single_file] returns; an absent key is [None]. *)
Record file_info := mk_file_info {
  path : string;
  error : option string;
  inner_project_dependencies : option json;
  external_dependencies : option (list string);
  classes : option (list (string * Extractor.class_info Extractor.function_info));
  functions : option (list (string * Extractor.function_info))
}.

(** [tuple.index(p)]: the first position of [p]. *)
Fixpoint index_of (p : string) (l : list string) : nat :=
  match l with
  | [] => 0
  | x :: rest => if String.eqb x p then 0 else S (index_of p rest)
  end.

Definition module_entry (file_name path_text : string) (sub_modules : list string)
  : json :=
  JDict [("name", JStr file_name); ("path", JStr path_text);
         ("sub_modules", JList (map JStr sub_modules))].

(** One round of the loop of [_build_inner_deps_structure]: walk down the
    directories [dirs] from [current], creating the missing nodes, and append
    [entry] to the [modules] list of the node reached.  [None] stands for the
    [TypeError] or [AttributeError] raised when a directory is called [path]
    or [modules] and the value met under that key is not a dictionary, or
    not a list. *)
Fixpoint add_module (current : json) (dirs rel_parts : list string) (entry : json)
  : option json :=
  match current with
  | JDict d =>
      match dirs with
      | [] =>
          let d := if has_key "modules" d then d else dict_set "modules" (JList []) d in
          match assoc "modules" d with
          | Some (JList l) => Some (JDict (dict_set "modules" (JList (l ++ [entry])) d))
          | _ => None
          end
      | p :: rest =>
          let d :=
            if has_key p d then d
            else dict_set p
                   (JDict [("path",
                            JStr ("./" ++ str_rel (firstn (index_of p rel_parts + 1)
                                                          rel_parts)))]) d in
          match assoc p d with
          | Some child =>
              match add_module child rest rel_parts entry with
              | Some child' => Some (JDict (dict_set p child' d))
              | None => None
              end
          | None => None
          end
      end
  | _ => None
  end.

Section Analysis.
Variable fs : fsnode source.
Variable project_path : Path.
Variable max_depth : option Z.

(** [_build_inner_deps_structure], from the structure built so far. *)
Fixpoint build_from (structure : json)
    (internal_deps : list (string * Path * list string)) : option json :=
  match internal_deps with
  | [] => Some structure
  | (name, path, sub_modules) :: rest =>
      match relative_to path project_path with
      | None => None
      | Some rel_path =>
          let parts := removelast rel_path in
          let file_name := stem (last rel_path "") in
          match add_module structure parts rel_path
                  (module_entry file_name ("./" ++ str_rel rel_path) sub_modules) with
          | Some structure => build_from structure rest
          | None => None
          end
      end
  end.

Definition _build_inner_deps_structure
    (internal_deps : list (string * Path * list string)) : option json :=
  build_from (JDict []) internal_deps.

(** [_analyze_single_file].  [None] stands for an exception that is not
    caught: the file cannot be opened, or the structure cannot be built. *)
Definition _analyze_single_file (file_path : Path) : option file_info :=
  match fs_lookup fs file_path with
  | Some (File (Unparsable e)) =>
      Some (mk_file_info (str_abs file_path) (Some e) None None None None)
  | Some (File (Parsed tree)) =>
      let x := Extractor.analyze_source_code tree in
      let '(internal_deps, external_deps) :=
        _classify_imports fs project_path (Extractor.x_imports x) in
      match _build_inner_deps_structure internal_deps with
      | None => None
      | Some inner_deps_structure =>
          match relative_to file_path project_path with
          | None => None
          | Some rel =>
              Some (mk_file_info ("./" ++ str_rel rel) None
                      (Some inner_deps_structure) (Some external_deps)
                      (Some (Extractor.x_classes x))
                      (Some (Extractor.x_functions x)))
          end
      end
  | _ => None
  end.

(** The analyzer object during a traversal: the visited set, and the
    records written so far, latest first, each with the file it is of. *)
Record state := mk_state {
  visited : list Path;
  written : list (Path * file_info)
}.

Definition init_state : state := mk_state [] [].

(** How a call ends: it returns, an exception escapes, or (in the model
    only) the recursion budget is used up. *)
Inductive outcome :=
| Return (st : state)
| Raise
| OutOfFuel.

Definition bind (o : outcome) (k : state -> outcome) : outcome :=
  match o with
  | Return st => k st
  | Raise => Raise
  | OutOfFuel => OutOfFuel
  end.

Definition is_visited (file_path : Path) (st : state) : bool :=
  if in_dec Path_eq_dec file_path (visited st) then true else false.

Section Recurse.
(** [self._recursive_analyze_file], as seen from [_recurse_inner_dependencies]. *)
Variable recursive_analyze_file : Path -> Z -> state -> outcome.

(** The body shared by the three loops over module entries. *)
Definition analyze_module (mod_ : list (string * json)) (depth : Z) (st : state)
  : outcome :=
  match assoc "path" mod_ with
  | None => Return st
  | Some mod_path =>
      if truthy mod_path then
        match mod_path with
        | JStr text =>
            let mod_real_path :=
              join_text project_path (strip ["."%char; "/"%char] text) in
            if exists_ fs mod_real_path
            then recursive_analyze_file mod_real_path (depth + 1)%Z st
            else Return st
        | _ => Raise
        end
      else Return st
  end.

(** [for mod in val: mod_path = mod.get("path") ...]: an entry that is not a
    dictionary has no [get]. *)
Fixpoint analyze_modules (mods : list json) (depth : Z) (st : state) : outcome :=
  match mods with
  | [] => Return st
  | JDict mod_ :: rest => bind (analyze_module mod_ depth st) (analyze_modules rest depth)
  | _ :: rest => Raise
  end.

(** [for mod in val: if isinstance(mod, dict): ...] *)
Fixpoint analyze_dict_items (mods : list json) (depth : Z) (st : state) : outcome :=
  match mods with
  | [] => Return st
  | JDict mod_ :: rest =>
      bind (analyze_module mod_ depth st) (analyze_dict_items rest depth)
  | _ :: rest => analyze_dict_items rest depth st
  end.

Fixpoint _recurse_inner_dependencies (deps : json) (depth : Z) (st : state)
    {struct deps} : outcome :=
  match deps with
  | JDict entries =>
      (fix items (es : list (string * json)) (st : state) {struct es} : outcome :=
         match es with
         | [] => Return st
         | (key, val) :: rest =>
             bind
               (match val with
                | JList mods =>
                    if String.eqb key "modules" then analyze_modules mods depth st
                    else analyze_dict_items mods depth st
                | JDict val_entries =>
                    match assoc "modules" val_entries with
                    | Some (JList mods) => analyze_modules mods depth st
                    | _ => _recurse_inner_dependencies val depth st
                    end
                | _ => Return st
                end)
               (items rest)
         end) entries st
  | _ => Raise
  end.

End Recurse.

Definition depth_exceeded (depth : Z) : bool :=
  match max_depth with
  | Some m => (m <? depth)%Z
  | None => false
  end.

(** [_write_file_info_to_json]: the target is computed from the path
    relative to the project, which raises for a file outside it. *)
Definition _write_file_info_to_json (file_path : Path) (info : file_info) (st : state)
  : outcome :=
  match relative_to file_path project_path with
  | Some _ => Return (mk_state (visited st) ((file_path, info) :: written st))
  | None => Raise
  end.

(** [_recursive_analyze_file]; [fuel] bounds the depth of the recursion. *)
Fixpoint _recursive_analyze_file (fuel : nat) (file_path : Path) (depth : Z)
    (st : state) : outcome :=
  match fuel with
  | O => OutOfFuel
  | S fuel =>
      if depth_exceeded depth then Return st
      else if is_visited file_path st then Return st
      else
        let st := mk_state (file_path :: visited st) (written st) in
        match _analyze_single_file file_path with
        | None => Raise
        | Some info =>
            bind (_write_file_info_to_json file_path info st)
                 (_recurse_inner_dependencies (_recursive_analyze_file fuel)
                    (get (inner_project_dependencies info) (JDict [])) depth)
        end
  end.

(** [analyze_from_entry] on a fresh analyzer. *)
Definition analyze_from_entry (fuel : nat) (entry_file : Path) : outcome :=
  if exists_ fs entry_file
  then _recursive_analyze_file fuel entry_file 0%Z init_state
  else Return init_state.

End Analysis.

(** Every path of the file system. *)
Fixpoint all_paths (n : fsnode source) : list Path :=
  [] :: match n with
        | File _ => []
        | Dir entries =>
            (fix below (es : list (string * fsnode source)) : list Path :=
               match es with
               | [] => []
               | (name, child) :: rest =>
                   (map (cons name) (all_paths child) ++ below rest)%list
               end) entries
        end.

Section Measures.
Variable fs : fsnode source.
Variable project_path : Path.

(** A loop whose body may raise. *)
Fixpoint for_each {A : Type} (body : A -> state -> outcome) (l : list A) (st : state)
  : outcome :=
  match l with
  | [] => Return st
  | x :: rest => bind (body x st) (for_each body rest)
  end.

(** The body of the loop over [deps.items()]. *)
Definition recurse_item (rec : Path -> Z -> state -> outcome) (depth : Z)
    (e : string * json) (st : state) : outcome :=
  match snd e with
  | JList mods =>
      if String.eqb (fst e) "modules"
      then analyze_modules fs project_path rec mods depth st
      else analyze_dict_items fs project_path rec mods depth st
  | JDict val_entries =>
      match assoc "modules" val_entries with
      | Some (JList mods) => analyze_modules fs project_path rec mods depth st
      | _ => _recurse_inner_dependencies fs project_path rec (snd e) depth st
      end
  | _ => Return st
  end.

(** The paths of the file system that are not visited yet: every analysis
    takes one away, which bounds the depth of the recursion. *)
Definition unvisited (st : state) : list Path :=
  filter (fun q => negb (is_visited q st)) (all_paths fs).

Definition budget (st : state) : nat := length (unvisited st).

(** One record per visited file, in the order of the visits. *)
Definition consistent (st : state) : Prop :=
  map fst (written st) = visited st /\ NoDup (visited st).

(** A call from [st] ended well: it did not run out of fuel, and if it
    returned, nothing was forgotten and the state is still consistent. *)
Definition well (st : state) (o : outcome) : Prop :=
  match o with
  | Return st' => incl (visited st) (visited st') /\ (consistent st -> consistent st')
  | Raise => True
  | OutOfFuel => False
  end.

Definition safe (F : nat) (step : state -> outcome) : Prop :=
  forall st, budget st < F -> well st (step st).

(** More fuel does not change a result that was reached. *)
Definition agree (f1 f2 : state -> outcome) : Prop :=
  forall st, f1 st <> OutOfFuel -> f2 st = f1 st.

End Measures.

(** Two file systems with the same layout: the same paths exist and the same
    paths are directories. *)
Definition same_layout (fs1 fs2 : fsnode source) : Prop :=
  forall q, exists_ fs1 q = exists_ fs2 q /\ is_dir fs1 q = is_dir fs2 q.

End Analyzer.

(* ================================================================== *)
(** * build_project_structure.py *)
(* ================================================================== *)

Module Aggregator.
Import Json.

(** [a + b] for two computations that may raise. *)
Definition app_opt {A : Type} (a b : option (list A)) : option (list A) :=
  match a, b with
  | Some x, Some y => Some (x ++ y)%list
  | _, _ => None
  end.

(** [mp = d.get("path"); if mp: result.append(mp)]: the strings it adds to
    [result].  A truthy value that is not a string is added as well, and
    being a list or a dictionary it makes [set(result)] raise: [None]. *)
Definition path_of (d : list (string * json)) : option (list string) :=
  match assoc "path" d with
  | Some (JStr s) => if String.eqb s "" then Some [] else Some [s]
  | Some j => if truthy j then None else Some []
  | None => Some []
  end.

(** [for mod in inner_deps["modules"]]: an entry that is not a dictionary
    has no [get]. *)
Fixpoint module_paths (mods : list json) : option (list string) :=
  match mods with
  | [] => Some []
  | JDict d :: rest => app_opt (path_of d) (module_paths rest)
  | _ :: rest => None
  end.

Section Extract.
(** [list(set(result))]: the elements of [result] without repetition, in an
    order that Python does not specify. *)
Variable list_of_set : list string -> list string.

Fixpoint extract_internal_module_paths (inner_deps : json) : option (list string) :=
  match inner_deps with
  | JDict entries =>
      let direct :=
        match assoc "modules" entries with
        | Some (JList mods) => module_paths mods
        | _ => Some []
        end in
      let nested :=
        (fix over (es : list (string * json)) : option (list string) :=
           match es with
           | [] => Some []
           | (k, v) :: rest =>
               match v with
               | JDict _ | JList _ =>
                   app_opt (extract_internal_module_paths v) (over rest)
               | _ => over rest
               end
           end) entries in
      option_map list_of_set (app_opt direct nested)
  | JList items =>
      option_map list_of_set
        ((fix over (l : list json) : option (list string) :=
            match l with
            | [] => Some []
            | item :: rest =>
                match item with
                | JDict d =>
                    app_opt (path_of d)
                      (app_opt (extract_internal_module_paths item) (over rest))
                | _ => over rest
                end
            end) items)
  | _ => Some (list_of_set [])
  end.

(** The loop over the values of a dictionary. *)
Fixpoint nested_paths (es : list (string * json)) : option (list string) :=
  match es with
  | [] => Some []
  | (k, v) :: rest =>
      match v with
      | JDict _ | JList _ => app_opt (extract_internal_module_paths v) (nested_paths rest)
      | _ => nested_paths rest
      end
  end.

(** The loop over the items of a list. *)
Fixpoint list_paths (l : list json) : option (list string) :=
  match l with
  | [] => Some []
  | item :: rest =>
      match item with
      | JDict d =>
          app_opt (path_of d)
            (app_opt (extract_internal_module_paths item) (list_paths rest))
      | _ => list_paths rest
      end
  end.

(** An entry of [modules_info]. *)
Record module_summary := mk_summary {
  m_path : string;
  m_classes : list string;
  m_functions : list string;
  m_external_dependencies : list string;
  m_internal_dependencies : list string
}.

(** The loop state of [build_project_structure]. *)
Record tables := mk_tables {
  modules_info : list (string * module_summary);
  adjacency_list : list (string * list string)
}.

(** [adjacency_list[file_path].append(dep_path)] on a [defaultdict(list)]. *)
Definition adjacency_append (file_path dep_path : string)
    (adj : list (string * list string)) : list (string * list string) :=
  dict_set file_path (get (assoc file_path adj) [] ++ [dep_path])%list adj.

(** The body of the loop over the analysis files, on the record [data] read
    from one of them. *)
Definition add_record (t : tables) (data : Analyzer.file_info) : option tables :=
  let file_path := Analyzer.path data in
  if String.eqb file_path "" then Some t
  else
    let classes := get (Analyzer.classes data) [] in
    let functions := get (Analyzer.functions data) [] in
    let ext_deps := get (Analyzer.external_dependencies data) [] in
    let inner_deps := get (Analyzer.inner_project_dependencies data) (JDict []) in
    match extract_internal_module_paths inner_deps with
    | None => None
    | Some internal_dep_paths =>
        Some (mk_tables
                (dict_set file_path
                   (mk_summary file_path (map fst classes) (map fst functions)
                               ext_deps internal_dep_paths)
                   (modules_info t))
                (fold_left (fun adj dep_path => adjacency_append file_path dep_path adj)
                           internal_dep_paths (adjacency_list t)))
    end.

Fixpoint add_records (t : tables) (records : list Analyzer.file_info) : option tables :=
  match records with
  | [] => Some t
  | data :: rest =>
      match add_record t data with
      | Some t => add_records t rest
      | None => None
      end
  end.

(** The [dependencies_graph] of the project structure. *)
Record graph := mk_graph {
  nodes : list string;
  edges : list (string * string)
}.

Definition edges_of (adj : list (string * list string)) : list (string * string) :=
  flat_map (fun e => map (fun dst => (fst e, dst)) (snd e)) adj.

(** [build_project_structure] on the records of the analysis files, in the
    order [rglob] lists them. *)
Definition build_project_structure (records : list Analyzer.file_info)
  : option (list (string * module_summary) * graph) :=
  match add_records (mk_tables [] []) records with
  | Some t =>
      Some (modules_info t,
            mk_graph (map fst (modules_info t)) (edges_of (adjacency_list t)))
  | None => None
  end.

End Extract.

(** [p] is the path of an entry of a [modules] list somewhere in the tree. *)
Inductive module_path_in : json -> string -> Prop :=
| module_here (entries : list (string * json)) (mods : list json)
    (d : list (string * json)) (p : string) :
    assoc "modules" entries = Some (JList mods) ->
    In (JDict d) mods ->
    assoc "path" d = Some (JStr p) -> p <> "" ->
    module_path_in (JDict entries) p
| module_below (entries : list (string * json)) (k : string) (v : json) (p : string) :
    In (k, v) entries -> module_path_in v p ->
    module_path_in (JDict entries) p.

(** The dependency targets of a record. *)
Definition dependencies_of (data : Analyzer.file_info) : json :=
  get (Analyzer.inner_project_dependencies data) (JDict []).

(** Equality of edges is decidable. *)
Definition edge_eq_dec : forall a b : string * string, {a = b} + {a <> b}.
Proof. decide equality; apply string_dec. Defined.

(** The targets stored for [src]. *)
Definition targets_of (src : string) (adj : list (string * list string)) : list string :=
  get (assoc src adj) [].

Section Contribution.
Variable list_of_set : list string -> list string.

(** What the record [data] appends to the targets stored for [src]. *)
Definition contribution (src : string) (data : Analyzer.file_info) : list string :=
  if String.eqb (Analyzer.path data) src
  then get (extract_internal_module_paths list_of_set (dependencies_of data)) []
  else [].

(** [data] is a record of path [src] whose collected targets include [dst]. *)
Definition emits (src dst : string) (data : Analyzer.file_info) : bool :=
  if in_dec string_dec dst (contribution src data) then true else false.

End Contribution.

End Aggregator.

(* ================================================================== *)
(** * Reference definitions for the entity extractor *)
(* ================================================================== *)

Module ExtractorSpec.
Import Ast Extractor.

(** The import strings of a tree, read off the tree alone: those of its
    [Import] and [ImportFrom] nodes, in the order [generic_visit] meets
    them. *)
Fixpoint import_names (n : node) : list string :=
  let all :=
    fix all (l : list node) : list string :=
      match l with
      | [] => []
      | x :: rest => (import_names x ++ all rest)%list
      end in
  let all_args :=
    fix all_args (l : list (string * option node)) : list string :=
      match l with
      | [] => []
      | (_, Some a) :: rest => (import_names a ++ all_args rest)%list
      | (_, None) :: rest => all_args rest
      end in
  match n with
  | Import names => names
  | ImportFrom module names => from_names module names
  | ClassDef _ _ _ _ bases keywords body decorator_list =>
      (all bases ++ all keywords ++ all body ++ all decorator_list)%list
  | FunctionDef _ _ _ _ posonlyargs args other_args body decorator_list returns =>
      (all posonlyargs ++ all_args args ++ all other_args ++ all body
       ++ all decorator_list
       ++ match returns with Some r => import_names r | None => [] end)%list
  | Call func args => (import_names func ++ all args)%list
  | Name _ _ => []
  | Attribute value _ => import_names value
  | Subscript value slice => (import_names value ++ import_names slice)%list
  | Other children => all children
  end.

Definition import_names_all (l : list node) : list string :=
  flat_map import_names l.

Definition import_names_args (l : list (string * option node)) : list string :=
  flat_map (fun a => match snd a with Some n => import_names n | None => [] end) l.

(** The variable lists of every function dictionary are free of repetition. *)
Definition variables_distinct (v : visitor) : Prop :=
  Forall (fun o => NoDup (used o) /\ NoDup (assigned o)) (objects v).

(** The reference [e] of a [functions] or [methods] dictionary points to a
    dictionary named like its key and of the given kind. *)
Definition good_ref (v : visitor) (kind : string) (e : string * nat) : Prop :=
  exists o, nth_error (objects v) (snd e) = Some o /\
            fn_name o = fst e /\ fn_type o = kind.

(** Every entry is stored under its own name, and its kind says where: the
    top-level functions are of kind "function", the methods of a class of
    kind "method". *)
Definition well_stored (v : visitor) : Prop :=
  (forall e, In e (functions v) -> good_ref v "function" e) /\
  (forall c ci, In (c, ci) (classes v) ->
     cls_name ci = c /\ forall e, In e (methods ci) -> good_ref v "method" e).

(** A step that appends the imports [names] and nothing else to them. *)
Definition appends_imports (names : list string) (step : visitor -> visitor) : Prop :=
  forall v, imports (step v) = (imports v ++ names)%list.

(** From [v] to [v'] the dictionaries [functions] and [classes] are the
    same and every function dictionary kept its name and kind. *)
Definition keeps_entries (v v' : visitor) : Prop :=
  functions v' = functions v /\ classes v' = classes v /\
  forall r o, nth_error (objects v) r = Some o ->
    exists o', nth_error (objects v') r = Some o' /\
               fn_name o' = fn_name o /\ fn_type o' = fn_type o.

End ExtractorSpec.

(* ================================================================== *)
(** * The shape of the dependency trees that the analyzer builds *)
(* ================================================================== *)

Module DependencyTree.
Import Json.

(** [m] is a module entry, as [_build_inner_deps_structure] appends them,
    with the non-empty path [p]. *)
Definition is_module_entry (m : json) (p : string) : Prop :=
  exists name sub_modules, m = Analyzer.module_entry name p sub_modules /\ p <> "".

Definition is_modules_list (v : json) : Prop :=
  exists mods, v = JList mods /\ Forall (fun m => exists p, is_module_entry m p) mods.

Definition is_string (v : json) : Prop := exists s, v = JStr s.

(** A directory node: a dictionary with distinct keys in which [modules], if
    present, is a list of module entries, [path], if present, a string and
    every other key a directory node. *)
Fixpoint built (t : json) : Prop :=
  match t with
  | JDict entries =>
      NoDup (map fst entries) /\
      (fix all (es : list (string * json)) : Prop :=
         match es with
         | [] => True
         | (k, v) :: rest =>
             (if String.eqb k "modules" then is_modules_list v
              else if String.eqb k "path" then is_string v
              else built v) /\ all rest
         end) entries
  | _ => False
  end.

(** What [built] asks of one entry. *)
Definition entry_built (e : string * json) : Prop :=
  if String.eqb (fst e) "modules" then is_modules_list (snd e)
  else if String.eqb (fst e) "path" then is_string (snd e)
  else built (snd e).

(** The directory names that collide with the keys of a node. *)
Definition reserved (name : string) : bool :=
  String.eqb name "modules" || String.eqb name "path".

(** An internal dependency that lies in the project, under directories that
    are not called [modules] or [path]. *)
Definition plain_dependency (project_path : Path) (dep : string * Path * list string)
  : Prop :=
  exists rel, relative_to (snd (fst dep)) project_path = Some rel /\
              forallb (fun d => negb (reserved d)) (removelast rel) = true.

(** The path text that the builder writes for a dependency. *)
Definition dependency_text (project_path : Path) (dep : string * Path * list string)
  : option string :=
  option_map (fun rel => "./" ++ str_rel rel) (relative_to (snd (fst dep)) project_path).

(** [p] is the path of an entry of the [modules] list of the node itself. *)
Definition here (d : list (string * json)) (p : string) : Prop :=
  exists mods md, assoc "modules" d = Some (JList mods) /\ In (JDict md) mods /\
                  assoc "path" md = Some (JStr p) /\ p <> "".

(** [p] is a module path below an entry of the node other than [k0]. *)
Definition others (k0 : string) (d : list (string * json)) (p : string) : Prop :=
  exists k v, k <> k0 /\ In (k, v) d /\ Aggregator.module_path_in v p.

(** [p] is a module path below the value stored under [k0], if any. *)
Definition under (k0 : string) (d : list (string * json)) (p : string) : Prop :=
  match assoc k0 d with
  | Some v => Aggregator.module_path_in v p
  | None => False
  end.

End DependencyTree.

(* ================================================================== *)
(** * Reference definitions for the error locator *)
(* ================================================================== *)

Module LocatorSpec.
Import ErrorLocator.

(** The line lies in the range of the function or method [f]. *)
Definition func_contains (line_num : Z) (f : func_data) : bool :=
  within (get (f_start_line f) 0%Z) line_num (get (f_end_line f) 0%Z).

(** [mn] is a method that contains the line, of a class [c] of [cs] that
    contains the line. *)
Definition method_of (cs : list (string * cls_data)) (line_num : Z)
    (mn c : string) : Prop :=
  exists cls md, In (c, cls) cs /\ class_contains line_num cls = true /\
    In (mn, md) (get (c_methods cls) []) /\ func_contains line_num md = true.

(** The running best is a method match at distance 0. *)
Definition method_matched (cs : list (string * cls_data)) (line_num : Z) (b : best)
  : Prop :=
  exists mn c, method_of cs line_num mn c /\
    b = (Some ("Method " ++ mn ++ " of class " ++ c), Fin 0%Z).

(** The running best is a class match, at the distance to the nearer end of
    a class that contains the line. *)
Definition class_matched (cs : list (string * cls_data)) (line_num : Z) (b : best)
  : Prop :=
  exists c cls, In (c, cls) cs /\ class_contains line_num cls = true /\
    b = (Some ("Inside class " ++ c),
         Fin (edge_distance line_num (get (c_start_line cls) 0%Z)
                                     (get (c_end_line cls) 0%Z))).

(** What the loop over the classes can hold. *)
Definition class_scan_state (cs : list (string * cls_data)) (line_num : Z) (b : best)
  : Prop :=
  b = (None, Inf) \/ class_matched cs line_num b \/ method_matched cs line_num b.

(** The line is not the first or the last line of any class that contains
    it. *)
Definition strictly_inside (cs : list (string * cls_data)) (line_num : Z) : Prop :=
  forall c cls, In (c, cls) cs -> class_contains line_num cls = true ->
    (0 < edge_distance line_num (get (c_start_line cls) 0%Z)
                                (get (c_end_line cls) 0%Z))%Z.

End LocatorSpec.

(* ================================================================== *)
(** * Reference definitions for the traversal *)
(* ================================================================== *)

Module TraversalSpec.
Import FileSystem Json Analyzer.

(** [step] keeps the property [Q] of the analyzer whenever it returns. *)
Definition maintains (Q : state -> Prop) (step : state -> outcome) : Prop :=
  forall st, Q st -> match step st with Return st' => Q st' | _ => True end.

(** Every record written is the one that [_analyze_single_file] returns for
    its file, which is a file below the project directory. *)
Definition faithful (fs : fsnode source) (project_path : Path) (st : state) : Prop :=
  forall p info, In (p, info) (written st) ->
    _analyze_single_file fs project_path p = Some info /\
    (exists src, fs_lookup fs p = Some (File src)) /\
    (exists rel, relative_to p project_path = Some rel).

(** The file that the traversal looks for under the module path [text]:
    [(self.project_path / mod_path.strip('./')).resolve()]. *)
Definition module_file (project_path : Path) (text : string) : Path :=
  join_text project_path (strip ["."%char; "/"%char] text).

(** [p] is a module path that the traversal follows in a tree: a path of
    the [modules] list of the tree itself, or of the first node that has such
    a list on a chain of dictionaries below it.  What lies below a node with
    a [modules] list is not looked at. *)
Inductive followed : json -> string -> Prop :=
| followed_here (entries : list (string * json)) (mods : list json)
    (d : list (string * json)) (p : string) :
    assoc "modules" entries = Some (JList mods) ->
    In (JDict d) mods ->
    assoc "path" d = Some (JStr p) -> p <> "" ->
    followed (JDict entries) p
| followed_directory (entries : list (string * json)) (k : string)
    (val_entries : list (string * json)) (mods : list json)
    (d : list (string * json)) (p : string) :
    In (k, JDict val_entries) entries ->
    assoc "modules" val_entries = Some (JList mods) ->
    In (JDict d) mods ->
    assoc "path" d = Some (JStr p) -> p <> "" ->
    followed (JDict entries) p
| followed_below (entries : list (string * json)) (k : string)
    (val_entries : list (string * json)) (p : string) :
    In (k, JDict val_entries) entries ->
    assoc "modules" val_entries = None ->
    followed (JDict val_entries) p ->
    followed (JDict entries) p.

(** The record of [p] has the traversal follow the module path of the
    existing file [q]. *)
Definition follows (fs : fsnode source) (project_path : Path) (p q : Path) : Prop :=
  exists info text,
    _analyze_single_file fs project_path p = Some info /\
    followed (Aggregator.dependencies_of info) text /\
    q = module_file project_path text /\
    exists_ fs q = true.

(** [p] is reached from the entry file through [depth] records. *)
Inductive reached (fs : fsnode source) (project_path entry_file : Path)
  : Z -> Path -> Prop :=
| reached_entry : reached fs project_path entry_file 0%Z entry_file
| reached_module (depth : Z) (p q : Path) :
    reached fs project_path entry_file depth p ->
    follows fs project_path p q ->
    reached fs project_path entry_file (depth + 1)%Z q.

(** The existing files that the entries of a list of modules name. *)
Definition named_files (fs : fsnode source) (project_path : Path) (mods : list json)
    (q : Path) : Prop :=
  exists d text, In (JDict d) mods /\ assoc "path" d = Some (JStr text) /\
    text <> "" /\ exists_ fs (module_file project_path text) = true /\
    q = module_file project_path text.

(** The existing files that a tree has the traversal follow. *)
Definition followed_files (fs : fsnode source) (project_path : Path) (deps : json)
    (q : Path) : Prop :=
  exists text, followed deps text /\
    exists_ fs (module_file project_path text) = true /\
    q = module_file project_path text.

(** The existing files that one item of a dictionary has it follow. *)
Definition item_files (fs : fsnode source) (project_path : Path) (e : string * json)
    (q : Path) : Prop :=
  match snd e with
  | JList mods =>
      if String.eqb (fst e) "modules" then named_files fs project_path mods q else False
  | JDict val_entries =>
      match assoc "modules" val_entries with
      | Some (JList mods) => named_files fs project_path mods q
      | Some _ => False
      | None => followed_files fs project_path (snd e) q
      end
  | _ => False
  end.

(** The analysed files are complete but for the [pending] ones, whose
    dependencies are still being worked on: every existing file that the
    record of another analysed file has the traversal follow is analysed. *)
Definition closed (fs : fsnode source) (project_path : Path) (pending : list Path)
    (st : state) : Prop :=
  forall p info text,
    In p (visited st) -> ~ In p pending ->
    _analyze_single_file fs project_path p = Some info ->
    followed (Aggregator.dependencies_of info) text ->
    exists_ fs (module_file project_path text) = true ->
    In (module_file project_path text) (visited st).

(** [step] keeps [closed], forgets no file and, when it returns, has
    analysed the files [targets]. *)
Definition visits (fs : fsnode source) (project_path : Path) (pending : list Path)
    (targets : Path -> Prop) (step : state -> outcome) : Prop :=
  forall st, closed fs project_path pending st ->
    match step st with
    | Return st' =>
        closed fs project_path pending st' /\
        incl (visited st) (visited st') /\
        forall q, targets q -> In q (visited st')
    | _ => True
    end.

(** No directory of the project is called [modules] or [path]. *)
Definition plain_project (fs : fsnode source) (project_path : Path) : bool :=
  forallb (fun q =>
             match relative_to q project_path with
             | Some rel => forallb (fun d => negb (DependencyTree.reserved d))
                                   (removelast rel)
             | None => true
             end) (all_paths fs).

End TraversalSpec.

(* ================================================================== *)
(** * Reference definitions for the texts of paths *)
(* ================================================================== *)

Module PathText.

Fixpoint contains_char (c : ascii) (s : string) : bool :=
  match s with
  | EmptyString => false
  | String a rest => Ascii.eqb a c || contains_char c rest
  end.

(** The first character of [s] is one of [chars]. *)
Definition starts_in (chars : list ascii) (s : string) : bool :=
  match s with
  | EmptyString => false
  | String a _ => in_chars a chars
  end.

(** The last character of [s] is one of [chars]. *)
Fixpoint ends_in (chars : list ascii) (s : string) : bool :=
  match s with
  | EmptyString => false
  | String a EmptyString => in_chars a chars
  | String _ rest => ends_in chars rest
  end.

(** A name that a path text keeps as one component: it is not empty, not a
    single dot, and holds no slash. *)
Definition component (name : string) : bool :=
  negb (String.eqb name "") && negb (String.eqb name ".")
  && negb (contains_char "/"%char name).

(** A relative path that survives [strip('./')]: it has a component, all its
    names are components, the first does not begin with a dot and the last
    does not end with one. *)
Definition reads_back (rel : Path) : bool :=
  negb (Nat.eqb (length rel) 0)
  && forallb component rel
  && negb (starts_in ["."%char; "/"%char] (hd "" rel))
  && negb (ends_in ["."%char; "/"%char] (last rel "")).

End PathText.

(* ================================================================== *)
(** * Reference definitions for projects on which the analysis returns *)
(* ================================================================== *)

Module TidyProject.
Import FileSystem Analyzer PathText.

(** A part of a dotted import that is a name: not empty, without slash. *)
Definition part_ok (part : string) : bool :=
  negb (String.eqb part "") && negb (contains_char "/"%char part).

Definition import_ok (import_name : string) : bool :=
  forallb part_ok (split_on "."%char import_name).

(** A name of an import: a part without dot, as splitting at the dots
    leaves them. *)
Definition name_ok (x : string) : bool :=
  part_ok x && negb (contains_char "."%char x).

(** The imports of every file that parses are dotted names. *)
Definition named_imports (fs : fsnode source) : bool :=
  forallb (fun q =>
             match fs_lookup fs q with
             | Some (File (Parsed tree)) =>
                 forallb import_ok
                   (Extractor.x_imports (Extractor.analyze_source_code tree))
             | _ => true
             end) (all_paths fs).

(** [s.endswith(suffix)] *)
Fixpoint ends_with (suffix s : string) : bool :=
  String.eqb s suffix
  || match s with
     | EmptyString => false
     | String _ rest => ends_with suffix rest
     end.

(** No directory is called like a module file. *)
Definition no_py_directory (fs : fsnode source) : bool :=
  forallb (fun q => negb (is_dir fs q && ends_with ".py" (last q ""))) (all_paths fs).

(** A file below the project directory. *)
Definition good_file (fs : fsnode source) (project_path p : Path) : Prop :=
  (exists src, fs_lookup fs p = Some (File src)) /\
  (exists rel, relative_to p project_path = Some rel).

Definition never_raises (step : state -> outcome) : Prop :=
  forall st, step st <> Raise.

End TidyProject.

(* ================================================================== *)
(** * make_file_summaries.py: [get_code_excerpt] *)
(* ================================================================== *)

Module Excerpt.

(** [str(n)] of an integer, in decimal. *)
Definition str_int (n : Z) : string :=
  DecimalString.NilZero.string_of_int (Z.to_int n).

Fixpoint range_from (start : Z) (count : nat) : list Z :=
  match count with
  | O => []
  | S k => start :: range_from (start + 1)%Z k
  end.

(** [range(start, stop)] *)
Definition range (start stop : Z) : list Z :=
  range_from start (Z.to_nat (stop - start)).

(** One line of the excerpt, [f"{prefix}{i+1}: {lines[i]}"]; the loop only
    reaches indices that are in range. *)
Definition excerpt_line (lines : list string) (line_num : Z) (i : Z) : string :=
  let prefix := if (i + 1 =? line_num)%Z then ">> " else "   " in
  prefix ++ str_int (i + 1) ++ ": " ++ nth (Z.to_nat i) lines "".

(** The indices the loop of [get_code_excerpt] runs over. *)
Definition excerpt_indices (lines : list string) (line_num context : Z) : list Z :=
  let start := Z.max 0 (line_num - context - 1) in
  let stop := Z.min (Z.of_nat (length lines)) (line_num + context) in
  range start stop.

(** [get_code_excerpt] on the lines of the file ([splitlines] of its text). *)
Definition get_code_excerpt (lines : list string) (line_num context : Z) : list string :=
  map (excerpt_line lines line_num) (excerpt_indices lines line_num context).

End Excerpt.

(* ================================================================== *)
(** * make_file_summaries.py: [copy_dependent_files] *)
(* ================================================================== *)

Module Copier.
Import FileSystem.

Section Copy.
Context {C : Type}.
Variable fs : fsnode C.
Variable project_path : Path.

(** [(project_path / py_path.strip("./")).resolve()] *)
Definition py_source (py_path : string) : Path :=
  join_text project_path (strip ["."%char; "/"%char] py_path).

(** The loop of [copy_dependent_files] over the records loaded from the
    JSON files, in the order in which [rglob] lists them; [copied] is the
    set of the sources copied so far.  The result is the list of the copies
    made, in their order, each with its source and with its target relative
    to [actual_code_folder], which is taken to lie outside the project.  A
    record without [path] counts like one with an empty [path].  [None]
    stands for an exception: the [ValueError] of [relative_to], and the
    error that [shutil.copy2] raises on a directory. *)
Fixpoint copy_loop (records : list Analyzer.file_info) (copied : list Path)
  : option (list (Path * Path)) :=
  match records with
  | [] => Some []
  | data :: rest =>
      let py_path := Analyzer.path data in
      if String.eqb py_path "" then copy_loop rest copied
      else if exists_ fs (py_source py_path) then
        match relative_to (py_source py_path) project_path with
        | None => None
        | Some rel =>
            if in_dec Path_eq_dec (py_source py_path) copied
            then copy_loop rest copied
            else if is_dir fs (py_source py_path) then None
            else option_map (cons (py_source py_path, rel))
                            (copy_loop rest (py_source py_path :: copied))
        end
      else copy_loop rest copied
  end.

Definition copy_dependent_files (records : list Analyzer.file_info)
  : option (list (Path * Path)) :=
  copy_loop records [].

End Copy.
End Copier.

(* ================================================================== *)
(** * make_file_summaries.py: the error report *)
(* ================================================================== *)

Module Report.
Import FileSystem.

(** What [extract_code_excerpts] stores for a file. *)
Record context_entry := mk_context {
  error_line : Z;
  code_excerpt : list string;
  nearest_entity : string
}.

(** The line feed. *)
Definition nl : string := String (Ascii.ascii_of_nat 10) EmptyString.

(** [Path(text).name]: the last component of the text of a path; pathlib
    drops the empty segments and the single dots. *)
Definition path_name (text : string) : string :=
  last (filter (fun c => negb (String.eqb c "" || String.eqb c "."))
               (split_on "/"%char text)) "".

Section Reporting.
(** [Path(file_path).resolve()], which depends on the working directory and
    on the links of the file system. *)
Variable resolve : string -> Path.
(** The resolved folders, the lines of the text files and the contents of
    the analysis files. *)
Variable actual_code_folder : Path.
Variable dependency_analysis_folder : Path.
Variable code : fsnode (list string).
Variable analyses : fsnode ErrorLocator.json_info.

(** [get_code_excerpt] on a file, with the default [context] of 5; [None]
    stands for the exception raised when the file cannot be read. *)
Definition get_code_excerpt (file_path : Path) (line_num : Z) : option (list string) :=
  match fs_lookup code file_path with
  | Some (File lines) => Some (Excerpt.get_code_excerpt lines line_num 5)
  | _ => None
  end.

(** [get_json_info_for_file]: [{}] when there is no analysis file; [None]
    when opening what is there raises. *)
Definition get_json_info_for_file (rel_path : Path) : option ErrorLocator.json_info :=
  let json_path :=
    (dependency_analysis_folder ++ removelast rel_path
       ++ [(stem (last rel_path "") ++ ".json")%string])%list in
  match fs_lookup analyses json_path with
  | Some (File info) => Some info
  | Some (Dir _) => None
  | None => Some ErrorLocator.empty_info
  end.

(** How the body of the loop of [extract_code_excerpts] ends for a frame:
    with [continue], with an exception, or with an entry to store. *)
Inductive frame_result :=
| Skipped
| Failed
| Stored (key : string) (entry : context_entry).

Definition examine (frame : string * Z) : frame_result :=
  let '(file_path, line_num) := frame in
  match relative_to (resolve file_path) actual_code_folder with
  | None => Skipped
  | Some rel_path =>
      match get_code_excerpt (actual_code_folder ++ rel_path)%list line_num with
      | None => Failed
      | Some code_excerpt =>
          match get_json_info_for_file rel_path with
          | None => Failed
          | Some json_info =>
              Stored (str_rel rel_path)
                (mk_context line_num code_excerpt
                   (ErrorLocator.find_nearest_entity json_info line_num))
          end
      end
  end.

(** The loop of [extract_code_excerpts], from the dictionary filled so far. *)
Fixpoint extract_from (code_context : list (string * context_entry))
    (error_lines : list (string * Z)) : option (list (string * context_entry)) :=
  match error_lines with
  | [] => Some code_context
  | frame :: rest =>
      match examine frame with
      | Skipped => extract_from code_context rest
      | Failed => None
      | Stored key entry => extract_from (dict_set key entry code_context) rest
      end
  end.

Definition extract_code_excerpts (error_lines : list (string * Z))
  : option (list (string * context_entry)) :=
  extract_from [] error_lines.

(** The search of [write_error_report] for the key of a frame: the first key
    whose file name is that of the frame. *)
Definition find_key (file_path : string) (keys : list string) : option string :=
  find (fun k => String.eqb (path_name file_path) (path_name k)) keys.

(** What is written below the line of a frame for the entry found. *)
Definition excerpt_block (info : context_entry) : list string :=
  ((nl ++ "Code Excerpt around error:" ++ nl)%string
   :: map (fun l => (l ++ nl)%string) (code_excerpt info)
   ++ [(nl ++ "Nearest Entity: " ++ nearest_entity info ++ nl ++ nl)%string])%list.

(** The strings written for one frame; [None] stands for the [KeyError]. *)
Definition write_frame (code_excerpts : list (string * context_entry))
    (frame : string * Z) : option (list string) :=
  let '(file_path, line_num) := frame in
  let head := "File: " ++ file_path ++ ", Line: " ++ Excerpt.str_int line_num ++ nl in
  match find_key file_path (map fst code_excerpts) with
  | Some rel_key =>
      if String.eqb rel_key "" then Some [head]
      else match assoc rel_key code_excerpts with
           | Some info => Some (head :: excerpt_block info)
           | None => None
           end
  | None => Some [head]
  end.

Fixpoint write_frames (code_excerpts : list (string * context_entry))
    (error_lines : list (string * Z)) : option (list string) :=
  match error_lines with
  | [] => Some []
  | frame :: rest =>
      match write_frame code_excerpts frame, write_frames code_excerpts rest with
      | Some a, Some b => Some (a ++ b)%list
      | _, _ => None
      end
  end.

(** [write_error_report]: the strings written to the report, in order. *)
Definition write_error_report (error_lines : list (string * Z))
    (code_excerpts : list (string * context_entry)) : option (list string) :=
  match write_frames code_excerpts error_lines with
  | Some body =>
      Some (("=== Error Report ===" ++ nl ++ nl)%string
            :: ("Traceback files and lines:" ++ nl)%string
            :: body ++ [("=== End of Report ===" ++ nl)%string])%list
  | None => None
  end.

(** The report as [main] makes it: the excerpts of the frames, then the
    report of the same frames. *)
Definition report (error_lines : list (string * Z)) : option (list string) :=
  match extract_code_excerpts error_lines with
  | Some code_excerpts => write_error_report error_lines code_excerpts
  | None => None
  end.

(** [frame] is the last frame of [error_lines] that is stored under [key]. *)
Definition last_stored (error_lines : list (string * Z)) (key : string)
    (entry : context_entry) (frame : string * Z) : Prop :=
  exists before after,
    error_lines = (before ++ frame :: after)%list /\
    examine frame = Stored key entry /\
    forall later entry', In later after -> examine later <> Stored key entry'.

(** The dictionary holds, for every key met among the frames [done], the
    entry of the last of these frames with that key, and nothing else. *)
Definition stored_last (done : list (string * Z))
    (code_context : list (string * context_entry)) : Prop :=
  NoDup (map fst code_context) /\
  (forall k e, In (k, e) code_context -> exists frame, last_stored done k e frame) /\
  (forall frame k e, In frame done -> examine frame = Stored k e ->
     In k (map fst code_context)).

End Reporting.
End Report.

(* ================================================================== *)
(** * Example projects and records *)
(* ================================================================== *)

(** A project [/proj] whose package directory [a] holds the module [b.py]. *)
Definition layout_a_b : FileSystem.fsnode unit :=
  FileSystem.Dir [("proj", FileSystem.Dir
    [("a", FileSystem.Dir [("b.py", FileSystem.File tt)])])].

(** The visitor inside [f] of [call_after_nested], before its body. *)
Definition inside_f : Extractor.visitor :=
  Extractor.enter_function "f" 1 (Some 4%Z) None [] [] None Extractor.init_visitor.

(** The visitor inside method [m] of class [C] of [nested_in_method]. *)
Definition inside_m : Extractor.visitor :=
  Extractor.enter_function "m" 2 (Some 4%Z) None [("self", None)] [] None
    (Extractor.enter_class "C" 1 (Some 4%Z) None [] Extractor.init_visitor).

(** A project [/proj] with an import cycle between [a.py] and [b.py], a file
    [bad.py] that does not parse, and a module [c.py] in the directory
    [pkg]:
    - [a.py]: [import b], [from pkg.c import K], [import os];
    - [b.py]: [import a], [import bad];
    - [pkg/c.py]: [import a]. *)
Definition cyclic_project : FileSystem.fsnode Analyzer.source :=
  FileSystem.Dir [("proj", FileSystem.Dir
    [("a.py", FileSystem.File (Analyzer.Parsed
        (Ast.Other [Ast.Import ["b"]; Ast.ImportFrom (Some "pkg.c") ["K"];
                    Ast.Import ["os"]])));
     ("b.py", FileSystem.File (Analyzer.Parsed
        (Ast.Other [Ast.Import ["a"]; Ast.Import ["bad"]])));
     ("bad.py", FileSystem.File (Analyzer.Unparsable "invalid syntax"));
     ("pkg", FileSystem.Dir
        [("c.py", FileSystem.File (Analyzer.Parsed (Ast.Other [Ast.Import ["a"]])))])])].

(** [cyclic_project] with another [b.py]: same layout, other contents. *)
Definition cyclic_project_edited : FileSystem.fsnode Analyzer.source :=
  FileSystem.Dir [("proj", FileSystem.Dir
    [("a.py", FileSystem.File (Analyzer.Parsed
        (Ast.Other [Ast.Import ["b"]; Ast.ImportFrom (Some "pkg.c") ["K"];
                    Ast.Import ["os"]])));
     ("b.py", FileSystem.File (Analyzer.Parsed (Ast.Other [])));
     ("bad.py", FileSystem.File (Analyzer.Unparsable "invalid syntax"));
     ("pkg", FileSystem.Dir
        [("c.py", FileSystem.File (Analyzer.Parsed (Ast.Other [Ast.Import ["a"]])))])])].

(** Two records that both depend on [./c.py]; the first names it twice, under
    two entries of its [modules] list. *)
Definition record_a : Analyzer.file_info :=
  Analyzer.mk_file_info "./a.py" None
    (Some (Json.JDict
       [("modules", Json.JList
          [Analyzer.module_entry "c" "./c.py" ["K"];
           Analyzer.module_entry "c" "./c.py" ["L"]])]))
    (Some []) (Some []) (Some []).

Definition record_b : Analyzer.file_info :=
  Analyzer.mk_file_info "./b.py" None
    (Some (Json.JDict
       [("modules", Json.JList [Analyzer.module_entry "c" "./c.py" []])]))
    (Some []) (Some []) (Some []).

(** The resolved imports of [a.py] of [cyclic_project]. *)
Definition deps_of_a : list (string * Path * list string) :=
  [("b", ["proj"; "b.py"], []); ("c", ["proj"; "pkg"; "c.py"], ["K"])].

(** The tree built from [deps_of_a]. *)
Definition tree_of_a : Json.json :=
  Json.JDict
    [("modules", Json.JList [Analyzer.module_entry "b" "./b.py" []]);
     ("pkg", Json.JDict
        [("path", Json.JStr "./pkg");
         ("modules", Json.JList [Analyzer.module_entry "c" "./pkg/c.py" ["K"]])])].

(** The records that the traversal of [cyclic_project] writes. *)
Definition cyclic_records : list Analyzer.file_info :=
  match Analyzer.analyze_from_entry cyclic_project ["proj"] None 8 ["proj"; "a.py"] with
  | Analyzer.Return st => map snd (Analyzer.written st)
  | _ => []
  end.

(** A run whose traceback has two frames in [/work/main.py] and, between
    them, one in a file of the same name elsewhere. *)
Definition work_code : FileSystem.fsnode (list string) :=
  FileSystem.Dir [("work", FileSystem.Dir
    [("main.py", FileSystem.File ["import os"; "x = 1 / 0"; "print(x)"])])].

Definition work_frames : list (string * Z) :=
  [("/work/main.py", 1%Z); ("/usr/lib/main.py", 7%Z); ("/work/main.py", 3%Z)].

Definition work_excerpts : option (list (string * Report.context_entry)) :=
  Report.extract_code_excerpts (join_text []) ["work"] ["analysis"] work_code
    (FileSystem.Dir []) work_frames.

(** A project whose entry imports a module of the package [pkg] and a
    module of its sub-package [pkg.sub]. *)
Definition nested_project : FileSystem.fsnode Analyzer.source :=
  FileSystem.Dir [("proj", FileSystem.Dir
    [("a.py", FileSystem.File (Analyzer.Parsed
        (Ast.Other [Ast.Import ["pkg.c"]; Ast.Import ["pkg.sub.d"]])));
     ("pkg", FileSystem.Dir
        [("c.py", FileSystem.File (Analyzer.Parsed (Ast.Other [])));
         ("sub", FileSystem.Dir
            [("d.py", FileSystem.File (Analyzer.Parsed (Ast.Other [])))])])])].

(** A project [/proj] with an import cycle between [a.py] and [b.py], where
    [b.py] also imports a module of a package directory called [modules]:
    - [a.py]: [import b];
    - [b.py]: [import a], [import modules.y]. *)
Definition crash_project : FileSystem.fsnode Analyzer.source :=
  FileSystem.Dir [("proj", FileSystem.Dir
    [("a.py", FileSystem.File (Analyzer.Parsed (Ast.Other [Ast.Import ["b"]])));
     ("b.py", FileSystem.File (Analyzer.Parsed
        (Ast.Other [Ast.Import ["a"]; Ast.Import ["modules.y"]])));
     ("modules", FileSystem.Dir
        [("y.py", FileSystem.File (Analyzer.Parsed (Ast.Other [])))])])].

(* ================================================================== *)
(** * Properties of the error locator *)
(* ================================================================== *)

Section ErrorLocatorFacts.
Import ErrorLocator.

Lemma scan_function_update (line_num : Z) (b : best) (f : string * func_data) :
  scan_function line_num b f =
  update (func_distance line_num (snd f)) (func_descr line_num f) b.
Proof.
  unfold scan_function, func_distance, func_descr.
  destruct (within _ line_num _); reflexivity.
Qed.

Lemma func_descr_shape (line_num : Z) (f : string * func_data) :
  func_descr line_num f = "Function " ++ fst f \/
  func_descr line_num f = "Near function " ++ fst f.
Proof.
  unfold func_descr. destruct (within _ line_num _); auto.
Qed.

Lemma func_descr_not_default (line_num : Z) (f : string * func_data) :
  or_default (Some (func_descr line_num f)) = func_descr line_num f /\
  func_descr line_num f <> "No nearby entity found".
Proof.
  destruct (func_descr_shape line_num f) as [E | E]; rewrite E; simpl;
    split; try reflexivity; discriminate.
Qed.

(** A class that does not contain the line leaves the running best alone. *)
Lemma scan_class_outside (line_num : Z) (b : best) (c : string * cls_data) :
  class_contains line_num (snd c) = false -> scan_class line_num b c = b.
Proof.
  unfold class_contains, scan_class. intros ->. reflexivity.
Qed.

Lemma scan_classes_outside (line_num : Z) (cs : list (string * cls_data)) (b : best) :
  (forall c cls, In (c, cls) cs -> class_contains line_num cls = false) ->
  fold_left (scan_class line_num) cs b = b.
Proof.
  revert b. induction cs as [| [c cls] cs IH]; intros b H; simpl.
  - reflexivity.
  - rewrite scan_class_outside by (simpl; apply (H c); left; reflexivity).
    apply IH. intros c' cls' Hin. apply (H c'). right. exact Hin.
Qed.

Lemma scan_functions_shape (line_num : Z) (fs : list (string * func_data)) (b : best) :
  from_functions (best_match b) ->
  from_functions (best_match (fold_left (scan_function line_num) fs b)).
Proof.
  revert b. induction fs as [| f fs IH]; intros b Hb; simpl; [exact Hb |].
  apply IH. rewrite scan_function_update. unfold update.
  destruct (dist_lt _ _); [| exact Hb].
  right. exists (fst f). simpl.
  destruct (func_descr_shape line_num f) as [E | E]; rewrite E; auto.
Qed.

Lemma scan_methods_shape (cs : list (string * cls_data)) (line_num : Z)
    (c : string) (cls : cls_data) (ms : list (string * func_data)) (b : best) :
  In (c, cls) cs -> class_contains line_num cls = true ->
  from_classes cs line_num (best_match b) ->
  from_classes cs line_num
    (best_match (fold_left (scan_method line_num c (get (c_start_line cls) 0%Z)
                                        (get (c_end_line cls) 0%Z)) ms b)).
Proof.
  intros Hin Hc. revert b. induction ms as [| m ms IH]; intros b Hb; simpl; [exact Hb |].
  apply IH. unfold scan_method, update.
  destruct (within _ line_num _); destruct (dist_lt _ _); try exact Hb; simpl.
  - right. left. exists (fst m), c. reflexivity.
  - right. right. exists c, cls. auto.
Qed.

Lemma scan_classes_shape (cs all : list (string * cls_data)) (line_num : Z) (b : best) :
  incl cs all ->
  from_classes all line_num (best_match b) ->
  from_classes all line_num (best_match (fold_left (scan_class line_num) cs b)).
Proof.
  revert b. induction cs as [| [c cls] cs IH]; intros b Hincl Hb; simpl; [exact Hb |].
  apply IH; [intros x Hx; apply Hincl; right; exact Hx |].
  unfold scan_class; simpl.
  destruct (within _ line_num _) eqn:Hw; [| exact Hb].
  apply scan_methods_shape; auto. apply Hincl. left. reflexivity.
Qed.

Lemma scan_functions_min (line_num : Z) (fs seen : list (string * func_data)) (b : best) :
  is_best_of line_num seen b ->
  is_best_of line_num (seen ++ fs)%list (fold_left (scan_function line_num) fs b).
Proof.
  revert seen b. induction fs as [| f fs IH]; intros seen b Hb; simpl.
  - rewrite app_nil_r. exact Hb.
  - replace (seen ++ f :: fs)%list with ((seen ++ [f]) ++ fs)%list
      by (rewrite <- app_assoc; reflexivity).
    apply IH. destruct Hb as (g & Hg & -> & Hmin).
    rewrite scan_function_update. unfold update; simpl.
    destruct (func_distance line_num (snd f) <? func_distance line_num (snd g))%Z eqn:Hlt.
    + apply Z.ltb_lt in Hlt. exists f. split; [apply in_or_app; right; left; reflexivity |].
      split; [reflexivity |]. intros h Hh. apply in_app_or in Hh.
      destruct Hh as [Hh | [<- | []]]; [specialize (Hmin h Hh); lia | lia].
    + apply Z.ltb_ge in Hlt. exists g. split; [apply in_or_app; left; exact Hg |].
      split; [reflexivity |]. intros h Hh. apply in_app_or in Hh.
      destruct Hh as [Hh | [<- | []]]; [apply Hmin; exact Hh | exact Hlt].
Qed.

(** C3 (code defect).  The "Inside class" candidate is recorded in the
    [else] branch of the test made for each method, inside the loop over the
    methods.  A class without methods therefore never records it, whatever
    the line and the running best are; on [methodless_record] at line 20 the
    locator answers "No nearby entity found" although class [C] contains the
    line. *)
Theorem C3_methodless_class_records_nothing :
  (forall (line_num : Z) (b : best) (name : string) (lo hi : option Z),
      scan_class line_num b (name, mk_cls lo hi (Some [])) = b) /\
  class_contains 20 (mk_cls (Some 10%Z) (Some 40%Z) (Some [])) = true /\
  find_nearest_entity methodless_record 20 = "No nearby entity found".
Proof.
  split; [| split; reflexivity].
  intros line_num b name lo hi. unfold scan_class; simpl.
  destruct (within _ line_num _); reflexivity.
Qed.

(** The part of C3 that the code does satisfy: a class that contains the
    line and has at least one method, none of which contains the line,
    records "Inside class C" at the distance to the nearer end of the class
    when nothing was recorded before. *)
Lemma scan_class_inside_with_methods (line_num : Z) (name : string) (cls : cls_data)
    (m : string * func_data) (ms : list (string * func_data)) :
  class_contains line_num cls = true ->
  c_methods cls = Some (m :: ms) ->
  (forall x, In x (m :: ms) ->
     within (get (f_start_line (snd x)) 0%Z) line_num (get (f_end_line (snd x)) 0%Z) = false) ->
  scan_class line_num (None, Inf) (name, cls) =
  (Some ("Inside class " ++ name),
   Fin (edge_distance line_num (get (c_start_line cls) 0%Z) (get (c_end_line cls) 0%Z))).
Proof.
  unfold class_contains, scan_class. cbn [fst snd]. intros -> -> Hall.
  cbn [get fold_left].
  set (lo := get (c_start_line cls) 0%Z). set (hi := get (c_end_line cls) 0%Z).
  assert (Hstep : forall x b,
     within (get (f_start_line (snd x)) 0%Z) line_num (get (f_end_line (snd x)) 0%Z) = false ->
     scan_method line_num name lo hi b x =
     update (edge_distance line_num lo hi) ("Inside class " ++ name) b).
  { intros x b Hx. unfold scan_method. cbn zeta. rewrite Hx. reflexivity. }
  rewrite Hstep by (apply Hall; left; reflexivity).
  unfold update at 1. cbn [best_distance snd dist_lt].
  assert (Hrest : forall x, In x ms ->
     within (get (f_start_line (snd x)) 0%Z) line_num (get (f_end_line (snd x)) 0%Z) = false)
    by (intros x Hx; apply Hall; right; exact Hx).
  clear Hall. induction ms as [| x ms IH]; cbn [fold_left]; [reflexivity |].
  rewrite Hstep by (apply Hrest; left; reflexivity).
  unfold update at 1. cbn [best_distance snd dist_lt]. rewrite Z.ltb_irrefl.
  apply IH. intros y Hy. apply Hrest. right. exact Hy.
Qed.

(** C6, as stated, fails: at line 45 the class of [spec_example] is skipped
    and nothing is found. *)
Lemma C6_line_45_counterexample :
  find_nearest_entity spec_example 45 = "No nearby entity found" /\
  find_nearest_entity spec_example 45 <> "Inside class C".
Proof.
  split; [reflexivity | vm_compute; discriminate].
Qed.

(** C6 (amended).  A class is a candidate only when its line range contains
    the queried line: whenever the locator answers "Inside class C", some
    class named [C] of the record contains the line; and when no class
    contains the line and the record has no top-level function, the answer
    is "No nearby entity found". *)
Theorem C6_class_match_requires_containment (info : json_info) (line_num : Z) :
  (forall c, find_nearest_entity info line_num = "Inside class " ++ c ->
     exists cls, In (c, cls) (get (classes info) []) /\
                 class_contains line_num cls = true) /\
  ((forall c cls, In (c, cls) (get (classes info) []) ->
      class_contains line_num cls = false) ->
   get (functions info) [] = [] ->
   find_nearest_entity info line_num = "No nearby entity found").
Proof.
  split.
  - intros c. unfold find_nearest_entity.
    pose proof (scan_classes_shape (get (classes info) []) (get (classes info) [])
                  line_num (None, Inf) (incl_refl _) (or_introl eq_refl)) as Hc.
    fold (scan_classes info line_num) in Hc.
    destruct (best_match (scan_classes info line_num)) as [s |] eqn:Hs.
    + rewrite Hs. destruct Hc as [Hc | [(mn & c' & Hc) | (c' & cls & Hc & Hin & Hcont)]].
      * discriminate.
      * injection Hc as ->. simpl. discriminate.
      * injection Hc as ->. simpl. intros E. injection E as <-.
        exists cls. auto.
    + pose proof (scan_functions_shape line_num (get (functions info) [])
                    (scan_classes info line_num) (or_introl Hs)) as Hf.
      fold (scan_functions info line_num (scan_classes info line_num)) in Hf.
      destruct Hf as [-> | (f & [-> | ->])]; simpl; discriminate.
  - intros Hout Hnof. unfold find_nearest_entity, scan_classes, scan_functions.
    rewrite scan_classes_outside by exact Hout. simpl. rewrite Hnof. reflexivity.
Qed.

Lemma C6_class_match_requires_containment_witness :
  (forall c cls, In (c, cls) (get (classes spec_example) []) ->
      class_contains 45 cls = false) /\
  get (functions spec_example) [] = [] /\
  find_nearest_entity spec_example 45 = "No nearby entity found".
Proof.
  assert (H : forall c cls, In (c, cls) (get (classes spec_example) []) ->
                class_contains 45 cls = false).
  { simpl. intros c cls [E | []]. injection E as <- <-. reflexivity. }
  split; [exact H |]. split; [reflexivity |].
  apply (proj2 (C6_class_match_requires_containment spec_example 45) H).
  reflexivity.
Defined.



End ErrorLocatorFacts.

(* ================================================================== *)
(** * Properties of the import resolver *)
(* ================================================================== *)

Section ResolverFacts.
Import FileSystem ImportResolver.
Context {C : Type}.
Variable fs : fsnode C.
Variable project_path : Path.

Local Notation "'find'" := (_find_module_file fs project_path).
Local Notation "'resolve'" := (_resolve_import fs project_path).

Lemma split_on_nonempty (sep : ascii) (s : string) : split_on sep s <> [].
Proof.
  destruct s as [| c rest]; simpl; [discriminate |].
  destruct (Ascii.eqb c sep); [discriminate |].
  destruct (split_on sep rest); discriminate.
Qed.

(** The descending loop returns the largest prefix that resolves. *)
Lemma try_prefixes_spec (parts : list string) (i : nat)
    (r : string * Path * list string) :
  i <= length parts ->
  (try_prefixes fs project_path parts i = Some r <->
   exists k file, 1 <= k <= i /\
     find (firstn k parts) = Some file /\
     (forall j, k < j <= i -> find (firstn j parts) = None) /\
     r = (last (firstn k parts) "", file, skipn k parts)).
Proof.
  induction i as [| i IH]; intros Hi.
  - simpl. split; [discriminate |]. intros (k & file & Hk & _). lia.
  - cbn [try_prefixes].
    destruct (find (firstn (S i) parts)) as [file |] eqn:Hf.
    + assert (Hsub : (if (S i <? length parts)%nat then skipn (S i) parts else [])
                     = skipn (S i) parts).
      { destruct (S i <? length parts)%nat eqn:E; [reflexivity |].
        apply Nat.ltb_ge in E. symmetry. apply skipn_all2. exact E. }
      rewrite Hsub. split.
      * intros [= <-]. exists (S i), file. repeat split; try lia; auto.
      * intros (k & file' & Hk & Hfk & Hnone & ->).
        destruct (Nat.eq_dec k (S i)) as [-> | Hne].
        -- rewrite Hf in Hfk. injection Hfk as <-. reflexivity.
        -- rewrite (Hnone (S i)) in Hf by lia. discriminate.
    + rewrite IH by lia. split.
      * intros (k & file & Hk & Hfk & Hnone & ->). exists k, file.
        repeat split; try lia; auto. intros j Hj.
        destruct (Nat.eq_dec j (S i)) as [-> | Hne]; [exact Hf | apply Hnone; lia].
      * intros (k & file & Hk & Hfk & Hnone & ->).
        assert (k <> S i) by (intros ->; rewrite Hf in Hfk; discriminate).
        exists k, file. repeat split; try lia; auto. intros j Hj. apply Hnone. lia.
Qed.

Lemma try_prefixes_none (parts : list string) (i : nat) :
  try_prefixes fs project_path parts i = None <->
  forall k, 1 <= k <= i -> find (firstn k parts) = None.
Proof.
  induction i as [| i IH]; cbn [try_prefixes].
  - split; [intros _ k Hk; lia | reflexivity].
  - destruct (find (firstn (S i) parts)) as [file |] eqn:Hf.
    + split; [discriminate |]. intros H. rewrite (H (S i)) in Hf by lia. discriminate.
    + rewrite IH. split; intros H k Hk.
      * destruct (Nat.eq_dec k (S i)) as [-> | Hne]; [exact Hf | apply H; lia].
      * apply H. lia.
Qed.

(** A path with a child is a directory. *)
Lemma fs_lookup_app (n : fsnode C) (p q : Path) :
  fs_lookup n (p ++ q)%list =
  match fs_lookup n p with
  | Some m => fs_lookup m q
  | None => None
  end.
Proof.
  revert n. induction p as [| c p IH]; intros n; simpl; [reflexivity |].
  destruct n as [content | entries]; [reflexivity |].
  destruct (assoc c entries); [apply IH | reflexivity].
Qed.

Lemma exists_child_is_dir (p : Path) (c : string) :
  exists_ fs (p ++ [c])%list = true ->
  exists_ fs p = true /\ is_dir fs p = true.
Proof.
  unfold exists_, is_dir. rewrite fs_lookup_app.
  destruct (fs_lookup fs p) as [[content | entries] |]; simpl; auto; discriminate.
Qed.

(** C1.  For the parts [p1..pn] of a dotted import, [_resolve_import] returns
    the file of the largest [i] whose prefix [p1..pi] resolves with
    [_find_module_file] (the source file, else the initializer of the
    package), together with [p(i+1)..pn] as sub-references; when no prefix
    resolves there is no result and [_classify_imports] keeps the dotted
    string itself as external.  So [a.b.C] resolves to [a/b.py] with
    sub-references [C] when that file exists and [a.b.C] does not itself
    name a file or package. *)
Theorem C1_longest_prefix_first (import_name : string) :
  let parts := split_on "."%char import_name in
  (forall r, resolve import_name = Some r <->
     exists i file, 1 <= i <= length parts /\
       find (firstn i parts) = Some file /\
       (forall j, i < j <= length parts -> find (firstn j parts) = None) /\
       r = (last (firstn i parts) "", file, skipn i parts)) /\
  (resolve import_name = None <->
     forall i, 1 <= i <= length parts -> find (firstn i parts) = None) /\
  (resolve import_name = None ->
     _classify_imports fs project_path [import_name] = ([], [import_name])) /\
  (exists_ fs (project_path ++ ["a"; "b.py"])%list = true ->
   find ["a"; "b"; "C"] = None ->
   resolve "a.b.C" = Some ("b", (project_path ++ ["a"; "b.py"])%list, ["C"])).
Proof.
  intros parts. repeat split.
  - apply try_prefixes_spec. apply Nat.le_refl.
  - apply try_prefixes_spec. apply Nat.le_refl.
  - apply try_prefixes_none.
  - apply try_prefixes_none.
  - intros H. cbn [_classify_imports]. rewrite H. reflexivity.
  - intros Hfile Hfull.
    assert (E : (project_path ++ ["a"; "b.py"] = (project_path ++ ["a"]) ++ ["b.py"])%list)
      by (rewrite <- app_assoc; reflexivity).
    destruct (exists_child_is_dir (project_path ++ ["a"])%list "b.py") as [Hex Hdir];
      [rewrite <- E; exact Hfile |].
    unfold _resolve_import.
    change (split_on "." "a.b.C") with ["a"; "b"; "C"].
    cbn [length try_prefixes firstn]. rewrite Hfull.
    cbn [_find_module_file removelast last walk_dirs].
    change (join_path project_path "a") with (project_path ++ ["a"])%list.
    rewrite Hex, Hdir. cbn [negb orb].
    unfold file_or_package.
    change (join_path (project_path ++ ["a"])%list ("b" ++ ".py"))
      with ((project_path ++ ["a"]) ++ ["b.py"])%list.
    rewrite <- E, Hfile. reflexivity.
Qed.

End ResolverFacts.

Lemma C1_longest_prefix_first_witness :
  FileSystem.exists_ layout_a_b ["proj"; "a"; "b.py"] = true /\
  ImportResolver._find_module_file layout_a_b ["proj"] ["a"; "b"; "C"] = None /\
  ImportResolver._resolve_import layout_a_b ["proj"] "a.b.C"
    = Some ("b", ["proj"; "a"; "b.py"], ["C"]).
Proof.
  split; [reflexivity |]. split; [reflexivity |].
  apply (C1_longest_prefix_first layout_a_b ["proj"] "a.b.C"); reflexivity.
Defined.

(* ================================================================== *)
(** * Properties of the entity extractor *)
(* ================================================================== *)

Section ExtractorFacts.
Import Ast Extractor.

(** The loops inside [visit] are the folds [visit_all] and [visit_args]. *)
Lemma visit_all_fix (l : list node) (v : visitor) :
  (fix go (l : list node) (v : visitor) {struct l} : visitor :=
     match l with
     | [] => v
     | x :: rest => go rest (visit x v)
     end) l v = visit_all l v.
Proof.
  revert v. induction l as [| x l IH]; intros v; [reflexivity |].
  unfold visit_all; cbn [fold_left]. apply IH.
Qed.

Lemma visit_args_fix (l : list (string * option node)) (v : visitor) :
  (fix go (l : list (string * option node)) (v : visitor) {struct l} : visitor :=
     match l with
     | [] => v
     | (_, Some a) :: rest => go rest (visit a v)
     | (_, None) :: rest => go rest v
     end) l v = visit_args l v.
Proof.
  revert v. induction l as [| [s [a |]] l IH]; intros v; [reflexivity | |];
    unfold visit_args; cbn [fold_left snd]; apply IH.
Qed.

Lemma visit_ClassDef name lineno end_lineno docstring bases keywords body
    decorator_list (v : visitor) :
  visit (ClassDef name lineno end_lineno docstring bases keywords body decorator_list) v =
  set_current_class None
    (visit_all decorator_list (visit_all body (visit_all keywords (visit_all bases
       (enter_class name lineno end_lineno docstring bases v))))).
Proof.
  cbn [visit]. rewrite !visit_all_fix. reflexivity.
Qed.

Lemma visit_FunctionDef name lineno end_lineno docstring posonlyargs args other_args
    body decorator_list returns (v : visitor) :
  visit (FunctionDef name lineno end_lineno docstring posonlyargs args other_args
                     body decorator_list returns) v =
  set_current_function None
    (visit_option returns
       (visit_all decorator_list (visit_all body (visit_all other_args
          (visit_args args (visit_all posonlyargs
             (enter_function name lineno end_lineno docstring args decorator_list
                             returns v))))))).
Proof.
  cbn [visit]. rewrite !visit_all_fix, !visit_args_fix. reflexivity.
Qed.

Lemma visit_Call func args (v : visitor) :
  visit (Call func args) v = visit_all args (visit func (record_call func v)).
Proof.
  cbn [visit]. rewrite !visit_all_fix. reflexivity.
Qed.

Lemma visit_Other children (v : visitor) :
  visit (Other children) v = visit_all children v.
Proof.
  cbn [visit]. rewrite !visit_all_fix. reflexivity.
Qed.

Lemma visit_all_cons (x : node) (l : list node) (v : visitor) :
  visit_all (x :: l) v = visit_all l (visit x v).
Proof. reflexivity. Qed.

Lemma keeps_compose (r : nat) (f g : visitor -> visitor) :
  keeps r f -> keeps r g -> keeps r (fun v => g (f v)).
Proof.
  intros Hf Hg v Hv. destruct (Hf v Hv) as [H1 E1].
  destruct (Hg (f v) H1) as [H2 E2]. split; [exact H2 | congruence].
Qed.

Lemma keeps_visit_all (r : nat) (l : list node) :
  Forall (fun n => keeps r (visit n)) l -> keeps r (visit_all l).
Proof.
  induction 1 as [| x l Hx Hl IH]; intros v Hv.
  - split; [exact Hv | reflexivity].
  - rewrite visit_all_cons. apply (keeps_compose r (visit x) (visit_all l)); assumption.
Qed.

Lemma keeps_visit_option (r : nat) (o : option node) :
  on_option (fun n => keeps r (visit n)) o -> keeps r (visit_option o).
Proof.
  destruct o as [n |]; simpl; intros H; [exact H |].
  intros v Hv. split; [exact Hv | reflexivity].
Qed.

Lemma keeps_visit_args (r : nat) (l : list (string * option node)) :
  Forall (on_arg (fun n => keeps r (visit n))) l -> keeps r (visit_args l).
Proof.
  induction 1 as [| a l Ha Hl IH]; intros v Hv.
  - split; [exact Hv | reflexivity].
  - unfold visit_args; cbn [fold_left].
    apply (keeps_compose r (visit_option (snd a)) (visit_args l)); [| exact IH | exact Hv].
    apply keeps_visit_option. exact Ha.
Qed.

Lemma update_object_length (r : nat) f (objs : list function_info) :
  length (update_object r f objs) = length objs.
Proof.
  revert r. induction objs as [| o objs IH]; intros [| r]; simpl; auto.
Qed.

Lemma update_object_other (r r' : nat) f (objs : list function_info) :
  r <> r' -> nth_error (update_object r' f objs) r = nth_error objs r.
Proof.
  revert r r'. induction objs as [| o objs IH]; intros [| r] [| r'] H; simpl; auto.
  congruence.
Qed.

Lemma keeps_update (r : nat) (g : function_info -> function_info) :
  keeps r (fun v => match current_function v with
                    | Some r' => with_objects (update_object r' g (objects v)) v
                    | None => v
                    end).
Proof.
  intros v [Hlen Hcur]. destruct (current_function v) as [r' |] eqn:E.
  - unfold idle; simpl. rewrite update_object_length, E.
    split; [split; assumption |]. apply update_object_other. congruence.
  - unfold idle. rewrite E. auto.
Qed.

Lemma keeps_enter_function (r : nat) name lineno end_lineno docstring args decos returns :
  keeps r (enter_function name lineno end_lineno docstring args decos returns).
Proof.
  intros v [Hlen Hcur]. unfold enter_function, idle.
  destruct (truthy (current_class v)); simpl; rewrite length_app; simpl;
    (split; [split; [lia | intros [= E]; lia] | apply nth_error_app1; exact Hlen]).
Qed.

(** Once a dictionary is no longer the current function, no visit writes to
    it or makes it current again. *)
Lemma visit_keeps (r : nat) (n : node) : keeps r (visit n).
Proof.
  induction n as
    [ names | module names
    | name lineno end_lineno docstring bs kws body decos Hbs Hkws Hbody Hdecos
    | name lineno end_lineno docstring pos args oargs body decos returns
        Hpos Hargs Hoargs Hbody Hdecos Hret
    | func args IHfunc Hargs | id ctx | value attr IHvalue
    | value slice IHvalue IHslice | children Hchildren ] using node_induction.
  - intros v Hv. split; [exact Hv | reflexivity].
  - intros v Hv. split; [exact Hv | reflexivity].
  - intros v Hv. rewrite visit_ClassDef.
    assert (H0 : idle r (enter_class name lineno end_lineno docstring bs v)) by exact Hv.
    destruct (keeps_visit_all r bs Hbs _ H0) as [I1 E1].
    destruct (keeps_visit_all r kws Hkws _ I1) as [I2 E2].
    destruct (keeps_visit_all r body Hbody _ I2) as [I3 E3].
    destruct (keeps_visit_all r decos Hdecos _ I3) as [I4 E4].
    split; [exact I4 |]. simpl. simpl in E1. congruence.
  - intros v Hv. rewrite visit_FunctionDef.
    destruct (keeps_enter_function r name lineno end_lineno docstring args
                decos returns v Hv) as [I0 E0].
    destruct (keeps_visit_all r pos Hpos _ I0) as [I1 E1].
    destruct (keeps_visit_args r args Hargs _ I1) as [I2 E2].
    destruct (keeps_visit_all r oargs Hoargs _ I2) as [I3 E3].
    destruct (keeps_visit_all r body Hbody _ I3) as [I4 E4].
    destruct (keeps_visit_all r decos Hdecos _ I4) as [I5 E5].
    destruct (keeps_visit_option r returns Hret _ I5) as [I6 E6].
    split; [| simpl; congruence].
    split; [exact (proj1 I6) | simpl; discriminate].
  - intros v Hv. rewrite visit_Call.
    destruct (keeps_update r (append_call (_get_full_name func)) v Hv) as [I0 E0].
    fold (record_call func v) in I0, E0.
    destruct (IHfunc _ I0) as [I1 E1].
    destruct (keeps_visit_all r args Hargs _ I1) as [I2 E2].
    split; [exact I2 | congruence].
  - intros v Hv. cbn [visit]. unfold record_name. destruct ctx.
    + apply (keeps_update r (add_used id) v Hv).
    + apply (keeps_update r (add_assigned id) v Hv).
    + destruct (current_function v); split; auto.
  - exact IHvalue.
  - intros v Hv. cbn [visit]. apply (keeps_compose r (visit value) (visit slice)); assumption.
  - intros v Hv. rewrite visit_Other. apply keeps_visit_all; assumption.
Qed.

Lemma assoc_dict_set_same {A : Type} (k : string) (x : A) (d : list (string * A)) :
  assoc k (dict_set k x d) = Some x.
Proof.
  induction d as [| [k' x'] d IH]; simpl.
  - rewrite String.eqb_refl. reflexivity.
  - destruct (String.eqb k k') eqn:E; simpl; rewrite ?String.eqb_refl, ?E; auto.
Qed.

Lemma has_key_dict_set {A : Type} (k k' : string) (x : A) (d : list (string * A)) :
  has_key k' (dict_set k x d) = (String.eqb k' k || has_key k' d)%bool.
Proof.
  unfold has_key. induction d as [| [k0 x0] d IH]; simpl.
  - destruct (String.eqb k' k); reflexivity.
  - destruct (String.eqb k k0) eqn:E; simpl.
    + apply String.eqb_eq in E. subst k0.
      destruct (String.eqb k' k); reflexivity.
    + destruct (String.eqb k' k0); [symmetry; apply orb_true_r | exact IH].
Qed.

Lemma assoc_set_method (c name : string) (r : nat) (cs : list (string * class_info nat)) :
  has_key c cs = true ->
  exists ci, assoc c (set_method c name r cs) = Some ci /\
             assoc name (methods ci) = Some r.
Proof.
  unfold has_key. induction cs as [| [k ci] cs IH]; simpl; [discriminate |].
  destruct (String.eqb c k) eqn:E; simpl; rewrite E.
  - intros _. eexists. split; [reflexivity |]. simpl. apply assoc_dict_set_same.
  - exact IH.
Qed.

Lemma has_key_set_method (k c name : string) (r : nat)
    (cs : list (string * class_info nat)) :
  has_key k (set_method c name r cs) = has_key k cs.
Proof.
  unfold has_key. induction cs as [| [k0 ci] cs IH]; simpl; [reflexivity |].
  destruct (String.eqb c k0); simpl; destruct (String.eqb k k0); auto.
Qed.

Lemma preserves_visit_all (Q : visitor -> Prop) (l : list node) :
  Forall (fun n => preserves Q (visit n)) l -> preserves Q (visit_all l).
Proof.
  induction 1 as [| x l Hx Hl IH]; intros v Hv; [exact Hv |].
  rewrite visit_all_cons. apply IH, Hx, Hv.
Qed.

Lemma preserves_visit_option (Q : visitor -> Prop) (o : option node) :
  on_option (fun n => preserves Q (visit n)) o -> preserves Q (visit_option o).
Proof.
  destruct o as [n |]; simpl; intros H v Hv; [apply H, Hv | exact Hv].
Qed.

Lemma preserves_visit_args (Q : visitor -> Prop) (l : list (string * option node)) :
  Forall (on_arg (fun n => preserves Q (visit n))) l -> preserves Q (visit_args l).
Proof.
  induction 1 as [| a l Ha Hl IH]; intros v Hv; [exact Hv |].
  unfold visit_args; cbn [fold_left]. apply IH.
  apply (preserves_visit_option Q (snd a) Ha), Hv.
Qed.

Lemma visit_current_class_known (n : node) : preserves current_class_known (visit n).
Proof.
  induction n as
    [ names | module names
    | name lineno end_lineno docstring bs kws body decos Hbs Hkws Hbody Hdecos
    | name lineno end_lineno docstring pos args oargs body decos returns
        Hpos Hargs Hoargs Hbody Hdecos Hret
    | func args IHfunc Hargs | id ctx | value attr IHvalue
    | value slice IHvalue IHslice | children Hchildren ] using node_induction;
    intros v Hv.
  - exact Hv.
  - exact Hv.
  - rewrite visit_ClassDef. intros c. simpl. discriminate.
  - rewrite visit_FunctionDef.
    assert (H0 : current_class_known
                   (enter_function name lineno end_lineno docstring args decos returns v)).
    { intros c. unfold enter_function.
      destruct (truthy (current_class v)); simpl; intros Hc;
        rewrite ?has_key_set_method; apply Hv, Hc. }
    pose proof (preserves_visit_all _ pos Hpos _ H0) as H1.
    pose proof (preserves_visit_args _ args Hargs _ H1) as H2.
    pose proof (preserves_visit_all _ oargs Hoargs _ H2) as H3.
    pose proof (preserves_visit_all _ body Hbody _ H3) as H4.
    pose proof (preserves_visit_all _ decos Hdecos _ H4) as H5.
    pose proof (preserves_visit_option _ returns Hret _ H5) as H6.
    exact H6.
  - rewrite visit_Call. apply (preserves_visit_all _ args Hargs), IHfunc.
    unfold record_call. destruct (current_function v); exact Hv.
  - cbn [visit]. unfold record_name.
    destruct (current_function v); [destruct ctx |]; exact Hv.
  - apply IHvalue, Hv.
  - cbn [visit]. apply IHslice, IHvalue, Hv.
  - rewrite visit_Other. apply (preserves_visit_all _ children Hchildren), Hv.
Qed.



End ExtractorFacts.


(* ================================================================== *)
(** * Properties of the per-file analysis *)
(* ================================================================== *)

Section AnalysisFacts.
Import FileSystem ImportResolver Json Analyzer.

Lemma analyze_unparsable (fs : fsnode source) (project_path file_path : Path)
    (message : string) :
  fs_lookup fs file_path = Some (File (Unparsable message)) ->
  _analyze_single_file fs project_path file_path =
  Some (mk_file_info (str_abs file_path) (Some message) None None None None).
Proof.
  unfold _analyze_single_file. intros ->. reflexivity.
Qed.

Lemma analyze_parsed_path (fs : fsnode source) (project_path file_path : Path)
    (tree : Ast.node) (info : file_info) :
  fs_lookup fs file_path = Some (File (Parsed tree)) ->
  _analyze_single_file fs project_path file_path = Some info ->
  exists rel, relative_to file_path project_path = Some rel /\
              path info = "./" ++ str_rel rel /\ error info = None.
Proof.
  unfold _analyze_single_file. intros ->.
  destruct (_classify_imports _ _ _) as [internal external].
  destruct (_build_inner_deps_structure _ _); [| discriminate].
  destruct (relative_to file_path project_path) as [rel |]; [| discriminate].
  intros [= <-]. exists rel. auto.
Qed.

(** C5 (code defect).  The record of a file that parses carries its path
    relative to the project, ["./a.py"]; the record made in the [except]
    branch carries [str(file_path)], the absolute path: for [bad.py] of
    [cyclic_project] it is ["/proj/bad.py"] where the project-relative path
    is ["./bad.py"]. *)
Theorem C5_error_record_has_absolute_path :
  option_map path (_analyze_single_file cyclic_project ["proj"] ["proj"; "a.py"])
    = Some "./a.py" /\
  option_map path (_analyze_single_file cyclic_project ["proj"] ["proj"; "bad.py"])
    = Some "/proj/bad.py" /\
  option_map (fun rel => "./" ++ str_rel rel) (relative_to ["proj"; "bad.py"] ["proj"])
    = Some "./bad.py".
Proof.
  repeat split; reflexivity.
Qed.

Section SameLayout.
Variables fs1 fs2 : fsnode source.
Variable project_path : Path.
Hypothesis Hlayout : same_layout fs1 fs2.

Lemma file_or_package_layout (base : Path) (name : string) :
  file_or_package fs1 base name = file_or_package fs2 base name.
Proof.
  unfold file_or_package.
  rewrite !(proj1 (Hlayout _)). reflexivity.
Qed.

Lemma walk_dirs_layout (dirs : list string) (base : Path) :
  walk_dirs fs1 base dirs = walk_dirs fs2 base dirs.
Proof.
  revert base. induction dirs as [| p dirs IH]; intros base; simpl; [reflexivity |].
  rewrite (proj1 (Hlayout _)), (proj2 (Hlayout _)), IH. reflexivity.
Qed.

Lemma find_module_file_layout (parts : list string) :
  _find_module_file fs1 project_path parts = _find_module_file fs2 project_path parts.
Proof.
  unfold _find_module_file.
  destruct parts as [| p [| q rest]]; [reflexivity | apply file_or_package_layout |].
  rewrite walk_dirs_layout.
  destruct (walk_dirs fs2 project_path _); [apply file_or_package_layout | reflexivity].
Qed.

Lemma try_prefixes_layout (parts : list string) (i : nat) :
  try_prefixes fs1 project_path parts i = try_prefixes fs2 project_path parts i.
Proof.
  induction i as [| i IH]; [reflexivity |].
  cbn [try_prefixes]. rewrite find_module_file_layout, IH. reflexivity.
Qed.

Lemma classify_imports_layout (imports : list string) :
  _classify_imports fs1 project_path imports = _classify_imports fs2 project_path imports.
Proof.
  induction imports as [| imp rest IH]; [reflexivity |].
  cbn [_classify_imports]. rewrite IH. unfold _resolve_import.
  rewrite try_prefixes_layout. reflexivity.
Qed.

(** C9.  The record of a file is a function of its source and of the layout
    of the project only: in two runs (two file systems) with the same layout
    in which the file has the same source, [_analyze_single_file] returns
    the same record, equal in every field and in the order of every list;
    the contents of the other files, the visited set and the clock play no
    part. *)
Theorem C9_analysis_deterministic (file_path : Path) (src : source) :
  fs_lookup fs1 file_path = Some (File src) ->
  fs_lookup fs2 file_path = Some (File src) ->
  _analyze_single_file fs1 project_path file_path =
  _analyze_single_file fs2 project_path file_path.
Proof.
  intros H1 H2. unfold _analyze_single_file. rewrite H1, H2.
  destruct src as [message | tree]; [reflexivity |].
  rewrite classify_imports_layout. reflexivity.
Qed.

End SameLayout.

Section TraversalFacts.
Variable fs : fsnode source.
Variable project_path : Path.
Variable max_depth : option Z.

Local Notation "'analyze_file'" := (_recursive_analyze_file fs project_path max_depth).
Local Notation "'recurse'" := (_recurse_inner_dependencies fs project_path).

Lemma bind_ext (o : outcome) (k1 k2 : state -> outcome) :
  (forall st, k1 st = k2 st) -> bind o k1 = bind o k2.
Proof.
  intros H. destruct o; simpl; auto.
Qed.

Lemma recurse_JDict (rec : Path -> Z -> state -> outcome) (entries : list (string * json))
    (depth : Z) (st : state) :
  recurse rec (JDict entries) depth st = for_each (recurse_item fs project_path rec depth) entries st.
Proof.
  cbn [_recurse_inner_dependencies].
  revert st. induction entries as [| [key val] rest IH]; intros st; [reflexivity |].
  cbn [for_each]. unfold recurse_item at 1. cbn [fst snd].
  apply bind_ext. exact IH.
Qed.

Lemma is_visited_true (q : Path) (st : state) :
  is_visited q st = true <-> In q (visited st).
Proof.
  unfold is_visited. destruct (in_dec Path_eq_dec q (visited st)); split; auto.
  discriminate.
Qed.

Lemma is_visited_false (q : Path) (st : state) :
  is_visited q st = false <-> ~ In q (visited st).
Proof.
  unfold is_visited. destruct (in_dec Path_eq_dec q (visited st)); split; auto.
  - discriminate.
  - contradiction.
Qed.

Lemma filter_length_mono {A : Type} (f g : A -> bool) (l : list A) :
  (forall x, f x = true -> g x = true) ->
  length (filter f l) <= length (filter g l).
Proof.
  intros H. induction l as [| x l IH]; simpl; [lia |].
  destruct (f x) eqn:Ef.
  - rewrite (H x Ef). simpl. lia.
  - destruct (g x); simpl; lia.
Qed.

Lemma filter_length_lt {A : Type} (f g : A -> bool) (l : list A) (p : A) :
  (forall x, f x = true -> g x = true) ->
  In p l -> f p = false -> g p = true ->
  length (filter f l) < length (filter g l).
Proof.
  intros H Hin Hf Hg. induction l as [| x l IH]; simpl; [contradiction |].
  destruct Hin as [-> | Hin].
  - rewrite Hf, Hg. simpl. pose proof (filter_length_mono f g l H). lia.
  - specialize (IH Hin). destruct (f x) eqn:Ef.
    + rewrite (H x Ef). simpl. lia.
    + destruct (g x); simpl; lia.
Qed.

Lemma budget_incl (st st' : state) :
  incl (visited st) (visited st') -> budget fs st' <= budget fs st.
Proof.
  intros H. apply filter_length_mono. intros q Hq.
  apply negb_true_iff in Hq. apply negb_true_iff.
  apply is_visited_false in Hq. apply is_visited_false.
  intros Hin. apply Hq, H, Hin.
Qed.

Lemma budget_add (st : state) (p : Path) (w : list (Path * file_info)) :
  In p (all_paths fs) -> ~ In p (visited st) ->
  budget fs (mk_state (p :: visited st) w) < budget fs st.
Proof.
  intros Hin Hnot. apply (filter_length_lt _ _ _ p); [| exact Hin | |].
  - intros q Hq. apply negb_true_iff in Hq. apply negb_true_iff.
    apply is_visited_false in Hq. apply is_visited_false.
    intros H. apply Hq. right. exact H.
  - apply negb_false_iff. apply is_visited_true. left. reflexivity.
  - apply negb_true_iff. apply is_visited_false. exact Hnot.
Qed.

Lemma assoc_In {A : Type} (k : string) (d : list (string * A)) (x : A) :
  assoc k d = Some x -> In (k, x) d.
Proof.
  induction d as [| [k' x'] d IH]; simpl; [discriminate |].
  destruct (String.eqb k k') eqn:E.
  - apply String.eqb_eq in E. intros [= ->]. left. congruence.
  - intros H. right. apply IH, H.
Qed.

Lemma all_paths_Dir (entries : list (string * fsnode source)) (name : string)
    (child : fsnode source) (rest : Path) :
  In (name, child) entries -> In rest (all_paths child) ->
  In (name :: rest) (all_paths (Dir entries)).
Proof.
  intros Hin Hrest. cbn [all_paths]. right.
  induction entries as [| [n c] entries IH]; [contradiction |].
  apply in_or_app. destruct Hin as [[= -> ->] | Hin].
  - left. apply in_map. exact Hrest.
  - right. apply IH, Hin.
Qed.

Lemma fs_lookup_all_paths (n m : fsnode source) (p : Path) :
  fs_lookup n p = Some m -> In p (all_paths n).
Proof.
  revert n. induction p as [| c p IH]; intros n.
  - intros _. destruct n; left; reflexivity.
  - destruct n as [content | entries]; simpl; [discriminate |].
    destruct (assoc c entries) as [child |] eqn:E; [| discriminate].
    intros H. apply (all_paths_Dir entries c child p); [apply assoc_In, E | apply IH, H].
Qed.

Lemma well_trans (st st1 : state) (o : outcome) :
  well st (Return st1) -> well st1 o -> well st o.
Proof.
  intros [Hi Hc]. destruct o as [st2 | |]; simpl; auto.
  intros [Hi' Hc']. split; [eapply incl_tran; eassumption | auto].
Qed.

Lemma safe_Return (F : nat) : safe fs F Return.
Proof.
  intros st _. split; [apply incl_refl | auto].
Qed.

Lemma safe_bind (F : nat) (f g : state -> outcome) :
  safe fs F f -> safe fs F g -> safe fs F (fun st => bind (f st) g).
Proof.
  intros Hf Hg st Hst. specialize (Hf st Hst).
  destruct (f st) as [st1 | |] eqn:E; simpl; auto.
  apply (well_trans st st1); [exact Hf |].
  apply Hg. pose proof (budget_incl st st1 (proj1 Hf)). lia.
Qed.

Lemma safe_for_each {A : Type} (F : nat) (body : A -> state -> outcome) (l : list A) :
  Forall (fun x => safe fs F (body x)) l -> safe fs F (for_each body l).
Proof.
  induction 1 as [| x l Hx Hl IH]; [apply safe_Return |].
  cbn [for_each]. apply (safe_bind F (body x) (for_each body l)); assumption.
Qed.

Section SafeRecursion.
Variable F : nat.
Variable rec : Path -> Z -> state -> outcome.
Hypothesis Hrec : forall p d, safe fs F (rec p d).

Lemma safe_analyze_module (mod_ : list (string * json)) (depth : Z) :
  safe fs F (analyze_module fs project_path rec mod_ depth).
Proof.
  intros st Hst. unfold analyze_module.
  destruct (assoc "path" mod_) as [mod_path |]; [| exact (safe_Return _ st Hst)].
  destruct (Json.truthy mod_path); [| exact (safe_Return _ st Hst)].
  destruct mod_path as [| text | items | entries]; try exact I.
  destruct (exists_ fs _); [exact (Hrec _ _ st Hst) | exact (safe_Return _ st Hst)].
Qed.

Lemma safe_analyze_modules (mods : list json) (depth : Z) :
  safe fs F (analyze_modules fs project_path rec mods depth).
Proof.
  induction mods as [| m mods IH]; [apply safe_Return |].
  destruct m as [| s | items | mod_]; try (intros st _; exact I).
  cbn [analyze_modules].
  apply (safe_bind F (analyze_module fs project_path rec mod_ depth)
           (analyze_modules fs project_path rec mods depth));
    [apply safe_analyze_module | exact IH].
Qed.

Lemma safe_analyze_dict_items (mods : list json) (depth : Z) :
  safe fs F (analyze_dict_items fs project_path rec mods depth).
Proof.
  induction mods as [| m mods IH]; [apply safe_Return |].
  destruct m as [| s | items | mod_]; try exact IH.
  cbn [analyze_dict_items].
  apply (safe_bind F (analyze_module fs project_path rec mod_ depth)
           (analyze_dict_items fs project_path rec mods depth));
    [apply safe_analyze_module | exact IH].
Qed.

Lemma safe_recurse (deps : json) (depth : Z) : safe fs F (recurse rec deps depth).
Proof.
  induction deps as [| s | items _ | entries IH] using json_induction;
    try (intros st _; exact I).
  intros st Hst. rewrite recurse_JDict. revert st Hst.
  apply safe_for_each. apply Forall_forall. intros [key val] Hin.
  rewrite Forall_forall in IH. specialize (IH (key, val) Hin). cbn [snd] in IH.
  unfold recurse_item. cbn [fst snd].
  destruct val as [| s | mods | val_entries].
  - apply safe_Return.
  - apply safe_Return.
  - destruct (String.eqb key "modules");
      [apply safe_analyze_modules | apply safe_analyze_dict_items].
  - destruct (assoc "modules" val_entries) as [[| s | mods | d] |];
      try exact IH. apply safe_analyze_modules.
Qed.

End SafeRecursion.

(** The recursion never needs more fuel than there are unvisited paths. *)
Lemma safe_analyze_file (fuel : nat) (file_path : Path) (depth : Z) :
  safe fs fuel (analyze_file fuel file_path depth).
Proof.
  revert file_path depth. induction fuel as [| fuel IH]; intros file_path depth st Hst;
    [lia |].
  cbn [_recursive_analyze_file].
  destruct (depth_exceeded max_depth depth); [exact (safe_Return _ st Hst) |].
  destruct (is_visited file_path st) eqn:Hvis; [exact (safe_Return _ st Hst) |].
  apply is_visited_false in Hvis.
  destruct (_analyze_single_file fs project_path file_path) as [info |] eqn:Hinfo;
    [| exact I].
  assert (Hin : In file_path (all_paths fs)).
  { unfold _analyze_single_file in Hinfo.
    destruct (fs_lookup fs file_path) as [n |] eqn:E; [| discriminate].
    apply (fs_lookup_all_paths fs n), E. }
  unfold _write_file_info_to_json.
  destruct (relative_to file_path project_path) as [rel |]; [| exact I].
  cbn [bind visited written].
  set (st2 := mk_state (file_path :: visited st) ((file_path, info) :: written st)).
  assert (Hst2 : budget fs st2 < fuel).
  { pose proof (budget_add st file_path ((file_path, info) :: written st) Hin Hvis).
    fold st2 in H. lia. }
  apply (well_trans st st2).
  - split; [intros q Hq; right; exact Hq |].
    intros [Hw Hn]. split; [simpl; f_equal; exact Hw | constructor; assumption].
  - apply (safe_recurse fuel (analyze_file fuel) IH). exact Hst2.
Qed.

Lemma agree_refl (f : state -> outcome) : agree f f.
Proof. intros st _. reflexivity. Qed.

Lemma agree_bind (f1 f2 g1 g2 : state -> outcome) :
  agree f1 f2 -> agree g1 g2 ->
  agree (fun st => bind (f1 st) g1) (fun st => bind (f2 st) g2).
Proof.
  intros Hf Hg st H. cbn beta in *.
  assert (H1 : f1 st <> OutOfFuel) by (intros E; rewrite E in H; apply H; reflexivity).
  rewrite (Hf st H1). destruct (f1 st) as [st1 | |]; simpl in *; auto.
Qed.

Lemma agree_for_each {A : Type} (b1 b2 : A -> state -> outcome) (l : list A) :
  Forall (fun x => agree (b1 x) (b2 x)) l -> agree (for_each b1 l) (for_each b2 l).
Proof.
  induction 1 as [| x l Hx Hl IH]; [apply agree_refl |].
  cbn [for_each]. apply (agree_bind (b1 x) (b2 x)); assumption.
Qed.

Section AgreeRecursion.
Variables rec1 rec2 : Path -> Z -> state -> outcome.
Hypothesis Hrec : forall p d, agree (rec1 p d) (rec2 p d).

Lemma agree_analyze_module (mod_ : list (string * json)) (depth : Z) :
  agree (analyze_module fs project_path rec1 mod_ depth)
        (analyze_module fs project_path rec2 mod_ depth).
Proof.
  intros st. unfold analyze_module.
  destruct (assoc "path" mod_) as [mod_path |]; [| reflexivity].
  destruct (Json.truthy mod_path); [| reflexivity].
  destruct mod_path as [| text | items | entries]; try reflexivity.
  destruct (exists_ fs _); [apply Hrec | reflexivity].
Qed.

Lemma agree_analyze_modules (mods : list json) (depth : Z) :
  agree (analyze_modules fs project_path rec1 mods depth)
        (analyze_modules fs project_path rec2 mods depth).
Proof.
  induction mods as [| m mods IH]; [apply agree_refl |].
  destruct m as [| s | items | mod_]; try apply agree_refl.
  cbn [analyze_modules].
  apply (agree_bind (analyze_module fs project_path rec1 mod_ depth)
                    (analyze_module fs project_path rec2 mod_ depth));
    [apply agree_analyze_module | exact IH].
Qed.

Lemma agree_analyze_dict_items (mods : list json) (depth : Z) :
  agree (analyze_dict_items fs project_path rec1 mods depth)
        (analyze_dict_items fs project_path rec2 mods depth).
Proof.
  induction mods as [| m mods IH]; [apply agree_refl |].
  destruct m as [| s | items | mod_]; try exact IH.
  cbn [analyze_dict_items].
  apply (agree_bind (analyze_module fs project_path rec1 mod_ depth)
                    (analyze_module fs project_path rec2 mod_ depth));
    [apply agree_analyze_module | exact IH].
Qed.

Lemma agree_recurse (deps : json) (depth : Z) :
  agree (recurse rec1 deps depth) (recurse rec2 deps depth).
Proof.
  induction deps as [| s | items _ | entries IH] using json_induction;
    try apply agree_refl.
  intros st. rewrite !recurse_JDict. revert st.
  apply agree_for_each. apply Forall_forall. intros [key val] Hin.
  rewrite Forall_forall in IH. specialize (IH (key, val) Hin). cbn [snd] in IH.
  unfold recurse_item. cbn [fst snd].
  destruct val as [| s | mods | val_entries].
  - apply agree_refl.
  - apply agree_refl.
  - destruct (String.eqb key "modules");
      [apply agree_analyze_modules | apply agree_analyze_dict_items].
  - destruct (assoc "modules" val_entries) as [[| s | mods | d] |];
      try exact IH. apply agree_analyze_modules.
Qed.

End AgreeRecursion.

Lemma agree_analyze_file_S (fuel : nat) (file_path : Path) (depth : Z) :
  agree (analyze_file fuel file_path depth) (analyze_file (S fuel) file_path depth).
Proof.
  revert file_path depth. induction fuel as [| fuel IH]; intros file_path depth st H.
  - exfalso. apply H. reflexivity.
  - revert H. cbn [_recursive_analyze_file].
    destruct (depth_exceeded max_depth depth); [reflexivity |].
    destruct (is_visited file_path st); [reflexivity |].
    destruct (_analyze_single_file fs project_path file_path) as [info |]; [| reflexivity].
    destruct (_write_file_info_to_json project_path file_path info _) as [st2 | |];
      try reflexivity.
    cbn [bind]. apply (agree_recurse _ _ IH).
Qed.

Lemma agree_analyze_file (fuel fuel' : nat) (file_path : Path) (depth : Z) :
  fuel <= fuel' ->
  agree (analyze_file fuel file_path depth) (analyze_file fuel' file_path depth).
Proof.
  induction 1 as [| fuel' Hle IH]; [apply agree_refl |].
  intros st H. rewrite <- (IH st H). apply agree_analyze_file_S.
  rewrite (IH st H). exact H.
Qed.

Lemma consistent_counts (st : state) :
  consistent st ->
  forall p, count_occ Path_eq_dec (map fst (written st)) p =
            if is_visited p st then 1 else 0.
Proof.
  intros [Hw Hn] p. rewrite Hw.
  destruct (is_visited p st) eqn:E.
  - apply is_visited_true in E. apply NoDup_count_occ'; assumption.
  - apply is_visited_false in E. apply count_occ_not_In. exact E.
Qed.

(** C7.  A file that does not parse gives a record with the [error] and the
    path and no other key; the traversal writes it and returns without any
    recursive call (one unit of fuel is enough), so the failure is not
    fatal and the loop that reached the file goes on. *)
Theorem C7_parse_failure_is_dead_end (fuel : nat) (file_path rel : Path) (depth : Z)
    (st : state) (message : string) :
  fs_lookup fs file_path = Some (File (Unparsable message)) ->
  depth_exceeded max_depth depth = false ->
  is_visited file_path st = false ->
  relative_to file_path project_path = Some rel ->
  exists info,
    _analyze_single_file fs project_path file_path = Some info /\
    error info = Some message /\
    inner_project_dependencies info = None /\
    external_dependencies info = None /\
    classes info = None /\ functions info = None /\
    analyze_file (S fuel) file_path depth st =
    Return (mk_state (file_path :: visited st) ((file_path, info) :: written st)).
Proof.
  intros Hsrc Hdepth Hvis Hrel.
  eexists. split; [apply analyze_unparsable; exact Hsrc |].
  repeat (split; [reflexivity |]).
  cbn [_recursive_analyze_file]. rewrite Hdepth, Hvis.
  rewrite (analyze_unparsable fs project_path file_path message Hsrc).
  unfold _write_file_info_to_json. rewrite Hrel. reflexivity.
Qed.

End TraversalFacts.

End AnalysisFacts.

Ltac layout_cases :=
  repeat first
    [ split; reflexivity
    | match goal with
      | |- context [String.eqb ?c ?k] => destruct (String.eqb c k)
      end
    | match goal with
      | q : Path |- _ => destruct q as [| ? q]; cbn
      | q : list string |- _ => destruct q as [| ? q]; cbn
      end ].

Lemma cyclic_project_same_layout :
  Analyzer.same_layout cyclic_project cyclic_project_edited.
Proof.
  intros q. unfold FileSystem.exists_, FileSystem.is_dir. layout_cases.
Qed.

Lemma C9_analysis_deterministic_witness :
  Analyzer._analyze_single_file cyclic_project ["proj"] ["proj"; "a.py"] =
  Analyzer._analyze_single_file cyclic_project_edited ["proj"] ["proj"; "a.py"].
Proof.
  apply (C9_analysis_deterministic cyclic_project cyclic_project_edited ["proj"]
           cyclic_project_same_layout ["proj"; "a.py"]
           (Analyzer.Parsed
              (Ast.Other [Ast.Import ["b"]; Ast.ImportFrom (Some "pkg.c") ["K"];
                          Ast.Import ["os"]])));
    reflexivity.
Defined.

(** The traversal of [cyclic_project] from [a.py]: four files, one record
    each, in spite of the cycle. *)
Example cyclic_project_traversal :
  exists st,
    Analyzer.analyze_from_entry cyclic_project ["proj"] None 8 ["proj"; "a.py"]
      = Analyzer.Return st /\
    Analyzer.visited st =
      [["proj"; "pkg"; "c.py"]; ["proj"; "bad.py"]; ["proj"; "b.py"]; ["proj"; "a.py"]] /\
    map (fun r => Analyzer.path (snd r)) (Analyzer.written st) =
      ["./pkg/c.py"; "/proj/bad.py"; "./b.py"; "./a.py"].
Proof.
  eexists. split; [vm_compute; reflexivity |]. split; reflexivity.
Qed.

Lemma C7_parse_failure_is_dead_end_witness :
  exists info,
    Analyzer._analyze_single_file cyclic_project ["proj"] ["proj"; "bad.py"] = Some info /\
    Analyzer.error info = Some "invalid syntax" /\
    Analyzer.inner_project_dependencies info = None /\
    Analyzer.external_dependencies info = None /\
    Analyzer.classes info = None /\ Analyzer.functions info = None /\
    Analyzer._recursive_analyze_file cyclic_project ["proj"] None 1 ["proj"; "bad.py"]
      0%Z Analyzer.init_state =
    Analyzer.Return (Analyzer.mk_state [["proj"; "bad.py"]]
                       [(["proj"; "bad.py"], info)]).
Proof.
  apply (C7_parse_failure_is_dead_end cyclic_project ["proj"] None 0
           ["proj"; "bad.py"] ["bad.py"] 0%Z Analyzer.init_state "invalid syntax");
    reflexivity.
Defined.

(* ================================================================== *)
(** * Properties of the structure aggregator *)
(* ================================================================== *)

Section AggregatorFacts.
Import Json Aggregator.

Variable list_of_set : list string -> list string.
Hypothesis list_of_set_NoDup : forall l, NoDup (list_of_set l).
Hypothesis list_of_set_In : forall l x, In x (list_of_set l) <-> In x l.

Local Notation "'extract'" := (extract_internal_module_paths list_of_set).

Lemma extract_JDict (entries : list (string * json)) :
  extract (JDict entries) =
  option_map list_of_set
    (app_opt match assoc "modules" entries with
             | Some (JList mods) => module_paths mods
             | _ => Some []
             end
             (nested_paths list_of_set entries)).
Proof. reflexivity. Qed.

Lemma app_opt_Some {A : Type} (a b : option (list A)) (l : list A) :
  app_opt a b = Some l -> exists x y, a = Some x /\ b = Some y /\ l = (x ++ y)%list.
Proof.
  destruct a as [x |], b as [y |]; simpl; try discriminate.
  intros [= <-]. exists x, y. auto.
Qed.

Lemma extract_NoDup (t : json) (l : list string) : extract t = Some l -> NoDup l.
Proof.
  destruct t as [| s | items | entries]; cbn [extract_internal_module_paths].
  - intros [= <-]. apply list_of_set_NoDup.
  - intros [= <-]. apply list_of_set_NoDup.
  - destruct (_ items) as [x |]; simpl; [| discriminate].
    intros [= <-]. apply list_of_set_NoDup.
  - destruct (app_opt _ _) as [x |]; simpl; [| discriminate].
    intros [= <-]. apply list_of_set_NoDup.
Qed.

Lemma module_paths_In (mods : list json) (x : list string) (d : list (string * json))
    (p : string) :
  module_paths mods = Some x -> In (JDict d) mods ->
  assoc "path" d = Some (JStr p) -> p <> "" -> In p x.
Proof.
  revert x. induction mods as [| m mods IH]; intros x Hx Hin Hp Hne; [contradiction |].
  destruct m as [| s | items | d']; try discriminate.
  cbn [module_paths] in Hx. apply app_opt_Some in Hx.
  destruct Hx as (a & b & Ha & Hb & ->). apply in_or_app.
  destruct Hin as [[= ->] | Hin].
  - left. unfold path_of in Ha. rewrite Hp in Ha.
    destruct (String.eqb p "") eqn:E; [apply String.eqb_eq in E; contradiction |].
    injection Ha as <-. left. reflexivity.
  - right. apply (IH b); assumption.
Qed.

Lemma nested_paths_In (es : list (string * json)) (y : list string) (k : string)
    (entries : list (string * json)) :
  nested_paths list_of_set es = Some y -> In (k, JDict entries) es ->
  exists l, extract (JDict entries) = Some l /\ incl l y.
Proof.
  revert y. induction es as [| [k' v] es IH]; intros y Hy Hin; [contradiction |].
  cbn [nested_paths] in Hy. destruct Hin as [[= -> ->] | Hin].
  - apply app_opt_Some in Hy. destruct Hy as (a & b & Ha & Hb & ->).
    exists a. split; [exact Ha | apply incl_appl, incl_refl].
  - destruct v as [| s | items | d].
    + apply IH; assumption.
    + apply IH; assumption.
    + apply app_opt_Some in Hy. destruct Hy as (a & b & Ha & Hb & ->).
      destruct (IH b Hb Hin) as (l & Hl & Hincl).
      exists l. split; [exact Hl | apply incl_appr, Hincl].
    + apply app_opt_Some in Hy. destruct Hy as (a & b & Ha & Hb & ->).
      destruct (IH b Hb Hin) as (l & Hl & Hincl).
      exists l. split; [exact Hl | apply incl_appr, Hincl].
Qed.

(** Every path of a nested [modules] list is collected. *)
Lemma extract_complete (t : json) (p : string) :
  module_path_in t p -> forall l, extract t = Some l -> In p l.
Proof.
  induction 1 as [entries mods d p Hmods Hin Hp Hne | entries k v p Hin Hv IH];
    intros l Hl; rewrite extract_JDict in Hl.
  - destruct (app_opt _ _) as [xy |] eqn:E; [| discriminate].
    injection Hl as <-. apply list_of_set_In.
    apply app_opt_Some in E. destruct E as (x & y & Hx & Hy & ->).
    apply in_or_app. left. rewrite Hmods in Hx.
    apply (module_paths_In mods x d p); assumption.
  - destruct (app_opt _ _) as [xy |] eqn:E; [| discriminate].
    injection Hl as <-. apply list_of_set_In.
    apply app_opt_Some in E. destruct E as (x & y & Hx & Hy & ->).
    apply in_or_app. right.
    destruct Hv as [entries' mods d p Hm Hi Hp Hne | entries' k' v' p Hi Hv'].
    + destruct (nested_paths_In entries y k entries' Hy Hin) as (l' & Hl' & Hincl).
      apply Hincl, (IH l' Hl').
    + destruct (nested_paths_In entries y k entries' Hy Hin) as (l' & Hl' & Hincl).
      apply Hincl, (IH l' Hl').
Qed.

Lemma assoc_dict_set_other {A : Type} (k k' : string) (x : A) (d : list (string * A)) :
  k' <> k -> assoc k' (dict_set k x d) = assoc k' d.
Proof.
  intros Hne. induction d as [| [k0 x0] d IH]; simpl.
  - destruct (String.eqb k' k) eqn:E; [apply String.eqb_eq in E; contradiction | reflexivity].
  - destruct (String.eqb k k0) eqn:E; simpl.
    + apply String.eqb_eq in E. subst k0.
      destruct (String.eqb k' k) eqn:E'; [apply String.eqb_eq in E'; contradiction |].
      reflexivity.
    + destruct (String.eqb k' k0); [reflexivity | exact IH].
Qed.

Lemma dict_set_keys {A : Type} (k : string) (x : A) (d : list (string * A)) :
  NoDup (map fst d) -> NoDup (map fst (dict_set k x d)) /\
  forall k', In k' (map fst (dict_set k x d)) -> k' = k \/ In k' (map fst d).
Proof.
  induction d as [| [k0 x0] d IH]; simpl; intros Hn.
  - split; [constructor; [intros [] | constructor] | intros k' [<- | []]; auto].
  - inversion Hn as [| ? ? Hnot Hn']; subst.
    destruct (String.eqb k k0) eqn:E; simpl.
    + apply String.eqb_eq in E. subst k0. split; [exact Hn |].
      intros k' [<- | H]; auto.
    + destruct (IH Hn') as [IH1 IH2]. split.
      * constructor; [| exact IH1]. intros H. destruct (IH2 k0 H) as [-> | H'].
        -- rewrite String.eqb_refl in E. discriminate.
        -- contradiction.
      * intros k' [<- | H]; auto. destruct (IH2 k' H); auto.
Qed.

Lemma targets_of_append (file_path : string) (deps : list string)
    (adj : list (string * list string)) (src : string) :
  targets_of src
    (fold_left (fun adj dep_path => adjacency_append file_path dep_path adj) deps adj) =
  if String.eqb src file_path then (targets_of src adj ++ deps)%list
  else targets_of src adj.
Proof.
  revert adj. induction deps as [| dep deps IH]; intros adj; cbn [fold_left].
  - destruct (String.eqb src file_path); [rewrite app_nil_r |]; reflexivity.
  - rewrite IH. unfold targets_of, adjacency_append.
    destruct (String.eqb src file_path) eqn:E.
    + apply String.eqb_eq in E. subst src. rewrite assoc_dict_set_same. simpl.
      rewrite <- app_assoc. reflexivity.
    + rewrite assoc_dict_set_other; [reflexivity |].
      intros ->. rewrite String.eqb_refl in E. discriminate.
Qed.

Lemma append_keys (file_path : string) (deps : list string)
    (adj : list (string * list string)) :
  NoDup (map fst adj) ->
  NoDup (map fst (fold_left (fun adj dep_path => adjacency_append file_path dep_path adj)
                            deps adj)).
Proof.
  revert adj. induction deps as [| dep deps IH]; intros adj Hn; cbn [fold_left];
    [exact Hn |].
  apply IH. unfold adjacency_append. apply dict_set_keys. exact Hn.
Qed.

Lemma count_map_pair (k src dst : string) (ts : list string) :
  count_occ edge_eq_dec (map (fun d => (k, d)) ts) (src, dst) =
  if String.eqb k src then count_occ string_dec ts dst else 0.
Proof.
  induction ts as [| t ts IH]; cbn [map].
  - simpl. destruct (String.eqb k src); reflexivity.
  - destruct (edge_eq_dec (k, t) (src, dst)) as [E | N].
    + rewrite (count_occ_cons_eq _ _ E), IH. injection E as -> ->.
      rewrite String.eqb_refl, (count_occ_cons_eq string_dec ts (eq_refl dst)).
      reflexivity.
    + rewrite (count_occ_cons_neq _ _ N), IH.
      destruct (String.eqb k src) eqn:E; [| reflexivity].
      apply String.eqb_eq in E. subst k.
      rewrite count_occ_cons_neq; [reflexivity |].
      intros ->. apply N. reflexivity.
Qed.

Lemma assoc_not_key {A : Type} (k : string) (d : list (string * A)) :
  ~ In k (map fst d) -> assoc k d = None.
Proof.
  induction d as [| [k' x] d IH]; simpl; [reflexivity |].
  intros H. destruct (String.eqb k k') eqn:E.
  - apply String.eqb_eq in E. subst k'. exfalso. apply H. left. reflexivity.
  - apply IH. intros Hin. apply H. right. exact Hin.
Qed.

(** With distinct keys, the edges from [src] are its stored targets. *)
Lemma count_edges (adj : list (string * list string)) (src dst : string) :
  NoDup (map fst adj) ->
  count_occ edge_eq_dec (edges_of adj) (src, dst) =
  count_occ string_dec (targets_of src adj) dst.
Proof.
  unfold targets_of. induction adj as [| [k ts] adj IH]; intros Hn; [reflexivity |].
  inversion Hn as [| ? ? Hnot Hn']; subst.
  cbn [edges_of flat_map fst snd]. rewrite count_occ_app, count_map_pair.
  fold (edges_of adj). rewrite (IH Hn'). cbn [assoc].
  destruct (String.eqb k src) eqn:E.
  - apply String.eqb_eq in E. subst k. rewrite String.eqb_refl.
    rewrite (assoc_not_key src adj Hnot). simpl. lia.
  - rewrite String.eqb_sym, E. reflexivity.
Qed.

Lemma add_record_keys (t t' : tables) (data : Analyzer.file_info) :
  add_record list_of_set t data = Some t' ->
  NoDup (map fst (adjacency_list t)) -> NoDup (map fst (adjacency_list t')).
Proof.
  unfold add_record. destruct (String.eqb (Analyzer.path data) "");
    [intros [= <-]; auto |].
  destruct (extract _) as [l |]; [| discriminate].
  intros [= <-] Hn. simpl. apply append_keys, Hn.
Qed.

Lemma add_records_keys (records : list Analyzer.file_info) (t t' : tables) :
  add_records list_of_set t records = Some t' ->
  NoDup (map fst (adjacency_list t)) -> NoDup (map fst (adjacency_list t')).
Proof.
  revert t. induction records as [| data rest IH]; intros t; cbn [add_records].
  - intros [= <-]. auto.
  - destruct (add_record list_of_set t data) as [t1 |] eqn:E; [| discriminate].
    intros H Hn. apply (IH t1 H). apply (add_record_keys t t1 data E Hn).
Qed.

Lemma add_record_targets (t t' : tables) (data : Analyzer.file_info) (src : string) :
  add_record list_of_set t data = Some t' -> src <> "" ->
  targets_of src (adjacency_list t') =
  (targets_of src (adjacency_list t) ++ contribution list_of_set src data)%list.
Proof.
  unfold add_record, contribution. intros H Hsrc.
  destruct (String.eqb (Analyzer.path data) "") eqn:E.
  - apply String.eqb_eq in E. injection H as <-.
    destruct (String.eqb (Analyzer.path data) src) eqn:E'.
    + apply String.eqb_eq in E'. congruence.
    + rewrite app_nil_r. reflexivity.
  - fold (dependencies_of data) in H.
    destruct (extract (dependencies_of data)) as [l |]; [| discriminate].
    injection H as <-. cbn [adjacency_list get]. rewrite targets_of_append.
    rewrite (String.eqb_sym src). destruct (String.eqb (Analyzer.path data) src).
    + reflexivity.
    + rewrite app_nil_r. reflexivity.
Qed.

Lemma add_records_targets (records : list Analyzer.file_info) (t t' : tables)
    (src : string) :
  add_records list_of_set t records = Some t' -> src <> "" ->
  targets_of src (adjacency_list t') =
  (targets_of src (adjacency_list t)
   ++ flat_map (contribution list_of_set src) records)%list.
Proof.
  revert t. induction records as [| data rest IH]; intros t; cbn [add_records flat_map].
  - intros [= <-] _. rewrite app_nil_r. reflexivity.
  - destruct (add_record list_of_set t data) as [t1 |] eqn:E; [| discriminate].
    intros H Hsrc. rewrite (IH t1 H Hsrc), (add_record_targets t t1 data src E Hsrc).
    rewrite app_assoc. reflexivity.
Qed.

Lemma contribution_NoDup (src : string) (data : Analyzer.file_info) :
  NoDup (contribution list_of_set src data).
Proof.
  unfold contribution. destruct (String.eqb _ src); [| constructor].
  destruct (extract (dependencies_of data)) as [l |] eqn:E; [| constructor].
  apply (extract_NoDup _ _ E).
Qed.

(** Each record that emits [dst] counts once. *)
Lemma count_contributions (records : list Analyzer.file_info) (src dst : string) :
  count_occ string_dec (flat_map (contribution list_of_set src) records) dst =
  length (filter (emits list_of_set src dst) records).
Proof.
  induction records as [| data rest IH]; [reflexivity |].
  cbn [flat_map filter]. rewrite count_occ_app, IH. unfold emits at 2.
  destruct (in_dec string_dec dst (contribution list_of_set src data)) as [Hin | Hnot].
  - rewrite (proj1 (NoDup_count_occ' string_dec _) (contribution_NoDup src data) dst Hin).
    reflexivity.
  - rewrite (proj1 (count_occ_not_In string_dec _ dst) Hnot). reflexivity.
Qed.

Lemma add_records_extract (records : list Analyzer.file_info) (t t' : tables)
    (data : Analyzer.file_info) :
  add_records list_of_set t records = Some t' -> In data records ->
  Analyzer.path data <> "" ->
  exists targets, extract (dependencies_of data) = Some targets.
Proof.
  revert t. induction records as [| d rest IH]; intros t H Hin Hpath; [contradiction |].
  cbn [add_records] in H.
  destruct (add_record list_of_set t d) as [t1 |] eqn:E; [| discriminate].
  destruct Hin as [-> | Hin]; [| exact (IH t1 H Hin Hpath)].
  unfold add_record in E.
  destruct (String.eqb (Analyzer.path data) "") eqn:E';
    [apply String.eqb_eq in E'; contradiction |].
  fold (dependencies_of data) in E.
  destruct (extract (dependencies_of data)) as [l |]; [| discriminate].
  exists l. reflexivity.
Qed.

(** C8.  Whatever order [list(set(...))] picks: for each record the
    aggregator collects every path of the [modules] lists nested anywhere in
    the record's dependency tree, without repetition; and the edges from a
    path [src] to a target [dst] are as many as the records of path [src]
    that collected [dst], one edge per record and target.  So a target named
    twice in a record gives one edge, and a target shared by two records
    gives one edge from each. *)
Theorem C8_one_edge_per_target_per_record
    (records : list Analyzer.file_info)
    (modules : list (string * module_summary)) (g : graph) :
  build_project_structure list_of_set records = Some (modules, g) ->
  (forall data, In data records -> Analyzer.path data <> "" ->
     exists targets,
       extract (dependencies_of data) = Some targets /\
       NoDup targets /\
       forall p, module_path_in (dependencies_of data) p -> In p targets) /\
  (forall src dst, src <> "" ->
     count_occ edge_eq_dec (edges g) (src, dst) =
     length (filter (emits list_of_set src dst) records)).
Proof.
  unfold build_project_structure. intros Hbuild.
  destruct (add_records list_of_set (mk_tables [] []) records) as [t |] eqn:Hrecs;
    [| discriminate].
  injection Hbuild as _ <-. cbn [edges]. split.
  - intros data Hin Hpath.
    destruct (add_records_extract records _ t data Hrecs Hin Hpath) as (targets & Hex).
    exists targets. split; [exact Hex |]. split; [apply (extract_NoDup _ _ Hex) |].
    intros p Hp. apply (extract_complete _ _ Hp _ Hex).
  - intros src dst Hsrc.
    assert (Hkeys : NoDup (map fst (adjacency_list t)))
      by (apply (add_records_keys _ _ t Hrecs); constructor).
    rewrite (count_edges _ _ _ Hkeys), (add_records_targets records _ t src Hrecs Hsrc).
    cbn [adjacency_list]. unfold targets_of at 1. cbn [assoc get app].
    apply count_contributions.
Qed.

End AggregatorFacts.

(** One edge from each record to the shared target: the repetition inside
    [record_a] is removed, the one across the records is kept. *)
Example shared_target_graph :
  option_map (fun r => Aggregator.edges (snd r))
    (Aggregator.build_project_structure (nodup string_dec) [record_a; record_b])
  = Some [("./a.py", "./c.py"); ("./b.py", "./c.py")].
Proof. reflexivity. Qed.

Lemma C8_one_edge_per_target_per_record_witness :
  exists modules g,
    Aggregator.build_project_structure (nodup string_dec) [record_a; record_b]
      = Some (modules, g) /\
    count_occ Aggregator.edge_eq_dec (Aggregator.edges g) ("./a.py", "./c.py") = 1 /\
    count_occ Aggregator.edge_eq_dec (Aggregator.edges g) ("./b.py", "./c.py") = 1.
Proof.
  destruct (Aggregator.build_project_structure (nodup string_dec) [record_a; record_b])
    as [[modules g] |] eqn:E; [| discriminate E].
  destruct (C8_one_edge_per_target_per_record (nodup string_dec)
              (NoDup_nodup string_dec) (fun l x => nodup_In string_dec l x)
              [record_a; record_b] modules g E) as [_ Hcount].
  exists modules, g. split; [reflexivity |]. split.
  - rewrite (Hcount "./a.py" "./c.py"); [reflexivity | discriminate].
  - rewrite (Hcount "./b.py" "./c.py"); [reflexivity | discriminate].
Defined.

(* ================================================================== *)
(** * Further properties of the import resolver *)
(* ================================================================== *)

Section ResolverMore.
Import FileSystem ImportResolver.
Context {C : Type}.
Variable fs : fsnode C.
Variable project_path : Path.

Lemma relative_to_app (p q : Path) : relative_to (p ++ q)%list p = Some q.
Proof.
  induction p as [| c p IH]; simpl; [destruct q; reflexivity |].
  rewrite String.eqb_refl. exact IH.
Qed.

Lemma append_py_nonempty (name : string) : String.eqb (name ++ ".py") "" = false.
Proof. destruct name; reflexivity. Qed.

Lemma join_path_extends (base : Path) (name : string) :
  exists more, join_path base name = (base ++ more)%list.
Proof.
  unfold join_path. destruct (String.eqb name "").
  - exists []. rewrite app_nil_r. reflexivity.
  - exists [name]. reflexivity.
Qed.

(** What [file_or_package] finds exists, lies below [base] and is called
    [name.py] or [__init__.py]. *)
Lemma file_or_package_sound (base : Path) (name : string) (f : Path) :
  file_or_package fs base name = Some f ->
  exists_ fs f = true /\
  exists dirs file, f = (base ++ dirs ++ [file])%list /\
    (file = name ++ ".py" \/ file = "__init__.py").
Proof.
  unfold file_or_package.
  destruct (exists_ fs (join_path base (name ++ ".py"))) eqn:E1.
  - intros [= <-]. split; [exact E1 |].
    exists [], (name ++ ".py"). split; [| left; reflexivity].
    unfold join_path. rewrite append_py_nonempty. reflexivity.
  - destruct (exists_ fs (join_path base name)
              && exists_ fs (join_path (join_path base name) "__init__.py"))%bool eqn:E2;
      [| discriminate].
    intros [= <-]. apply andb_true_iff in E2. split; [exact (proj2 E2) |].
    destruct (join_path_extends base name) as [more Hmore].
    exists more, "__init__.py". split; [| right; reflexivity].
    rewrite Hmore. unfold join_path. simpl. rewrite <- app_assoc. reflexivity.
Qed.

Lemma walk_dirs_extends (dirs : list string) (base base' : Path) :
  walk_dirs fs base dirs = Some base' -> exists more, base' = (base ++ more)%list.
Proof.
  revert base. induction dirs as [| p dirs IH]; intros base; simpl.
  - intros [= <-]. exists []. rewrite app_nil_r. reflexivity.
  - destruct (negb (exists_ fs (join_path base p)) || negb (is_dir fs (join_path base p)))%bool;
      [discriminate |].
    intros H. destruct (IH _ H) as [more ->].
    destruct (join_path_extends base p) as [more' ->].
    exists (more' ++ more)%list. rewrite app_assoc. reflexivity.
Qed.

Lemma find_module_file_sound (parts : list string) (f : Path) :
  _find_module_file fs project_path parts = Some f ->
  exists_ fs f = true /\
  exists dirs file, f = (project_path ++ dirs ++ [file])%list /\
    (file = last parts "" ++ ".py" \/ file = "__init__.py").
Proof.
  unfold _find_module_file. destruct parts as [| p [| q rest]]; [discriminate | |].
  - apply file_or_package_sound.
  - destruct (walk_dirs fs project_path (removelast (p :: q :: rest))) as [base |] eqn:E;
      [| discriminate].
    intros H. destruct (file_or_package_sound base _ f H) as [Hex (dirs & file & -> & Hfile)].
    split; [exact Hex |].
    destruct (walk_dirs_extends _ _ _ E) as [more ->].
    exists (more ++ dirs)%list, file. split; [| exact Hfile].
    rewrite <- !app_assoc. reflexivity.
Qed.

(** X1.  An import that resolves names an existing file strictly below the
    project directory, called [<module>.py] or [__init__.py]; so
    [relative_to(project_path)] cannot raise on it.  The parts of the import
    are those of the resolved prefix followed by the sub-references. *)
Theorem resolve_import_inside_project (import_name module_name : string)
    (file : Path) (sub_modules : list string) :
  _resolve_import fs project_path import_name = Some (module_name, file, sub_modules) ->
  exists_ fs file = true /\
  (exists dirs name,
     relative_to file project_path = Some (dirs ++ [name])%list /\
     (name = module_name ++ ".py" \/ name = "__init__.py")) /\
  exists prefix,
    split_on "."%char import_name = (prefix ++ sub_modules)%list /\
    last prefix "" = module_name.
Proof.
  unfold _resolve_import. intros H.
  apply (try_prefixes_spec fs project_path) in H; [| apply Nat.le_refl].
  destruct H as (k & f & Hk & Hfind & _ & [= -> -> ->]).
  destruct (find_module_file_sound _ _ Hfind) as [Hex (dirs & name & -> & Hname)].
  split; [exact Hex |]. split.
  - exists dirs, name. split; [apply relative_to_app | exact Hname].
  - exists (firstn k (split_on "." import_name)). split; [| reflexivity].
    symmetry. apply firstn_skipn.
Qed.

(** X2.  [_classify_imports] splits the imports without losing or repeating any:
    the external names are the imports that do not resolve, in their order,
    the internal triples are the results of those that do, in their order. *)
Theorem classify_imports_partition (imports : list string) :
  let resolve := _resolve_import fs project_path in
  let unresolved imp := match resolve imp with Some _ => false | None => true end in
  let internal := fst (_classify_imports fs project_path imports) in
  let external := snd (_classify_imports fs project_path imports) in
  external = filter unresolved imports /\
  map Some internal = filter (fun r => negb (match r with Some _ => false | None => true end))
                             (map resolve imports) /\
  length internal + length external = length imports.
Proof.
  cbv zeta. induction imports as [| imp rest IH]; [repeat split |].
  cbn [_classify_imports map filter].
  destruct (_classify_imports fs project_path rest) as [internal external].
  cbn [fst snd] in IH. destruct IH as (IH1 & IH2 & IH3).
  destruct (_resolve_import fs project_path imp) as [r |]; cbn [fst snd negb map length].
  - repeat split; [exact IH1 | f_equal; exact IH2 | lia].
  - repeat split; [f_equal; exact IH1 | exact IH2 | lia].
Qed.

End ResolverMore.

Lemma resolve_import_inside_project_witness :
  FileSystem.exists_ layout_a_b ["proj"; "a"; "b.py"] = true /\
  relative_to ["proj"; "a"; "b.py"] ["proj"] = Some ["a"; "b.py"].
Proof.
  destruct (resolve_import_inside_project layout_a_b ["proj"] "a.b.C" "b"
              ["proj"; "a"; "b.py"] ["C"] eq_refl) as (Hex & _ & _).
  split; [exact Hex | reflexivity].
Defined.

(* ================================================================== *)
(** * Further properties of the entity extractor *)
(* ================================================================== *)

Section ExtractorMore.
Import Ast Extractor ExtractorSpec.

Lemma import_names_all_fix (l : list node) :
  (fix all (l : list node) : list string :=
     match l with
     | [] => []
     | x :: rest => (import_names x ++ all rest)%list
     end) l = import_names_all l.
Proof.
  induction l as [| x l IH]; [reflexivity |]. cbn [import_names_all flat_map].
  f_equal; try exact IH.
Qed.

Lemma import_names_args_fix (l : list (string * option node)) :
  (fix all_args (l : list (string * option node)) : list string :=
     match l with
     | [] => []
     | (_, Some a) :: rest => (import_names a ++ all_args rest)%list
     | (_, None) :: rest => all_args rest
     end) l = import_names_args l.
Proof.
  induction l as [| [s [a |]] l IH]; [reflexivity | |];
    cbn [import_names_args flat_map snd]; [f_equal |]; try exact IH.
Qed.

Lemma appends_compose (a b : list string) (f g : visitor -> visitor) :
  appends_imports a f -> appends_imports b g ->
  appends_imports (a ++ b)%list (fun v => g (f v)).
Proof.
  intros Hf Hg v. rewrite Hg, Hf, app_assoc. reflexivity.
Qed.

Lemma appends_visit_all (l : list node) :
  Forall (fun n => appends_imports (import_names n) (visit n)) l ->
  appends_imports (import_names_all l) (visit_all l).
Proof.
  induction 1 as [| x l Hx Hl IH]; intros v.
  - simpl. rewrite app_nil_r. reflexivity.
  - rewrite visit_all_cons. cbn [import_names_all flat_map].
    apply (appends_compose _ _ (visit x) (visit_all l) Hx IH).
Qed.

Lemma appends_visit_option (o : option node) :
  on_option (fun n => appends_imports (import_names n) (visit n)) o ->
  appends_imports (match o with Some n => import_names n | None => [] end)
                  (visit_option o).
Proof.
  destruct o as [n |]; simpl; intros H; [exact H |].
  intros v. rewrite app_nil_r. reflexivity.
Qed.

Lemma appends_visit_args (l : list (string * option node)) :
  Forall (on_arg (fun n => appends_imports (import_names n) (visit n))) l ->
  appends_imports (import_names_args l) (visit_args l).
Proof.
  induction 1 as [| a l Ha Hl IH]; intros v.
  - simpl. rewrite app_nil_r. reflexivity.
  - unfold visit_args; cbn [fold_left]. cbn [import_names_args flat_map].
    apply (appends_compose _ _ (visit_option (snd a)) (visit_args l)
             (appends_visit_option (snd a) Ha) IH).
Qed.

Lemma appends_nothing (f : visitor -> visitor) :
  (forall v, imports (f v) = imports v) -> appends_imports [] f.
Proof.
  intros H v. rewrite H, app_nil_r. reflexivity.
Qed.

Lemma visit_appends_imports (n : node) : appends_imports (import_names n) (visit n).
Proof.
  induction n as
    [ names | module names
    | name lineno end_lineno docstring bs kws body decos Hbs Hkws Hbody Hdecos
    | name lineno end_lineno docstring pos args oargs body decos returns
        Hpos Hargs Hoargs Hbody Hdecos Hret
    | func args IHfunc Hargs | id ctx | value attr IHvalue
    | value slice IHvalue IHslice | children Hchildren ] using node_induction;
    intros v.
  - reflexivity.
  - reflexivity.
  - rewrite visit_ClassDef. cbn [import_names]. rewrite !import_names_all_fix.
    cbn [set_current_class imports].
    rewrite (appends_visit_all decos Hdecos), (appends_visit_all body Hbody),
      (appends_visit_all kws Hkws), (appends_visit_all bs Hbs).
    cbn [enter_class imports]. rewrite <- !app_assoc. reflexivity.
  - rewrite visit_FunctionDef. cbn [import_names].
    rewrite !import_names_all_fix, import_names_args_fix.
    cbn [set_current_function imports].
    rewrite (appends_visit_option returns Hret), (appends_visit_all decos Hdecos),
      (appends_visit_all body Hbody), (appends_visit_all oargs Hoargs),
      (appends_visit_args args Hargs), (appends_visit_all pos Hpos).
    assert (E : imports (enter_function name lineno end_lineno docstring args decos
                                        returns v) = imports v)
      by (unfold enter_function; destruct (truthy (current_class v)); reflexivity).
    rewrite E, <- !app_assoc. reflexivity.
  - rewrite visit_Call. cbn [import_names]. rewrite import_names_all_fix.
    rewrite (appends_visit_all args Hargs), IHfunc.
    assert (E : imports (record_call func v) = imports v)
      by (unfold record_call; destruct (current_function v); reflexivity).
    rewrite E, <- app_assoc. reflexivity.
  - cbn [visit import_names]. rewrite app_nil_r. unfold record_name.
    destruct (current_function v); [destruct ctx |]; reflexivity.
  - exact (IHvalue v).
  - cbn [visit import_names]. rewrite IHslice, IHvalue, <- app_assoc. reflexivity.
  - rewrite visit_Other. cbn [import_names]. rewrite import_names_all_fix.
    apply (appends_visit_all children Hchildren).
Qed.

(** X3.  The imports of a file are those written in its tree, in that order,
    wherever they stand: the class and function context of the visitor
    plays no part, and nothing else is ever added to them. *)
Theorem imports_are_those_of_the_tree (tree : node) :
  x_imports (analyze_source_code tree) = import_names tree.
Proof.
  unfold analyze_source_code. cbn [x_imports].
  rewrite (visit_appends_imports tree init_visitor). reflexivity.
Qed.

Lemma mem_false (x : string) (l : list string) : mem x l = false -> ~ In x l.
Proof.
  unfold mem. intros H Hin.
  assert (E : existsb (String.eqb x) l = true)
    by (apply existsb_exists; exists x; split; [exact Hin | apply String.eqb_refl]).
  congruence.
Qed.

Lemma NoDup_snoc {A : Type} (l : list A) (x : A) :
  NoDup l -> ~ In x l -> NoDup (l ++ [x]).
Proof.
  induction 1 as [| y l Hy Hl IH]; intros Hx; simpl.
  - constructor; [intros [] | constructor].
  - constructor.
    + intros Hin. apply in_app_or in Hin. destruct Hin as [Hin | [-> | []]].
      * contradiction.
      * apply Hx. left. reflexivity.
    + apply IH. intros Hin. apply Hx. right. exact Hin.
Qed.

Lemma Forall_update_object (P : function_info -> Prop) (r : nat)
    (f : function_info -> function_info) (objs : list function_info) :
  (forall o, P o -> P (f o)) -> Forall P objs -> Forall P (update_object r f objs).
Proof.
  intros Hf H. revert r. induction H as [| o objs Ho Hobjs IH]; intros [| r]; simpl;
    constructor; auto.
Qed.

Lemma distinct_update (g : function_info -> function_info) (v : visitor) :
  (forall o, NoDup (used o) /\ NoDup (assigned o) ->
             NoDup (used (g o)) /\ NoDup (assigned (g o))) ->
  variables_distinct v ->
  variables_distinct
    match current_function v with
    | Some r => with_objects (update_object r g (objects v)) v
    | None => v
    end.
Proof.
  intros Hg Hv. destruct (current_function v) as [r |]; [| exact Hv].
  unfold variables_distinct. cbn [with_objects objects].
  apply Forall_update_object; assumption.
Qed.

Lemma visit_variables_distinct (n : node) : preserves variables_distinct (visit n).
Proof.
  induction n as
    [ names | module names
    | name lineno end_lineno docstring bs kws body decos Hbs Hkws Hbody Hdecos
    | name lineno end_lineno docstring pos args oargs body decos returns
        Hpos Hargs Hoargs Hbody Hdecos Hret
    | func args IHfunc Hargs | id ctx | value attr IHvalue
    | value slice IHvalue IHslice | children Hchildren ] using node_induction;
    intros v Hv.
  - exact Hv.
  - exact Hv.
  - rewrite visit_ClassDef.
    assert (H0 : variables_distinct (enter_class name lineno end_lineno docstring bs v))
      by exact Hv.
    pose proof (preserves_visit_all _ bs Hbs _ H0) as H1.
    pose proof (preserves_visit_all _ kws Hkws _ H1) as H2.
    pose proof (preserves_visit_all _ body Hbody _ H2) as H3.
    exact (preserves_visit_all _ decos Hdecos _ H3).
  - rewrite visit_FunctionDef.
    assert (H0 : variables_distinct
                   (enter_function name lineno end_lineno docstring args decos returns v)).
    { unfold variables_distinct, enter_function.
      destruct (truthy (current_class v)); cbn [objects];
        (apply Forall_app; split; [exact Hv |]);
        (constructor; [split; constructor | constructor]). }
    pose proof (preserves_visit_all _ pos Hpos _ H0) as H1.
    pose proof (preserves_visit_args _ args Hargs _ H1) as H2.
    pose proof (preserves_visit_all _ oargs Hoargs _ H2) as H3.
    pose proof (preserves_visit_all _ body Hbody _ H3) as H4.
    pose proof (preserves_visit_all _ decos Hdecos _ H4) as H5.
    exact (preserves_visit_option _ returns Hret _ H5).
  - rewrite visit_Call. apply (preserves_visit_all _ args Hargs), IHfunc.
    apply (distinct_update (append_call (_get_full_name func)) v); [| exact Hv].
    intros o Ho. exact Ho.
  - cbn [visit]. unfold record_name. destruct ctx.
    + apply (distinct_update (add_used id) v); [| exact Hv].
      intros o [Hu Ha]. unfold add_used. destruct (mem id (used o)) eqn:E; [auto |].
      cbn [used assigned]. split; [| exact Ha].
      apply NoDup_snoc; [exact Hu | apply mem_false, E].
    + apply (distinct_update (add_assigned id) v); [| exact Hv].
      intros o [Hu Ha]. unfold add_assigned. destruct (mem id (assigned o)) eqn:E; [auto |].
      cbn [used assigned]. split; [exact Hu |].
      apply NoDup_snoc; [exact Ha | apply mem_false, E].
    + destruct (current_function v); exact Hv.
  - apply IHvalue, Hv.
  - cbn [visit]. apply IHslice, IHvalue, Hv.
  - rewrite visit_Other. apply (preserves_visit_all _ children Hchildren), Hv.
Qed.

Lemma In_deref (objs : list function_info) (refs : list (string * nat))
    (k : string) (o : function_info) :
  In (k, o) (flat_map (deref objs) refs) ->
  exists r, In (k, r) refs /\ nth_error objs r = Some o.
Proof.
  intros H. apply in_flat_map in H. destruct H as ([k' r] & Hin & Hd).
  unfold deref in Hd. cbn [fst snd] in Hd.
  destruct (nth_error objs r) as [o' |] eqn:E; [| contradiction].
  destruct Hd as [[= -> ->] | []]. exists r. auto.
Qed.

(** X4.  The lists of used and of assigned variables of every function and
    method of a finished record hold each name once. *)
Theorem variables_listed_once (tree : node) :
  let x := analyze_source_code tree in
  (forall k o, In (k, o) (x_functions x) -> NoDup (used o) /\ NoDup (assigned o)) /\
  (forall c ci k o, In (c, ci) (x_classes x) -> In (k, o) (methods ci) ->
     NoDup (used o) /\ NoDup (assigned o)).
Proof.
  cbv zeta. unfold analyze_source_code. cbn [x_functions x_classes].
  assert (Hv : variables_distinct (visit tree init_visitor))
    by (apply visit_variables_distinct; constructor).
  unfold variables_distinct in Hv. rewrite Forall_forall in Hv.
  split.
  - intros k o H. destruct (In_deref _ _ _ _ H) as (r & _ & Hr).
    apply Hv. apply (nth_error_In _ _ Hr).
  - intros c ci k o Hc Hm. apply in_map_iff in Hc.
    destruct Hc as ([c' ci'] & [= <- <-] & _). cbn [methods] in Hm.
    destruct (In_deref _ _ _ _ Hm) as (r & _ & Hr).
    apply Hv. apply (nth_error_In _ _ Hr).
Qed.

Lemma In_dict_set {A : Type} (k k0 : string) (x x0 : A) (d : list (string * A)) :
  In (k, x) (dict_set k0 x0 d) -> (k, x) = (k0, x0) \/ In (k, x) d.
Proof.
  induction d as [| [k' x'] d IH]; simpl.
  - intros [H | []]. left. symmetry. exact H.
  - destruct (String.eqb k0 k'); simpl; intros [H | H]; auto.
    destruct (IH H); auto.
Qed.

Lemma In_set_method (c name : string) (r : nat) (cs : list (string * class_info nat))
    (k : string) (ci' : class_info nat) :
  In (k, ci') (set_method c name r cs) ->
  In (k, ci') cs \/
  exists ci, In (k, ci) cs /\ cls_name ci' = cls_name ci /\
             methods ci' = dict_set name r (methods ci).
Proof.
  induction cs as [| [k0 ci0] cs IH]; simpl; [contradiction |].
  destruct (String.eqb c k0); simpl; intros [H | H].
  - injection H as <- <-. right. exists ci0. auto.
  - auto.
  - auto.
  - destruct (IH H) as [H' | (ci & Hin & Hrest)]; [auto |].
    right. exists ci. auto.
Qed.

Lemma good_ref_keeps (v v' : visitor) (kind : string) (e : string * nat) :
  keeps_entries v v' -> good_ref v kind e -> good_ref v' kind e.
Proof.
  intros (_ & _ & Hobj) (o & Ho & Hn & Hk).
  destruct (Hobj _ _ Ho) as (o' & Ho' & Hn' & Hk').
  exists o'. split; [exact Ho' |]. split; congruence.
Qed.

Lemma well_stored_keeps (v v' : visitor) :
  keeps_entries v v' -> well_stored v -> well_stored v'.
Proof.
  intros Hk [Hf Hc]. pose proof Hk as (Ef & Ec & _). split.
  - intros e He. rewrite Ef in He. apply (good_ref_keeps v v' _ e Hk), Hf, He.
  - intros c ci Hin. rewrite Ec in Hin. destruct (Hc c ci Hin) as [Hn Hm].
    split; [exact Hn |]. intros e He. apply (good_ref_keeps v v' _ e Hk), Hm, He.
Qed.

Lemma nth_error_update_object (r i : nat) (f : function_info -> function_info)
    (objs : list function_info) (o : function_info) :
  nth_error objs i = Some o ->
  nth_error (update_object r f objs) i = Some o \/
  nth_error (update_object r f objs) i = Some (f o).
Proof.
  revert r i. induction objs as [| x objs IH]; intros [| r] [| i]; simpl;
    try discriminate; auto.
  intros [= ->]. auto.
Qed.

Lemma keeps_entries_update (g : function_info -> function_info) (v : visitor) :
  (forall o, fn_name (g o) = fn_name o /\ fn_type (g o) = fn_type o) ->
  keeps_entries v
    match current_function v with
    | Some r => with_objects (update_object r g (objects v)) v
    | None => v
    end.
Proof.
  intros Hg. destruct (current_function v) as [r |].
  - split; [reflexivity |]. split; [reflexivity |]. intros i o Ho.
    cbn [with_objects objects].
    destruct (nth_error_update_object r i g _ o Ho) as [E | E]; rewrite E.
    + exists o. auto.
    + exists (g o). split; [reflexivity | apply Hg].
  - split; [reflexivity |]. split; [reflexivity |]. intros i o Ho. exists o. auto.
Qed.

Lemma good_ref_grow (v : visitor) (kind : string) (e : string * nat)
    (cs : list (string * class_info nat)) (fs : list (string * nat))
    (cc : option string) (cf : option nat) (o : function_info) :
  good_ref v kind e ->
  good_ref (mk_visitor cs fs (imports v) cc cf (objects v ++ [o])) kind e.
Proof.
  intros (o' & Ho & Hn & Hk). exists o'. split; [| auto]. cbn [objects].
  rewrite nth_error_app1; [exact Ho |]. apply nth_error_Some. congruence.
Qed.

Lemma well_stored_enter_function name lineno end_lineno docstring args decos returns
    (v : visitor) :
  well_stored v ->
  well_stored (enter_function name lineno end_lineno docstring args decos returns v).
Proof.
  intros [Hf Hc]. unfold enter_function.
  set (o := mk_function_info name _ lineno end_lineno docstring [] [] [] _ _ _).
  assert (Hnew : forall cs fs cc cf kind, fn_type o = kind ->
            good_ref (mk_visitor cs fs (imports v) cc cf (objects v ++ [o])) kind
                     (name, length (objects v))).
  { intros cs fs cc cf kind Hk. exists o. cbn [objects snd fst].
    rewrite nth_error_app2 by apply Nat.le_refl. rewrite Nat.sub_diag.
    split; [reflexivity |]. split; [reflexivity | exact Hk]. }
  destruct (truthy (current_class v)) eqn:Ht; split; cbn [functions classes].
  - intros e He. apply good_ref_grow, Hf, He.
  - intros c ci Hin. apply In_set_method in Hin.
    destruct Hin as [Hin | (ci0 & Hin & Hname & Hmeth)].
    + destruct (Hc c ci Hin) as [Hn Hm]. split; [exact Hn |].
      intros e He. apply good_ref_grow, Hm, He.
    + destruct (Hc c ci0 Hin) as [Hn Hm]. split; [congruence |].
      intros [k r] He. rewrite Hmeth in He. apply In_dict_set in He.
      destruct He as [[= -> ->] | He].
      * apply Hnew. subst o. cbn [fn_type]. rewrite ?Ht. reflexivity.
      * apply good_ref_grow, Hm, He.
  - intros [k r] He. apply In_dict_set in He. destruct He as [[= -> ->] | He].
    + apply Hnew. subst o. cbn [fn_type]. rewrite ?Ht. reflexivity.
    + apply good_ref_grow, Hf, He.
  - intros c ci Hin. destruct (Hc c ci Hin) as [Hn Hm]. split; [exact Hn |].
    intros e He. apply good_ref_grow, Hm, He.
Qed.

Lemma well_stored_enter_class name lineno end_lineno docstring bs (v : visitor) :
  well_stored v -> well_stored (enter_class name lineno end_lineno docstring bs v).
Proof.
  intros [Hf Hc]. unfold enter_class. split; cbn [functions classes].
  - intros e He. destruct (Hf e He) as (o & Ho). exists o. exact Ho.
  - intros c ci Hin. apply In_dict_set in Hin. destruct Hin as [[= -> ->] | Hin].
    + split; [reflexivity |]. intros e [].
    + destruct (Hc c ci Hin) as [Hn Hm]. split; [exact Hn |].
      intros e He. destruct (Hm e He) as (o & Ho). exists o. exact Ho.
Qed.

Lemma visit_well_stored (n : node) : preserves well_stored (visit n).
Proof.
  induction n as
    [ names | module names
    | name lineno end_lineno docstring bs kws body decos Hbs Hkws Hbody Hdecos
    | name lineno end_lineno docstring pos args oargs body decos returns
        Hpos Hargs Hoargs Hbody Hdecos Hret
    | func args IHfunc Hargs | id ctx | value attr IHvalue
    | value slice IHvalue IHslice | children Hchildren ] using node_induction;
    intros v Hv.
  - exact Hv.
  - exact Hv.
  - rewrite visit_ClassDef.
    pose proof (well_stored_enter_class name lineno end_lineno docstring bs v Hv) as H0.
    pose proof (preserves_visit_all _ bs Hbs _ H0) as H1.
    pose proof (preserves_visit_all _ kws Hkws _ H1) as H2.
    pose proof (preserves_visit_all _ body Hbody _ H2) as H3.
    exact (preserves_visit_all _ decos Hdecos _ H3).
  - rewrite visit_FunctionDef.
    pose proof (well_stored_enter_function name lineno end_lineno docstring args decos
                  returns v Hv) as H0.
    pose proof (preserves_visit_all _ pos Hpos _ H0) as H1.
    pose proof (preserves_visit_args _ args Hargs _ H1) as H2.
    pose proof (preserves_visit_all _ oargs Hoargs _ H2) as H3.
    pose proof (preserves_visit_all _ body Hbody _ H3) as H4.
    pose proof (preserves_visit_all _ decos Hdecos _ H4) as H5.
    exact (preserves_visit_option _ returns Hret _ H5).
  - rewrite visit_Call. apply (preserves_visit_all _ args Hargs), IHfunc.
    apply (well_stored_keeps v); [| exact Hv].
    apply (keeps_entries_update (append_call (_get_full_name func)) v).
    intros o. split; reflexivity.
  - cbn [visit]. unfold record_name. destruct ctx.
    + apply (well_stored_keeps v); [| exact Hv].
      apply (keeps_entries_update (add_used id) v).
      intros o. unfold add_used. destruct (mem id (used o)); split; reflexivity.
    + apply (well_stored_keeps v); [| exact Hv].
      apply (keeps_entries_update (add_assigned id) v).
      intros o. unfold add_assigned. destruct (mem id (assigned o)); split; reflexivity.
    + destruct (current_function v); exact Hv.
  - apply IHvalue, Hv.
  - cbn [visit]. apply IHslice, IHvalue, Hv.
  - rewrite visit_Other. apply (preserves_visit_all _ children Hchildren), Hv.
Qed.

(** X5.  In a finished record every function and every class is stored under
    its own name; every top-level function is of kind "function" and every
    method of a class of kind "method"; and no reference of the visitor is
    lost when the record is written: the names of the record are the keys
    the visitor holds. *)
Theorem entries_stored_by_name_and_kind (tree : node) :
  let x := analyze_source_code tree in
  let v := visit tree init_visitor in
  (forall k o, In (k, o) (x_functions x) -> fn_name o = k /\ fn_type o = "function") /\
  (forall c ci, In (c, ci) (x_classes x) ->
     cls_name ci = c /\
     forall k o, In (k, o) (methods ci) -> fn_name o = k /\ fn_type o = "method") /\
  map fst (x_functions x) = map fst (functions v) /\
  map fst (x_classes x) = map fst (classes v).
Proof.
  cbv zeta. unfold analyze_source_code. cbn [x_functions x_classes].
  assert (Hv : well_stored (visit tree init_visitor)).
  { apply visit_well_stored. split; [intros e [] | intros c ci []]. }
  destruct Hv as [Hf Hc]. split; [| split; [| split]].
  - intros k o H. destruct (In_deref _ _ _ _ H) as (r & Hin & Hr).
    destruct (Hf (k, r) Hin) as (o' & Ho' & Hn & Hk). cbn [fst snd] in *.
    assert (o' = o) by congruence. subst o'. auto.
  - intros c ci H. apply in_map_iff in H.
    destruct H as ([c' ci'] & [= <- <-] & Hin). cbn [fst snd cls_name methods].
    destruct (Hc c' ci' Hin) as [Hn Hm]. split; [exact Hn |].
    intros k o H. destruct (In_deref _ _ _ _ H) as (r & Hin' & Hr).
    destruct (Hm (k, r) Hin') as (o' & Ho' & Hn' & Hk). cbn [fst snd] in *.
    assert (o' = o) by congruence. subst o'. auto.
  - induction (functions (visit tree init_visitor)) as [| [k r] fs IH] in Hf |- *;
      [reflexivity |].
    cbn [flat_map map fst]. unfold deref at 1. cbn [fst snd].
    destruct (Hf (k, r) (or_introl eq_refl)) as (o & Ho & _). cbn [snd] in Ho.
    rewrite Ho. cbn [app map fst]. f_equal.
    apply IH. intros e He. apply Hf. right. exact He.
  - rewrite map_map. apply map_ext. intros [c ci]. reflexivity.
Qed.

End ExtractorMore.

(* ================================================================== *)
(** * Further properties of the structure aggregator *)
(* ================================================================== *)

Section AggregatorMore.
Import Json Aggregator.

Variable list_of_set : list string -> list string.

Lemma dict_set_keys_iff {A : Type} (k k' : string) (x : A) (d : list (string * A)) :
  In k' (map fst (dict_set k x d)) <-> k' = k \/ In k' (map fst d).
Proof.
  induction d as [| [k0 x0] d IH]; simpl.
  - split; [intros [<- | []]; auto | intros [-> | []]; auto].
  - destruct (String.eqb k k0) eqn:E; simpl.
    + apply String.eqb_eq in E. subst k0. split.
      * intros [<- | H]; auto.
      * intros [-> | [<- | H]]; auto.
    + rewrite IH. split.
      * intros [<- | [-> | H]]; auto.
      * intros [-> | [<- | H]]; auto.
Qed.

Lemma append_keys_incl (file_path : string) (deps : list string)
    (adj : list (string * list string)) (k : string) :
  In k (map fst (fold_left (fun adj dep_path => adjacency_append file_path dep_path adj)
                           deps adj)) ->
  k = file_path \/ In k (map fst adj).
Proof.
  revert adj. induction deps as [| dep deps IH]; intros adj; cbn [fold_left]; [auto |].
  intros H. destruct (IH _ H) as [-> | H']; [auto |].
  unfold adjacency_append in H'. apply dict_set_keys_iff in H'. exact H'.
Qed.

(** The keys of the two tables after one more record. *)
Lemma add_record_nodes (t t' : tables) (data : Analyzer.file_info) :
  add_record list_of_set t data = Some t' ->
  (NoDup (map fst (modules_info t)) -> NoDup (map fst (modules_info t'))) /\
  (forall p, In p (map fst (modules_info t')) <->
             (Analyzer.path data <> "" /\ p = Analyzer.path data) \/
             In p (map fst (modules_info t))) /\
  (incl (map fst (adjacency_list t)) (map fst (modules_info t)) ->
   incl (map fst (adjacency_list t')) (map fst (modules_info t'))).
Proof.
  unfold add_record. destruct (String.eqb (Analyzer.path data) "") eqn:E.
  - apply String.eqb_eq in E. intros [= <-]. split; [auto |]. split; [| auto].
    intros p. split; [auto |]. intros [[H _] | H]; [contradiction | exact H].
  - assert (Hne : Analyzer.path data <> "")
      by (intros H; rewrite H in E; discriminate).
    destruct (extract_internal_module_paths _ _) as [l |]; [| discriminate].
    intros [= <-]. cbn [modules_info adjacency_list]. split; [| split].
    + intros Hn. apply dict_set_keys, Hn.
    + intros p. rewrite dict_set_keys_iff. split.
      * intros [-> | H]; auto.
      * intros [[_ ->] | H]; auto.
    + intros Hincl k Hk. apply dict_set_keys_iff.
      destruct (append_keys_incl _ _ _ _ Hk) as [-> | Hk']; [auto |].
      right. apply Hincl, Hk'.
Qed.

Lemma add_records_nodes (records : list Analyzer.file_info) (t t' : tables) :
  add_records list_of_set t records = Some t' ->
  (NoDup (map fst (modules_info t)) -> NoDup (map fst (modules_info t'))) /\
  (forall p, In p (map fst (modules_info t')) <->
             (p <> "" /\ exists data, In data records /\ Analyzer.path data = p) \/
             In p (map fst (modules_info t))) /\
  (incl (map fst (adjacency_list t)) (map fst (modules_info t)) ->
   incl (map fst (adjacency_list t')) (map fst (modules_info t'))).
Proof.
  revert t. induction records as [| data rest IH]; intros t; cbn [add_records].
  - intros [= <-]. split; [auto |]. split; [| auto].
    intros p. split; [auto |]. intros [(_ & d & [] & _) | H]. exact H.
  - destruct (add_record list_of_set t data) as [t1 |] eqn:E; [| discriminate].
    intros H. destruct (add_record_nodes t t1 data E) as (N1 & I1 & A1).
    destruct (IH t1 H) as (N2 & I2 & A2). split; [auto |]. split; [| auto].
    intros p. rewrite I2, I1. split.
    + intros [(Hp & d & Hd & Hpath) | [[Hne ->] | Hin]].
      * left. split; [exact Hp |]. exists d. split; [right; exact Hd | exact Hpath].
      * left. split; [exact Hne |]. exists data. split; [left |]; reflexivity.
      * right. exact Hin.
    + intros [(Hp & d & [<- | Hd] & Hpath) | Hin].
      * right. left. split; [rewrite Hpath; exact Hp | symmetry; exact Hpath].
      * left. split; [exact Hp |]. exists d. auto.
      * right. right. exact Hin.
Qed.

Lemma edges_of_source (adj : list (string * list string)) (src dst : string) :
  In (src, dst) (edges_of adj) -> In src (map fst adj).
Proof.
  unfold edges_of. intros H. apply in_flat_map in H.
  destruct H as ([k ts] & Hin & Hm). apply in_map_iff in Hm.
  destruct Hm as (d & [= <- <-] & _). apply in_map_iff. exists (k, ts). auto.
Qed.

(** X6.  The nodes of the graph are the non-empty paths of the records, each
    once, and every edge starts at a node.  (Its target need not be one: a
    dependency that was never analysed has no record.) *)
Theorem graph_nodes_are_record_paths (records : list Analyzer.file_info)
    (modules : list (string * module_summary)) (g : graph) :
  build_project_structure list_of_set records = Some (modules, g) ->
  NoDup (nodes g) /\
  (forall p, In p (nodes g) <->
             p <> "" /\ exists data, In data records /\ Analyzer.path data = p) /\
  (forall src dst, In (src, dst) (edges g) -> In src (nodes g)).
Proof.
  unfold build_project_structure.
  destruct (add_records list_of_set (mk_tables [] []) records) as [t |] eqn:E;
    [| discriminate].
  intros [= _ <-]. cbn [nodes edges].
  destruct (add_records_nodes records _ t E) as (N & I & A).
  split; [apply N; constructor |]. split.
  - intros p. rewrite I. split; [intros [H | []]; exact H | auto].
  - intros src dst H. apply A; [intros k [] |]. apply (edges_of_source _ _ _ H).
Qed.

End AggregatorMore.

Lemma graph_nodes_are_record_paths_witness :
  option_map (fun r => Aggregator.nodes (snd r))
    (Aggregator.build_project_structure (nodup string_dec) [record_a; record_b])
    = Some ["./a.py"; "./b.py"] /\
  exists modules g,
    Aggregator.build_project_structure (nodup string_dec) [record_a; record_b]
      = Some (modules, g) /\
    NoDup (Aggregator.nodes g).
Proof.
  split; [reflexivity |].
  destruct (Aggregator.build_project_structure (nodup string_dec) [record_a; record_b])
    as [[modules g] |] eqn:E; [| discriminate E].
  exists modules, g. split; [reflexivity |].
  exact (proj1 (graph_nodes_are_record_paths (nodup string_dec)
                  [record_a; record_b] modules g E)).
Defined.

(* ================================================================== *)
(** * The aggregator on the trees that the analyzer builds *)
(* ================================================================== *)

Section TreeFacts.
Import Json Aggregator DependencyTree.

Variable list_of_set : list string -> list string.
Hypothesis list_of_set_NoDup : forall l, NoDup (list_of_set l).
Hypothesis list_of_set_In : forall l x, In x (list_of_set l) <-> In x l.

Local Notation "'extract'" := (extract_internal_module_paths list_of_set).

Lemma built_entries (d : list (string * json)) :
  built (JDict d) <-> NoDup (map fst d) /\ Forall entry_built d.
Proof.
  cbn [built]. apply and_iff_compat_l.
  induction d as [| [k v] d IH].
  - split; [constructor | exact (fun _ => I)].
  - rewrite IH. split.
    + intros [H1 H2]. constructor; assumption.
    + intros H. inversion H; subst. split; assumption.
Qed.

Lemma In_assoc {A : Type} (k : string) (x : A) (d : list (string * A)) :
  NoDup (map fst d) -> In (k, x) d -> assoc k d = Some x.
Proof.
  induction d as [| [k' x'] d IH]; simpl; [contradiction |].
  intros Hn Hin. inversion Hn as [| ? ? Hnot Hn']; subst.
  destruct Hin as [[= -> ->] | Hin]; [rewrite String.eqb_refl; reflexivity |].
  destruct (String.eqb k k') eqn:E; [| exact (IH Hn' Hin)].
  apply String.eqb_eq in E. subst k'. exfalso. apply Hnot.
  apply in_map_iff. exists (k, x). auto.
Qed.

Lemma extract_JList (items : list json) :
  extract (JList items) = option_map list_of_set (list_paths list_of_set items).
Proof. reflexivity. Qed.

Lemma strings_no_paths (subs : list string) :
  list_paths list_of_set (map JStr subs) = Some [].
Proof.
  induction subs as [| s subs IH]; [reflexivity | exact IH].
Qed.

Lemma extract_module_entry (name p : string) (subs : list string) :
  exists l, extract (Analyzer.module_entry name p subs) = Some l /\
            forall x, ~ In x l.
Proof.
  unfold Analyzer.module_entry. rewrite extract_JDict.
  cbn [assoc String.eqb Ascii.eqb Bool.eqb nested_paths].
  rewrite extract_JList, strings_no_paths. cbn [option_map app_opt app].
  eexists. split; [reflexivity |]. intros x Hx.
  apply (proj1 (list_of_set_In _ _)) in Hx. rewrite app_nil_r in Hx.
  apply (proj1 (list_of_set_In _ _)) in Hx. exact Hx.
Qed.

Lemma path_of_module_entry (name p : string) (subs : list string) :
  p <> "" ->
  path_of [("name", JStr name); ("path", JStr p);
           ("sub_modules", JList (map JStr subs))] = Some [p].
Proof.
  intros Hp. unfold path_of. cbn [assoc String.eqb Ascii.eqb Bool.eqb].
  destruct (String.eqb p "") eqn:E; [apply String.eqb_eq in E; contradiction |].
  reflexivity.
Qed.

Lemma module_paths_entries (mods : list json) :
  Forall (fun m => exists p, is_module_entry m p) mods ->
  exists xs, module_paths mods = Some xs /\
    forall p, In p xs -> exists m, In m mods /\ is_module_entry m p.
Proof.
  induction 1 as [| m mods (q & name & subs & -> & Hq) Hmods (xs & Hxs & IH)].
  - exists []. split; [reflexivity | intros p []].
  - unfold Analyzer.module_entry. cbn [module_paths].
    rewrite (path_of_module_entry name q subs Hq), Hxs. cbn [app_opt app].
    eexists. split; [reflexivity |]. intros p [<- | Hp].
    + eexists. split; [left; reflexivity |]. exists name, subs. auto.
    + destruct (IH p Hp) as (m & Hm & He). exists m. split; [right |]; assumption.
Qed.

Lemma list_paths_entries (mods : list json) :
  Forall (fun m => exists p, is_module_entry m p) mods ->
  exists ys, list_paths list_of_set mods = Some ys /\
    forall p, In p ys -> exists m, In m mods /\ is_module_entry m p.
Proof.
  induction 1 as [| m mods (q & name & subs & -> & Hq) Hmods (ys & Hys & IH)].
  - exists []. split; [reflexivity | intros p []].
  - destruct (extract_module_entry name q subs) as (l & Hl & Hnone).
    unfold Analyzer.module_entry in *. cbn [list_paths].
    rewrite (path_of_module_entry name q subs Hq), Hl, Hys. cbn [app_opt app].
    eexists. split; [reflexivity |]. intros p [<- | Hp].
    + eexists. split; [left; reflexivity |]. exists name, subs. auto.
    + apply in_app_or in Hp. destruct Hp as [Hp | Hp]; [destruct (Hnone p Hp) |].
      destruct (IH p Hp) as (m & Hm & He). exists m. split; [right |]; assumption.
Qed.

Lemma module_here_entry (d : list (string * json)) (mods : list json) (m : json)
    (p : string) :
  assoc "modules" d = Some (JList mods) -> In m mods -> is_module_entry m p ->
  module_path_in (JDict d) p.
Proof.
  intros Hd Hm (name & subs & -> & Hp).
  apply (module_here d mods _ p Hd Hm); [reflexivity | exact Hp].
Qed.

(** What the loop over the values collects from the entries [es] of a node
    with the entries [d]. *)
Lemma nested_paths_built (d es : list (string * json)) :
  NoDup (map fst d) -> incl es d ->
  Forall entry_built es ->
  Forall (fun e => built (snd e) ->
            exists l, extract (snd e) = Some l /\
                      forall p, In p l -> module_path_in (snd e) p) es ->
  exists ys, nested_paths list_of_set es = Some ys /\
             forall p, In p ys -> module_path_in (JDict d) p.
Proof.
  intros Hn. induction es as [| [k v] es IH]; intros Hincl Hb HP.
  - exists []. split; [reflexivity | intros p []].
  - inversion Hb as [| ? ? Hkv Hb']; subst. inversion HP as [| ? ? Pv HP']; subst.
    destruct (IH (fun x Hx => Hincl x (or_intror Hx)) Hb' HP') as (ys & Hys & Hsound).
    assert (Hin : In (k, v) d) by (apply Hincl; left; reflexivity).
    unfold entry_built in Hkv. cbn [fst snd] in Hkv, Pv. cbn [nested_paths].
    destruct (String.eqb k "modules") eqn:Ek.
    + apply String.eqb_eq in Ek. subst k. destruct Hkv as (mods & -> & Hmods).
      destruct (list_paths_entries mods Hmods) as (zs & Hzs & Hz).
      rewrite extract_JList, Hzs, Hys. cbn [option_map app_opt].
      eexists. split; [reflexivity |]. intros p Hp. apply in_app_or in Hp.
      destruct Hp as [Hp | Hp]; [| exact (Hsound p Hp)].
      apply (proj1 (list_of_set_In _ _)) in Hp. destruct (Hz p Hp) as (m & Hm & He).
      apply (module_here_entry d mods m p); auto. apply In_assoc; assumption.
    + destruct (String.eqb k "path") eqn:Ep.
      * destruct Hkv as (s & ->). exists ys. split; [exact Hys | exact Hsound].
      * destruct v as [| s | items | entries]; try contradiction.
        destruct (Pv Hkv) as (l & Hl & Hsl). rewrite Hl, Hys. cbn [app_opt].
        eexists. split; [reflexivity |]. intros p Hp. apply in_app_or in Hp.
        destruct Hp as [Hp | Hp]; [| exact (Hsound p Hp)].
        apply (module_below d k (JDict entries) p Hin). apply Hsl, Hp.
Qed.

Lemma extract_built_sound (t : json) :
  built t ->
  exists l, extract t = Some l /\ forall p, In p l -> module_path_in t p.
Proof.
  induction t as [| s | items _ | entries IH] using json_induction;
    try contradiction.
  intros Hb. pose proof Hb as Hb'. apply built_entries in Hb'. destruct Hb' as [Hn Hall].
  destruct (nested_paths_built entries entries Hn (incl_refl _) Hall IH)
    as (ys & Hys & Hsound).
  rewrite extract_JDict, Hys.
  destruct (assoc "modules" entries) as [v |] eqn:Hm.
  - pose proof (assoc_In _ _ _ Hm) as Hin.
    rewrite Forall_forall in Hall. specialize (Hall _ Hin).
    unfold entry_built in Hall. cbn [fst snd] in Hall.
    destruct Hall as (mods & -> & Hmods).
    destruct (module_paths_entries mods Hmods) as (xs & Hxs & Hx).
    rewrite Hxs. cbn [app_opt option_map]. eexists. split; [reflexivity |].
    intros p Hp. apply (proj1 (list_of_set_In _ _)) in Hp. apply in_app_or in Hp.
    destruct Hp as [Hp | Hp]; [| exact (Hsound p Hp)].
    destruct (Hx p Hp) as (m & Hmin & He).
    apply (module_here_entry entries mods m p); assumption.
  - cbn [app_opt option_map app]. eexists. split; [reflexivity |].
    intros p Hp. apply (proj1 (list_of_set_In _ _)) in Hp. exact (Hsound p Hp).
Qed.

(** X7.  On a tree as the analyzer builds it the flattening never raises and
    returns, each once, exactly the paths of the module entries of the tree:
    the [path] of a directory node is never a target. *)
Theorem extract_exact_on_built_trees (t : json) :
  built t ->
  exists targets,
    extract t = Some targets /\ NoDup targets /\
    forall p, In p targets <-> module_path_in t p.
Proof.
  intros Hb. destruct (extract_built_sound t Hb) as (l & Hl & Hsound).
  exists l. split; [exact Hl |]. split; [apply (extract_NoDup list_of_set list_of_set_NoDup _ _ Hl) |].
  intros p. split; [apply Hsound |].
  intros Hp. apply (extract_complete list_of_set list_of_set_In _ _ Hp _ Hl).
Qed.

Lemma In_dict_set_strong {A : Type} (k k0 : string) (x x0 : A) (d : list (string * A)) :
  NoDup (map fst d) ->
  (In (k, x) (dict_set k0 x0 d) <-> (k = k0 /\ x = x0) \/ (k <> k0 /\ In (k, x) d)).
Proof.
  induction d as [| [k' x'] d IH]; simpl; intros Hn.
  - split.
    + intros [[= <- <-] | []]. auto.
    + intros [[-> ->] | [_ []]]. auto.
  - inversion Hn as [| ? ? Hnot Hn']; subst.
    destruct (String.eqb k0 k') eqn:E.
    + apply String.eqb_eq in E. subst k'. simpl. split.
      * intros [[= <- <-] | Hin]; [auto |]. right. split; [| auto].
        intros ->. apply Hnot. apply in_map_iff. exists (k0, x). auto.
      * intros [[-> ->] | [Hne [[= -> ->] | Hin]]]; auto. contradiction.
    + assert (Hne : k' <> k0) by (intros ->; rewrite String.eqb_refl in E; discriminate).
      simpl. rewrite (IH Hn'). split.
      * intros [[= <- <-] | [H | [H1 H2]]]; auto.
      * intros [H | [H1 [[= -> ->] | H2]]]; auto.
Qed.

Lemma module_path_in_split (k0 : string) (d : list (string * json)) (p : string) :
  NoDup (map fst d) ->
  (module_path_in (JDict d) p <-> here d p \/ under k0 d p \/ others k0 d p).
Proof.
  intros Hn. unfold here, under, others. split.
  - intros H. inversion H as [? mods md ? Hm Hin Hp Hne | ? k v ? Hin Hv]; subst.
    + left. exists mods, md. auto.
    + right. destruct (string_dec k k0) as [-> | Hk].
      * left. rewrite (In_assoc k0 v d Hn Hin). exact Hv.
      * right. exists k, v. auto.
  - intros [(mods & md & Hm & Hin & Hp & Hne) | [H | (k & v & _ & Hin & Hv)]].
    + apply (module_here d mods md p); assumption.
    + destruct (assoc k0 d) as [v |] eqn:E; [| contradiction].
      apply (module_below d k0 v p); [apply assoc_In, E | exact H].
    + apply (module_below d k v p); assumption.
Qed.

Lemma others_dict_set (k0 : string) (v0 : json) (d : list (string * json)) (p : string) :
  NoDup (map fst d) -> (others k0 (dict_set k0 v0 d) p <-> others k0 d p).
Proof.
  intros Hn. unfold others. split; intros (k & v & Hk & Hin & Hv); exists k, v;
    (split; [exact Hk |]); (split; [| exact Hv]).
  - apply (In_dict_set_strong k k0 v v0 d Hn) in Hin.
    destruct Hin as [[H _] | [_ H]]; [contradiction | exact H].
  - apply (In_dict_set_strong k k0 v v0 d Hn). right. auto.
Qed.

Lemma here_dict_set_other (k0 : string) (v0 : json) (d : list (string * json))
    (p : string) :
  k0 <> "modules" -> (here (dict_set k0 v0 d) p <-> here d p).
Proof.
  intros Hk. unfold here. rewrite assoc_dict_set_other by congruence. reflexivity.
Qed.

(** Replacing the directory node under [k0]. *)
Lemma module_path_in_set_dir (k0 : string) (v0 : json) (d : list (string * json))
    (p : string) :
  NoDup (map fst d) -> k0 <> "modules" ->
  (module_path_in (JDict (dict_set k0 v0 d)) p <->
   here d p \/ module_path_in v0 p \/ others k0 d p).
Proof.
  intros Hn Hk.
  rewrite (module_path_in_split k0) by (apply dict_set_keys; exact Hn).
  rewrite here_dict_set_other by exact Hk. rewrite others_dict_set by exact Hn.
  unfold under. rewrite assoc_dict_set_same. reflexivity.
Qed.

Lemma no_path_below_list (mods : list json) (p : string) :
  ~ module_path_in (JList mods) p.
Proof. intros H. inversion H. Qed.

(** Replacing the [modules] list. *)
Lemma module_path_in_set_modules (mods : list json) (d : list (string * json))
    (p : string) :
  NoDup (map fst d) ->
  (module_path_in (JDict (dict_set "modules" (JList mods) d)) p <->
   (exists md, In (JDict md) mods /\ assoc "path" md = Some (JStr p) /\ p <> "")
   \/ others "modules" d p).
Proof.
  intros Hn.
  rewrite (module_path_in_split "modules") by (apply dict_set_keys; exact Hn).
  rewrite others_dict_set by exact Hn.
  unfold here, under. rewrite assoc_dict_set_same. split.
  - intros [(ms & md & [= <-] & H) | [H | H]]; [left; exists md; exact H | | auto].
    destruct (no_path_below_list _ _ H).
  - intros [(md & H) | H]; [left; exists mods, md; auto | auto].
Qed.

Lemma entry_built_dict_set (k : string) (v : json) (d : list (string * json)) :
  entry_built (k, v) -> Forall entry_built d -> Forall entry_built (dict_set k v d).
Proof.
  intros Hkv. induction 1 as [| [k' v'] d He Hd IH]; simpl.
  - constructor; [exact Hkv | constructor].
  - destruct (String.eqb k k'); constructor; assumption.
Qed.

Lemma built_dict_set (k : string) (v : json) (d : list (string * json)) :
  entry_built (k, v) -> built (JDict d) -> built (JDict (dict_set k v d)).
Proof.
  intros Hkv Hb. apply built_entries in Hb. destruct Hb as [Hn Hall].
  apply built_entries. split; [apply dict_set_keys, Hn | apply entry_built_dict_set; assumption].
Qed.

Lemma has_key_false {A : Type} (k : string) (d : list (string * A)) :
  has_key k d = false -> assoc k d = None.
Proof. unfold has_key. destruct (assoc k d); [discriminate | reflexivity]. Qed.

Lemma entry_path_of (name q : string) (subs : list string) (md : list (string * json))
    (p : string) :
  JDict md = Analyzer.module_entry name q subs ->
  assoc "path" md = Some (JStr p) -> p = q.
Proof.
  unfold Analyzer.module_entry. intros [= ->].
  cbn [assoc String.eqb Ascii.eqb Bool.eqb]. intros [= ->]. reflexivity.
Qed.

(** One round of the builder on a well-shaped tree, under directories that
    are not reserved: it succeeds, the tree stays well-shaped and gains the
    entry's path and nothing else. *)
Lemma add_module_built (dirs rel_parts : list string) (name q : string)
    (subs : list string) (current : json) :
  built current -> forallb (fun d => negb (reserved d)) dirs = true -> q <> "" ->
  exists t, Analyzer.add_module current dirs rel_parts
              (Analyzer.module_entry name q subs) = Some t /\
            built t /\
            forall p, module_path_in t p <-> module_path_in current p \/ p = q.
Proof.
  revert current. induction dirs as [| dir dirs IH]; intros current Hb Hdirs Hq;
    destruct current as [| s | items | d]; try contradiction.
  - (* the node itself: append to its modules list *)
    pose proof Hb as Hb'. apply built_entries in Hb'. destruct Hb' as [Hn Hall].
    cbn [Analyzer.add_module].
    assert (Hl : exists l, Forall (fun m => exists p, is_module_entry m p) l /\
               exists d0, (if has_key "modules" d then d
                           else dict_set "modules" (JList []) d) = d0 /\
                 assoc "modules" d0 = Some (JList l) /\ built (JDict d0) /\
                 forall p, module_path_in (JDict d0) p <-> module_path_in (JDict d) p).
    { destruct (has_key "modules" d) eqn:Hk.
      - unfold has_key in Hk. destruct (assoc "modules" d) as [v |] eqn:Ha; [| discriminate].
        pose proof (assoc_In _ _ _ Ha) as Hin. rewrite Forall_forall in Hall.
        pose proof (Hall _ Hin) as Hv. unfold entry_built in Hv. cbn [fst snd] in Hv.
        change (String.eqb "modules" "modules") with true in Hv. cbv iota in Hv.
        destruct Hv as (l & Hv & Hl). subst v.
        exists l. split; [exact Hl |]. exists d. split; [reflexivity |].
        split; [exact Ha |]. split; [exact Hb |]. intros p. reflexivity.
      - exists []. split; [constructor |]. eexists. split; [reflexivity |].
        split; [apply assoc_dict_set_same |].
        split; [apply built_dict_set; [exists []; split; [reflexivity | constructor] | exact Hb] |].
        intros p. rewrite (module_path_in_set_modules [] d p Hn).
        rewrite (module_path_in_split "modules" d p Hn).
        unfold here, under. rewrite (has_key_false _ _ Hk). split.
        + intros [(md & [] & _) | H]; auto.
        + intros [(ms & md & H & _) | [[] | H]]; [discriminate | auto]. }
    destruct Hl as (l & Hl & d0 & -> & Ha & Hb0 & Heq). rewrite Ha.
    eexists. split; [reflexivity |].
    pose proof Hb0 as Hb0'. apply built_entries in Hb0'. destruct Hb0' as [Hn0 Hall0].
    split.
    + apply built_dict_set; [| exact Hb0]. eexists. split; [reflexivity |].
      apply Forall_app. split; [exact Hl |]. constructor; [| constructor].
      exists q, name, subs. auto.
    + intros p. rewrite (module_path_in_set_modules _ d0 p Hn0), <- Heq.
      rewrite (module_path_in_split "modules" d0 p Hn0).
      unfold here, under. rewrite Ha. split.
      * intros [(md & Hin & Hp & Hne) | H]; [| auto].
        apply in_app_or in Hin. destruct Hin as [Hin | [Hin | []]].
        -- left. left. exists l, md. auto.
        -- right. symmetry in Hin. apply (entry_path_of name q subs md p Hin Hp).
      * intros [[(ms & md & [= <-] & Hin & Hp & Hne) | [H | H]] | ->].
        -- left. exists md. split; [apply in_or_app; left; exact Hin | auto].
        -- destruct (no_path_below_list _ _ H).
        -- auto.
        -- left. eexists. split; [apply in_or_app; right; left; reflexivity |].
           split; [reflexivity | exact Hq].
  - (* one directory down *)
    pose proof Hb as Hb'. apply built_entries in Hb'. destruct Hb' as [Hn Hall].
    cbn [forallb] in Hdirs. apply andb_true_iff in Hdirs. destruct Hdirs as [Hdir Hdirs].
    unfold reserved in Hdir. apply negb_true_iff, orb_false_iff in Hdir.
    destruct Hdir as [Hm Hp].
    assert (Hdm : dir <> "modules") by (intros ->; discriminate).
    cbn [Analyzer.add_module].
    set (fresh := JDict [("path", JStr ("./" ++ str_rel (firstn
                    (Analyzer.index_of dir rel_parts + 1) rel_parts)))]).
    assert (Hc : exists d0 child,
               (if has_key dir d then d else dict_set dir fresh d) = d0 /\
               assoc dir d0 = Some child /\ built child /\ built (JDict d0) /\
               forall p, module_path_in (JDict d0) p <-> module_path_in (JDict d) p).
    { destruct (has_key dir d) eqn:Hk.
      - unfold has_key in Hk. destruct (assoc dir d) as [v |] eqn:Ha; [| discriminate].
        pose proof (assoc_In _ _ _ Ha) as Hin. rewrite Forall_forall in Hall.
        pose proof (Hall _ Hin) as Hv. unfold entry_built in Hv. cbn [fst snd] in Hv.
        rewrite Hm, Hp in Hv. exists d, v. split; [reflexivity |].
        split; [exact Ha |]. split; [exact Hv |]. split; [exact Hb |].
        intros p. reflexivity.
      - assert (Hf : built fresh).
        { unfold fresh. apply built_entries. split.
          - constructor; [intros [] | constructor].
          - constructor; [| constructor]. eexists. reflexivity. }
        exists (dict_set dir fresh d), fresh. split; [reflexivity |].
        split; [apply assoc_dict_set_same |]. split; [exact Hf |].
        split; [apply built_dict_set; [unfold entry_built; cbn [fst snd]; rewrite Hm, Hp; exact Hf | exact Hb] |].
        intros p. rewrite (module_path_in_set_dir dir fresh d p Hn Hdm).
        rewrite (module_path_in_split dir d p Hn).
        unfold under. rewrite (has_key_false _ _ Hk).
        assert (Hnone : ~ module_path_in fresh p).
        { unfold fresh. intros H.
          inversion H as [? mods md ? Hmods | ? k v ? Hin Hv]; subst.
          - cbn in Hmods. discriminate.
          - destruct Hin as [[= <- <-] | []]. inversion Hv. }
        split; intros [H | [H | H]]; auto; contradiction. }
    destruct Hc as (d0 & child & -> & Ha & Hbc & Hb0 & Heq). rewrite Ha.
    destruct (IH child Hbc Hdirs Hq) as (child' & Hadd & Hbc' & Hpaths).
    rewrite Hadd. eexists. split; [reflexivity |].
    pose proof Hb0 as Hb0'. apply built_entries in Hb0'. destruct Hb0' as [Hn0 Hall0].
    split.
    + apply built_dict_set; [| exact Hb0].
      unfold entry_built. cbn [fst snd]. rewrite Hm, Hp. exact Hbc'.
    + intros p. rewrite (module_path_in_set_dir dir child' d0 p Hn0 Hdm), <- Heq.
      rewrite (module_path_in_split dir d0 p Hn0). unfold under. rewrite Ha.
      rewrite Hpaths. tauto.
Qed.

Variable project_path : Path.

Lemma dot_slash_nonempty (text : string) : "./" ++ text <> "".
Proof. discriminate. Qed.

Lemma build_from_built (deps : list (string * Path * list string)) (structure : json) :
  built structure ->
  (forall dep, In dep deps -> plain_dependency project_path dep) ->
  exists t, Analyzer.build_from project_path structure deps = Some t /\
            built t /\
            forall p, module_path_in t p <->
                      module_path_in structure p \/
                      exists dep, In dep deps /\
                                  dependency_text project_path dep = Some p.
Proof.
  revert structure. induction deps as [| [[name path] subs] deps IH];
    intros structure Hb Hplain.
  - exists structure. split; [reflexivity |]. split; [exact Hb |].
    intros p. split; [auto | intros [H | (dep & [] & _)]; exact H].
  - destruct (Hplain _ (or_introl eq_refl)) as (rel & Hrel & Hdirs).
    cbn [fst snd] in Hrel. cbn [Analyzer.build_from]. rewrite Hrel.
    destruct (add_module_built (removelast rel) rel (stem (last rel ""))
                ("./" ++ str_rel rel) subs structure Hb Hdirs (dot_slash_nonempty _))
      as (t1 & Hadd & Hb1 & Hp1).
    rewrite Hadd.
    destruct (IH t1 Hb1 (fun dep Hd => Hplain dep (or_intror Hd))) as (t & Ht & Hbt & Hp).
    exists t. split; [exact Ht |]. split; [exact Hbt |].
    intros p. rewrite Hp, Hp1. unfold dependency_text. split.
    + intros [[H | ->] | (dep & Hd & Hdep)].
      * auto.
      * right. exists (name, path, subs). split; [left; reflexivity |].
        cbn [fst snd]. rewrite Hrel. reflexivity.
      * right. exists dep. split; [right; exact Hd | exact Hdep].
    + intros [H | (dep & [<- | Hd] & Hdep)].
      * auto.
      * cbn [fst snd] in Hdep. rewrite Hrel in Hdep. injection Hdep as <-. auto.
      * right. exists dep. auto.
Qed.

(** X8.  From the resolved imports of a file to the edges of the graph: when the
    resolved files lie under directories not called [modules] or [path],
    the builder succeeds, and flattening the tree it builds gives, each
    once, exactly the path texts of the resolved files. *)
Theorem internal_dependencies_are_the_targets
    (deps : list (string * Path * list string)) :
  (forall dep, In dep deps -> plain_dependency project_path dep) ->
  exists t targets,
    Analyzer._build_inner_deps_structure project_path deps = Some t /\
    extract t = Some targets /\ NoDup targets /\
    forall p, In p targets <->
              exists dep, In dep deps /\ dependency_text project_path dep = Some p.
Proof.
  intros Hplain.
  assert (H0 : built (JDict [])) by (split; [constructor | exact I]).
  destruct (build_from_built deps (JDict []) H0 Hplain) as (t & Ht & Hb & Hp).
  destruct (extract_exact_on_built_trees t Hb) as (targets & Hex & Hn & Hin).
  exists t, targets. split; [exact Ht |]. split; [exact Hex |]. split; [exact Hn |].
  intros p. rewrite Hin, Hp. split; [| auto].
  intros [H | H]; [| exact H].
  inversion H as [? ? ? ? Hm Hi Hp' Hne | ? ? ? ? Hi Hv]; subst;
    [discriminate Hm | destruct Hi].
Qed.

Lemma add_module_not_dict (current : json) (dirs rel_parts : list string) (entry : json) :
  (forall d, current <> JDict d) ->
  Analyzer.add_module current dirs rel_parts entry = None.
Proof.
  intros H. destruct current as [| s | items | d]; destruct dirs; try reflexivity;
    destruct (H d eq_refl).
Qed.

Lemma add_module_under (d : list (string * json)) (dir : string) (child : json)
    (dirs rel_parts : list string) (entry : json) :
  assoc dir d = Some child -> (forall d', child <> JDict d') ->
  Analyzer.add_module (JDict d) (dir :: dirs) rel_parts entry = None.
Proof.
  intros Ha Hc. cbn [Analyzer.add_module]. unfold has_key. rewrite Ha. cbv iota.
  rewrite Ha. rewrite (add_module_not_dict child dirs rel_parts entry Hc). reflexivity.
Qed.

Lemma add_module_first_dir (dir : string) (dirs rel_parts : list string) (entry : json) :
  Analyzer.add_module (JDict []) (dir :: dirs) rel_parts entry =
  match Analyzer.add_module
          (JDict [("path", JStr ("./" ++ str_rel (firstn
                     (Analyzer.index_of dir rel_parts + 1) rel_parts)))])
          dirs rel_parts entry with
  | Some child => Some (JDict [(dir, child)])
  | None => None
  end.
Proof.
  cbn [Analyzer.add_module]. unfold has_key. cbn [assoc dict_set].
  rewrite String.eqb_refl.
  destruct (Analyzer.add_module _ dirs rel_parts entry); [| reflexivity].
  cbn [dict_set]. rewrite ?String.eqb_refl. reflexivity.
Qed.

Lemma removelast_cons_snoc {A : Type} (x y : A) (l : list A) :
  removelast (x :: l ++ [y]) = x :: removelast (l ++ [y]).
Proof.
  cbn [removelast]. destruct (l ++ [y])%list eqn:E; [| reflexivity].
  destruct l; discriminate.
Qed.

(** X9.  Directories called [modules] or [path] can make the builder raise: a
    module under a directory [modules] after a module of the project
    directory itself, and a module under a directory [path] that lies in
    another directory. *)
Theorem reserved_directory_names_raise
    (name1 name2 file1 : string) (subs1 subs2 : list string)
    (below : list string) (file2 top : string)
    (more : list (string * Path * list string)) :
  Analyzer._build_inner_deps_structure project_path
    ((name1, (project_path ++ [file1])%list, subs1)
     :: (name2, (project_path ++ "modules" :: below ++ [file2])%list, subs2)
     :: more) = None /\
  Analyzer._build_inner_deps_structure project_path
    ((name2, (project_path ++ top :: "path" :: below ++ [file2])%list, subs2)
     :: more) = None.
Proof.
  unfold Analyzer._build_inner_deps_structure. split.
  - cbn [Analyzer.build_from]. rewrite !relative_to_app. cbv beta iota zeta.
    change (removelast [file1]) with (@nil string).
    set (e1 := Analyzer.module_entry (stem (last [file1] "")) ("./" ++ str_rel [file1]) subs1).
    replace (Analyzer.add_module (JDict []) [] [file1] e1)
      with (Some (JDict [("modules", JList [e1])])) by reflexivity.
    cbv iota beta. rewrite removelast_cons_snoc.
    rewrite (add_module_under [("modules", JList [e1])] "modules" (JList [e1]));
      [reflexivity | reflexivity | discriminate].
  - cbn [Analyzer.build_from]. rewrite !relative_to_app. cbv beta iota zeta.
    assert (E : removelast (top :: "path" :: below ++ [file2])
                = top :: "path" :: removelast (below ++ [file2])).
    { transitivity (top :: removelast ("path" :: below ++ [file2])).
      - exact (removelast_cons_snoc top file2 ("path" :: below)).
      - f_equal. exact (removelast_cons_snoc "path" file2 below). }
    rewrite E, add_module_first_dir.
    erewrite add_module_under; [reflexivity | reflexivity | discriminate].
Qed.

End TreeFacts.

Lemma tree_of_a_built : DependencyTree.built tree_of_a.
Proof.
  split.
  - repeat constructor; simpl; intuition discriminate.
  - split; [| split; [| exact I]].
    + eexists. split; [reflexivity |]. repeat constructor.
      exists "./b.py", "b", []. split; [reflexivity | discriminate].
    + split.
      * repeat constructor; simpl; intuition discriminate.
      * split; [eexists; reflexivity |]. split; [| exact I].
        eexists. split; [reflexivity |]. repeat constructor.
        exists "./pkg/c.py", "c", ["K"]. split; [reflexivity | discriminate].
Qed.

Lemma extract_exact_on_built_trees_witness :
  exists targets,
    Aggregator.extract_internal_module_paths (nodup string_dec) tree_of_a = Some targets /\
    NoDup targets /\
    forall p, In p targets <-> Aggregator.module_path_in tree_of_a p.
Proof.
  exact (extract_exact_on_built_trees (nodup string_dec) (NoDup_nodup string_dec)
           (fun l x => nodup_In string_dec l x) tree_of_a tree_of_a_built).
Defined.

Lemma deps_of_a_plain (dep : string * Path * list string) :
  In dep deps_of_a -> DependencyTree.plain_dependency ["proj"] dep.
Proof.
  intros [<- | [<- | []]]; eexists; split; reflexivity.
Qed.

Lemma internal_dependencies_are_the_targets_witness :
  Analyzer._build_inner_deps_structure ["proj"] deps_of_a = Some tree_of_a /\
  exists t targets,
    Analyzer._build_inner_deps_structure ["proj"] deps_of_a = Some t /\
    Aggregator.extract_internal_module_paths (nodup string_dec) t = Some targets /\
    NoDup targets /\
    forall p, In p targets <->
              exists dep, In dep deps_of_a /\
                          DependencyTree.dependency_text ["proj"] dep = Some p.
Proof.
  split; [reflexivity |].
  exact (internal_dependencies_are_the_targets (nodup string_dec)
           (NoDup_nodup string_dec) (fun l x => nodup_In string_dec l x)
           ["proj"] deps_of_a deps_of_a_plain).
Defined.

(* ================================================================== *)
(** * Further properties of the error locator *)
(* ================================================================== *)

Section LocatorMore.
Import ErrorLocator LocatorSpec.

Lemma edge_distance_nonneg (line_num lo hi : Z) : (0 <= edge_distance line_num lo hi)%Z.
Proof. unfold edge_distance. lia. Qed.

Lemma scan_method_state (cs : list (string * cls_data)) (line_num : Z)
    (c : string) (cls : cls_data) (m : string * func_data) (b : best) :
  In (c, cls) cs -> class_contains line_num cls = true ->
  In m (get (c_methods cls) []) ->
  class_scan_state cs line_num b ->
  class_scan_state cs line_num
    (scan_method line_num c (get (c_start_line cls) 0%Z) (get (c_end_line cls) 0%Z) b m).
Proof.
  intros Hc Hin Hm Hb. unfold scan_method, update.
  destruct (within _ line_num _) eqn:Hw; destruct (dist_lt _ _); try exact Hb.
  - right. right. exists (fst m), c. split; [| reflexivity].
    exists cls, (snd m). repeat split; auto. destruct m; exact Hm.
  - right. left. exists c, cls. auto.
Qed.

Lemma scan_methods_state (cs : list (string * cls_data)) (line_num : Z)
    (c : string) (cls : cls_data) (ms : list (string * func_data)) (b : best) :
  In (c, cls) cs -> class_contains line_num cls = true ->
  incl ms (get (c_methods cls) []) ->
  class_scan_state cs line_num b ->
  class_scan_state cs line_num
    (fold_left (scan_method line_num c (get (c_start_line cls) 0%Z)
                            (get (c_end_line cls) 0%Z)) ms b).
Proof.
  intros Hc Hin. revert b. induction ms as [| m ms IH]; intros b Hincl Hb; [exact Hb |].
  cbn [fold_left]. apply IH; [intros x Hx; apply Hincl; right; exact Hx |].
  apply scan_method_state; auto. apply Hincl. left. reflexivity.
Qed.

Lemma scan_class_state (cs : list (string * cls_data)) (line_num : Z)
    (e : string * cls_data) (b : best) :
  In e cs -> class_scan_state cs line_num b ->
  class_scan_state cs line_num (scan_class line_num b e).
Proof.
  intros He Hb. destruct e as [c cls]. unfold scan_class. cbn [fst snd].
  destruct (within _ line_num _) eqn:Hw; [| exact Hb].
  apply scan_methods_state; auto. apply incl_refl.
Qed.

Lemma scan_classes_state (cs all : list (string * cls_data)) (line_num : Z) (b : best) :
  incl cs all -> class_scan_state all line_num b ->
  class_scan_state all line_num (fold_left (scan_class line_num) cs b).
Proof.
  revert b. induction cs as [| e cs IH]; intros b Hincl Hb; [exact Hb |].
  cbn [fold_left]. apply IH; [intros x Hx; apply Hincl; right; exact Hx |].
  apply scan_class_state; [apply Hincl; left; reflexivity | exact Hb].
Qed.

(** Once something is recorded, something stays recorded. *)
Lemma update_some (dist : Z) (descr : string) (b : best) :
  best_match b <> None -> best_match (update dist descr b) <> None.
Proof.
  unfold update. destruct (dist_lt _ _); [discriminate | auto].
Qed.

Lemma scan_method_records (line_num : Z) (c : string) (lo hi : Z)
    (m : string * func_data) (b : best) :
  b = (None, Inf) \/ best_match b <> None ->
  best_match (scan_method line_num c lo hi b m) <> None.
Proof.
  intros [-> | Hb]; unfold scan_method.
  - destruct (within _ line_num _); discriminate.
  - destruct (within _ line_num _); apply update_some, Hb.
Qed.

Lemma scan_methods_some (line_num : Z) (c : string) (lo hi : Z)
    (ms : list (string * func_data)) (b : best) :
  best_match b <> None ->
  best_match (fold_left (scan_method line_num c lo hi) ms b) <> None.
Proof.
  revert b. induction ms as [| m ms IH]; intros b Hb; [exact Hb |].
  cbn [fold_left]. apply IH. unfold scan_method.
  destruct (within _ line_num _); apply update_some, Hb.
Qed.

Lemma scan_classes_some (line_num : Z) (cs : list (string * cls_data)) (b : best) :
  best_match b <> None ->
  best_match (fold_left (scan_class line_num) cs b) <> None.
Proof.
  revert b. induction cs as [| e cs IH]; intros b Hb; [exact Hb |].
  cbn [fold_left]. apply IH. unfold scan_class.
  destruct (within _ line_num _); [apply scan_methods_some, Hb | exact Hb].
Qed.

Lemma or_default_method (mn c : string) :
  or_default (Some ("Method " ++ mn ++ " of class " ++ c))
  = "Method " ++ mn ++ " of class " ++ c.
Proof. reflexivity. Qed.

Lemma or_default_inside (c : string) :
  or_default (Some ("Inside class " ++ c)) = "Inside class " ++ c.
Proof. reflexivity. Qed.

(** X10.  A class that contains the line and has at least one method settles the
    answer among the classes: the result names a class that contains the
    line, or a method of such a class that contains the line, and the
    top-level functions are not consulted, not even one that contains the
    line. *)
Theorem class_with_methods_shadows_functions (info : json_info) (line_num : Z)
    (c : string) (cls : cls_data) (m : string * func_data)
    (ms : list (string * func_data)) :
  In (c, cls) (get (classes info) []) ->
  class_contains line_num cls = true ->
  c_methods cls = Some (m :: ms) ->
  (exists c' cls', In (c', cls') (get (classes info) []) /\
     class_contains line_num cls' = true /\
     find_nearest_entity info line_num = "Inside class " ++ c') \/
  (exists mn c', method_of (get (classes info) []) line_num mn c' /\
     find_nearest_entity info line_num = "Method " ++ mn ++ " of class " ++ c').
Proof.
  intros Hin Hc Hm. unfold find_nearest_entity, scan_classes.
  set (cs := get (classes info) []) in *.
  destruct (in_split _ _ Hin) as (pre & post & Hsplit).
  assert (Hstate : class_scan_state cs line_num
                     (fold_left (scan_class line_num) cs (None, Inf)))
    by (apply scan_classes_state; [apply incl_refl | left; reflexivity]).
  assert (Hsome : best_match (fold_left (scan_class line_num) cs (None, Inf)) <> None).
  { rewrite Hsplit, fold_left_app. cbn [fold_left]. apply scan_classes_some.
    set (b0 := fold_left (scan_class line_num) pre (None, Inf)).
    assert (Hb0 : class_scan_state cs line_num b0).
    { apply scan_classes_state; [| left; reflexivity].
      rewrite Hsplit. intros x Hx. apply in_or_app. left. exact Hx. }
    unfold scan_class. cbn [fst snd]. unfold class_contains in Hc. rewrite Hc, Hm.
    cbn [get fold_left]. apply scan_methods_some.
    apply scan_method_records.
    destruct Hb0 as [-> | [(c1 & cls1 & _ & _ & ->) | (mn & c1 & _ & ->)]];
      [left; reflexivity | right; discriminate | right; discriminate]. }
  destruct Hstate as [E | [(c1 & cls1 & H1 & H2 & E) | (mn & c1 & H1 & E)]].
  - rewrite E in Hsome. contradiction Hsome. reflexivity.
  - left. exists c1, cls1. rewrite E. cbn [best_match fst].
    split; [exact H1 |]. split; [exact H2 | apply or_default_inside].
  - right. exists mn, c1. rewrite E. cbn [best_match fst].
    split; [exact H1 | apply or_default_method].
Qed.

(** A match at distance 0 is never replaced. *)
Lemma scan_method_at_zero (line_num : Z) (c : string) (lo hi : Z)
    (m : string * func_data) (b : best) :
  best_distance b = Fin 0%Z -> scan_method line_num c lo hi b m = b.
Proof.
  intros Hb. unfold scan_method, update. rewrite Hb. cbn [dist_lt].
  destruct (within _ line_num _); [reflexivity |].
  pose proof (edge_distance_nonneg line_num lo hi).
  destruct (edge_distance line_num lo hi <? 0)%Z eqn:E; [| reflexivity].
  apply Z.ltb_lt in E. lia.
Qed.

Lemma scan_methods_at_zero (line_num : Z) (c : string) (lo hi : Z)
    (ms : list (string * func_data)) (b : best) :
  best_distance b = Fin 0%Z -> fold_left (scan_method line_num c lo hi) ms b = b.
Proof.
  intros Hb. induction ms as [| m ms IH]; [reflexivity |].
  cbn [fold_left]. rewrite scan_method_at_zero by exact Hb. exact IH.
Qed.

Lemma scan_classes_at_zero (line_num : Z) (cs : list (string * cls_data)) (b : best) :
  best_distance b = Fin 0%Z -> fold_left (scan_class line_num) cs b = b.
Proof.
  intros Hb. induction cs as [| e cs IH]; [reflexivity |].
  cbn [fold_left]. unfold scan_class at 2.
  destruct (within _ line_num _); [rewrite scan_methods_at_zero by exact Hb |]; exact IH.
Qed.

(** X11.  A line that lies in a method of a class, and is not the first or last
    line of a class that contains it, is located in a method that contains
    it: containment wins over the distance to the ends of the class. *)
Theorem line_inside_method_is_located (info : json_info) (line_num : Z)
    (mn c : string) :
  strictly_inside (get (classes info) []) line_num ->
  method_of (get (classes info) []) line_num mn c ->
  exists mn' c', method_of (get (classes info) []) line_num mn' c' /\
    find_nearest_entity info line_num = "Method " ++ mn' ++ " of class " ++ c'.
Proof.
  intros Hstrict (cls & md & Hin & Hc & Hm & Hw).
  unfold find_nearest_entity, scan_classes.
  set (cs := get (classes info) []) in *.
  assert (Hfinal : method_matched cs line_num
                     (fold_left (scan_class line_num) cs (None, Inf))).
  { destruct (in_split _ _ Hin) as (pre & post & Hsplit).
    destruct (in_split _ _ Hm) as (mpre & mpost & Hmsplit).
    assert (Hb0 : class_scan_state cs line_num
                    (fold_left (scan_class line_num) pre (None, Inf))).
    { apply scan_classes_state; [| left; reflexivity].
      rewrite Hsplit. intros x Hx. apply in_or_app. left. exact Hx. }
    set (b0 := fold_left (scan_class line_num) pre (None, Inf)) in *.
    set (lo := get (c_start_line cls) 0%Z). set (hi := get (c_end_line cls) 0%Z).
    assert (Hb1 : class_scan_state cs line_num
                    (fold_left (scan_method line_num c lo hi) mpre b0)).
    { apply scan_methods_state; auto.
      rewrite Hmsplit. intros x Hx. apply in_or_app. left. exact Hx. }
    set (b1 := fold_left (scan_method line_num c lo hi) mpre b0) in *.
    assert (Hb2 : method_matched cs line_num (scan_method line_num c lo hi b1 (mn, md))).
    { unfold scan_method. cbn [fst snd]. unfold func_contains in Hw. rewrite Hw.
      unfold update.
      destruct Hb1 as [-> | [(c1 & cls1 & H1 & H2 & ->) | (mn1 & c1 & H1 & ->)]];
        cbn [best_distance snd dist_lt].
      - exists mn, c. split; [exists cls, md; auto | reflexivity].
      - pose proof (Hstrict c1 cls1 H1 H2) as Hpos. apply Z.ltb_lt in Hpos.
        rewrite Hpos. exists mn, c. split; [exists cls, md; auto | reflexivity].
      - rewrite Z.ltb_irrefl. exists mn1, c1. auto. }
    assert (Hzero : forall b, method_matched cs line_num b -> best_distance b = Fin 0%Z)
      by (intros b (mn1 & c1 & _ & ->); reflexivity).
    rewrite Hsplit, fold_left_app. cbn [fold_left]. fold b0.
    unfold scan_class at 2. cbn [fst snd]. unfold class_contains in Hc.
    fold lo hi. fold lo hi in Hc. rewrite Hc, Hmsplit, fold_left_app. cbn [fold_left]. fold b1.
    rewrite (scan_methods_at_zero _ _ _ _ mpost _ (Hzero _ Hb2)).
    rewrite (scan_classes_at_zero _ post _ (Hzero _ Hb2)). rewrite <- Hsplit. exact Hb2. }
  destruct Hfinal as (mn1 & c1 & H1 & ->). cbn [best_match fst].
  exists mn1, c1. split; [exact H1 | apply or_default_method].
Qed.

End LocatorMore.

Lemma class_with_methods_shadows_functions_witness :
  ErrorLocator.find_nearest_entity ErrorLocator.spec_example 30 = "Inside class C" /\
  ((exists c' cls', In (c', cls') (get (ErrorLocator.classes ErrorLocator.spec_example) []) /\
      ErrorLocator.class_contains 30 cls' = true /\
      ErrorLocator.find_nearest_entity ErrorLocator.spec_example 30 = "Inside class " ++ c') \/
   (exists mn c', LocatorSpec.method_of (get (ErrorLocator.classes ErrorLocator.spec_example) []) 30 mn c' /\
      ErrorLocator.find_nearest_entity ErrorLocator.spec_example 30
        = "Method " ++ mn ++ " of class " ++ c')).
Proof.
  split; [reflexivity |].
  apply (class_with_methods_shadows_functions ErrorLocator.spec_example 30 "C"
           (ErrorLocator.mk_cls (Some 10%Z) (Some 40%Z)
              (Some [("m", ErrorLocator.mk_func (Some 15%Z) (Some 20%Z))]))
           ("m", ErrorLocator.mk_func (Some 15%Z) (Some 20%Z)) []);
    [left; reflexivity | reflexivity | reflexivity].
Defined.

Lemma spec_example_strictly_inside :
  LocatorSpec.strictly_inside (get (ErrorLocator.classes ErrorLocator.spec_example) []) 17.
Proof.
  intros c cls [[= <- <-] | []] _. vm_compute. reflexivity.
Qed.

Lemma line_inside_method_is_located_witness :
  ErrorLocator.find_nearest_entity ErrorLocator.spec_example 17 = "Method m of class C" /\
  exists mn' c', LocatorSpec.method_of (get (ErrorLocator.classes ErrorLocator.spec_example) []) 17 mn' c' /\
    ErrorLocator.find_nearest_entity ErrorLocator.spec_example 17
      = "Method " ++ mn' ++ " of class " ++ c'.
Proof.
  split; [reflexivity |].
  apply (line_inside_method_is_located ErrorLocator.spec_example 17 "m" "C"
           spec_example_strictly_inside).
  exists (ErrorLocator.mk_cls (Some 10%Z) (Some 40%Z)
            (Some [("m", ErrorLocator.mk_func (Some 15%Z) (Some 20%Z))])),
         (ErrorLocator.mk_func (Some 15%Z) (Some 20%Z)).
  repeat split; left; reflexivity.
Defined.

(* ================================================================== *)
(** * Properties of the code excerpt *)
(* ================================================================== *)

Section ExcerptFacts.
Import Excerpt.
Local Open Scope Z_scope.

Lemma range_from_spec (count : nat) (start i : Z) :
  In i (range_from start count) <-> start <= i < start + Z.of_nat count.
Proof.
  revert start. induction count as [| k IH]; intros start; cbn [range_from In].
  - lia.
  - rewrite IH. lia.
Qed.

Lemma range_from_NoDup (count : nat) (start : Z) : NoDup (range_from start count).
Proof.
  revert start. induction count as [| k IH]; intros start; cbn [range_from];
    constructor; [| apply IH].
  rewrite range_from_spec. lia.
Qed.

Lemma range_from_length (count : nat) (start : Z) :
  length (range_from start count) = count.
Proof.
  revert start. induction count as [| k IH]; intros start; cbn [range_from length];
    [reflexivity | f_equal; apply IH].
Qed.

Lemma range_spec (start stop i : Z) : In i (range start stop) <-> start <= i < stop.
Proof.
  unfold range. rewrite range_from_spec. lia.
Qed.

Lemma range_from_increasing (count : nat) (start : Z) :
  forall k j, (k < j < count)%nat ->
    nth k (range_from start count) 0 < nth j (range_from start count) 0.
Proof.
  assert (Hnth : forall count start k, (k < count)%nat ->
            nth k (range_from start count) 0 = start + Z.of_nat k).
  { clear. induction count as [| c IH]; intros start k Hk; [lia |].
    destruct k as [| k]; cbn [range_from nth]; [lia |].
    rewrite IH by lia. lia. }
  intros k j Hkj. rewrite !Hnth by lia. lia.
Qed.

(** X12.  The excerpt shows exactly the lines of the file at most [context] lines
    away from the error line, in the order of the file and each once, so at
    most [2 * context + 1] lines, and it reads no line that is not there.
    The marker [>> ] is put on the error line and on no other; the error
    line is shown exactly when the file has it. *)
Theorem excerpt_shows_the_context (lines : list string) (line_num context : Z) :
  0 <= context ->
  let indices := excerpt_indices lines line_num context in
  get_code_excerpt lines line_num context = map (excerpt_line lines line_num) indices /\
  (forall i, In i indices <->
     0 <= i < Z.of_nat (length lines) /\ - context <= i + 1 - line_num <= context) /\
  (forall k j, (k < j < length indices)%nat -> nth k indices 0 < nth j indices 0) /\
  Z.of_nat (length (get_code_excerpt lines line_num context)) <= 2 * context + 1 /\
  (forall i, substring 0 3 (excerpt_line lines line_num i) = ">> " <->
             i + 1 = line_num) /\
  (In (line_num - 1) indices <-> 1 <= line_num <= Z.of_nat (length lines)).
Proof.
  intros Hc indices. subst indices. unfold get_code_excerpt, excerpt_indices.
  split; [reflexivity |]. split; [| split; [| split; [| split]]].
  - intros i. rewrite range_spec. lia.
  - unfold range. rewrite range_from_length. apply range_from_increasing.
  - rewrite length_map. unfold range. rewrite range_from_length. lia.
  - intros i. unfold excerpt_line. cbv zeta.
    destruct (i + 1 =? line_num) eqn:E; cbn [String.append substring].
    + apply Z.eqb_eq in E. split; [intros _; exact E | intros _].
      destruct (str_int _ ++ _)%string; reflexivity.
    + apply Z.eqb_neq in E. split; [| contradiction].
      destruct (str_int _ ++ _)%string; discriminate.
  - rewrite range_spec. lia.
Qed.

End ExcerptFacts.

(** The excerpt of a three-line file around its line 2, with one line of
    context. *)
Lemma excerpt_shows_the_context_witness :
  Excerpt.get_code_excerpt ["import os"; "x = 1 / 0"; "print(x)"] 2 1 =
    ["   1: import os"; ">> 2: x = 1 / 0"; "   3: print(x)"] /\
  (In 1%Z (Excerpt.excerpt_indices ["import os"; "x = 1 / 0"; "print(x)"] 2 1) <->
   (1 <= 2 <= 3)%Z).
Proof.
  split; [reflexivity |].
  assert (H : (0 <= 1)%Z) by lia.
  exact (proj2 (proj2 (proj2 (proj2 (proj2
    (excerpt_shows_the_context ["import os"; "x = 1 / 0"; "print(x)"] 2 1 H)))))).
Defined.

(* ================================================================== *)
(** * Further properties of the traversal *)
(* ================================================================== *)

Section TraversalMore.
Import FileSystem ImportResolver Json Analyzer Aggregator DependencyTree TraversalSpec.
Variable fs : fsnode source.
Variable project_path : Path.
Variable max_depth : option Z.

Local Notation "'analyze_file'" := (_recursive_analyze_file fs project_path max_depth).
Local Notation "'recurse'" := (_recurse_inner_dependencies fs project_path).

Lemma maintains_Return (Q : state -> Prop) : maintains Q Return.
Proof. intros st H. exact H. Qed.

Lemma maintains_bind (Q : state -> Prop) (f g : state -> outcome) :
  maintains Q f -> maintains Q g -> maintains Q (fun st => bind (f st) g).
Proof.
  intros Hf Hg st Hst. specialize (Hf st Hst).
  destruct (f st) as [st1 | |]; simpl; auto. apply Hg, Hf.
Qed.

Lemma maintains_for_each {A : Type} (Q : state -> Prop) (body : A -> state -> outcome)
    (l : list A) :
  Forall (fun x => maintains Q (body x)) l -> maintains Q (for_each body l).
Proof.
  induction 1 as [| x l Hx Hl IH]; [apply maintains_Return |].
  cbn [for_each]. apply (maintains_bind Q (body x) (for_each body l)); assumption.
Qed.

Section Callee.
Variable Q : state -> Prop.
Variable rec : Path -> Z -> state -> outcome.
Variable depth : Z.
Variable allowed : string -> Prop.
Hypothesis Hrec : forall text,
  allowed text -> exists_ fs (module_file project_path text) = true ->
  maintains Q (rec (module_file project_path text) (depth + 1)%Z).

Lemma maintains_analyze_module (mod_ : list (string * json)) :
  (forall text, assoc "path" mod_ = Some (JStr text) -> text <> "" -> allowed text) ->
  maintains Q (analyze_module fs project_path rec mod_ depth).
Proof.
  intros Hpath st Hst. unfold analyze_module.
  destruct (assoc "path" mod_) as [mod_path |]; [| exact Hst].
  destruct (Json.truthy mod_path) eqn:Ht; [| exact Hst].
  destruct mod_path as [| text | items | entries]; try exact I.
  destruct (exists_ fs _) eqn:Hex; [| exact Hst].
  apply (Hrec text); [| exact Hex | exact Hst].
  apply Hpath; [reflexivity |]. intros ->. discriminate Ht.
Qed.

Lemma maintains_analyze_modules (mods : list json) :
  (forall mod_ text, In (JDict mod_) mods ->
     assoc "path" mod_ = Some (JStr text) -> text <> "" -> allowed text) ->
  maintains Q (analyze_modules fs project_path rec mods depth).
Proof.
  induction mods as [| m mods IH]; intros Hall; [apply maintains_Return |].
  destruct m as [| s | items | mod_]; try (intros st _; exact I).
  cbn [analyze_modules].
  apply (maintains_bind Q (analyze_module fs project_path rec mod_ depth)
           (analyze_modules fs project_path rec mods depth)).
  - apply maintains_analyze_module. intros text. apply Hall. left. reflexivity.
  - apply IH. intros mod' text Hin. apply Hall. right. exact Hin.
Qed.

Lemma maintains_analyze_dict_items (mods : list json) :
  (forall mod_ text, In (JDict mod_) mods ->
     assoc "path" mod_ = Some (JStr text) -> text <> "" -> allowed text) ->
  maintains Q (analyze_dict_items fs project_path rec mods depth).
Proof.
  induction mods as [| m mods IH]; intros Hall; [apply maintains_Return |].
  assert (Hrest : maintains Q (analyze_dict_items fs project_path rec mods depth)).
  { apply IH. intros mod' text Hin. apply Hall. right. exact Hin. }
  destruct m as [| s | items | mod_]; try exact Hrest.
  cbn [analyze_dict_items].
  apply (maintains_bind Q (analyze_module fs project_path rec mod_ depth)
           (analyze_dict_items fs project_path rec mods depth)); [| exact Hrest].
  apply maintains_analyze_module. intros text. apply Hall. left. reflexivity.
Qed.

(** Whatever the shape of the tree, the loop only ever calls the analysis. *)
Lemma maintains_recurse_any (deps : json) :
  (forall text, allowed text) -> maintains Q (recurse rec deps depth).
Proof.
  intros Hall.
  induction deps as [| s | items _ | entries IH] using json_induction;
    try (intros st _; exact I).
  intros st Hst. rewrite recurse_JDict. revert st Hst.
  apply maintains_for_each. apply Forall_forall. intros [key val] Hin.
  rewrite Forall_forall in IH. specialize (IH (key, val) Hin). cbn [snd] in IH.
  unfold recurse_item. cbn [fst snd].
  destruct val as [| s | mods | val_entries].
  - apply maintains_Return.
  - apply maintains_Return.
  - destruct (String.eqb key "modules");
      [apply maintains_analyze_modules | apply maintains_analyze_dict_items]; auto.
  - destruct (assoc "modules" val_entries) as [[| s | mods | d] |];
      try exact IH. apply maintains_analyze_modules; auto.
Qed.

Lemma modules_list_paths (entries : list (string * json)) (v : json) :
  assoc "modules" entries = Some v -> is_modules_list v ->
  exists mods, v = JList mods /\
    forall mod_ text, In (JDict mod_) mods ->
      assoc "path" mod_ = Some (JStr text) -> text <> "" ->
      followed (JDict entries) text.
Proof.
  intros Ha (mods & -> & Hmods). exists mods. split; [reflexivity |].
  intros mod_ text Hin Hp Hne.
  exact (followed_here entries mods mod_ text Ha Hin Hp Hne).
Qed.

(** On a tree of the builder, the loop calls the analysis on the module
    paths that the tree has it follow, and on no other. *)
Lemma maintains_recurse_built (deps : json) :
  built deps -> (forall text, followed deps text -> allowed text) ->
  maintains Q (recurse rec deps depth).
Proof.
  induction deps as [| s | items _ | entries IH] using json_induction;
    try (intros []; fail).
  intros Hb Hall st Hst. rewrite recurse_JDict. revert st Hst.
  apply built_entries in Hb. destruct Hb as [Hnd Hentries].
  apply maintains_for_each. apply Forall_forall. intros [key val] Hin.
  rewrite Forall_forall in IH. specialize (IH (key, val) Hin). cbn [snd] in IH.
  rewrite Forall_forall in Hentries. pose proof (Hentries (key, val) Hin) as He.
  unfold entry_built in He. cbn [fst snd] in He.
  unfold recurse_item. cbn [fst snd].
  destruct (String.eqb key "modules") eqn:Ek.
  - apply String.eqb_eq in Ek. subst key.
    destruct (modules_list_paths entries val (In_assoc _ _ _ Hnd Hin) He)
      as (mods & -> & Hpaths).
    apply maintains_analyze_modules. intros mod_ text H1 H2 H3.
    apply Hall. exact (Hpaths mod_ text H1 H2 H3).
  - destruct (String.eqb key "path").
    + destruct He as [s ->]. apply maintains_Return.
    + destruct val as [| s | mods | val_entries]; try (destruct He; fail).
      pose proof (proj1 (built_entries val_entries) He) as [Hnd' Hentries'].
      destruct (assoc "modules" val_entries) as [v |] eqn:Ea.
      * assert (Hv : is_modules_list v).
        { rewrite Forall_forall in Hentries'.
          exact (Hentries' ("modules", v) (assoc_In _ _ _ Ea)). }
        destruct Hv as (mods & -> & _).
        apply maintains_analyze_modules. intros mod_ text H1 H2 H3.
        apply Hall.
        exact (followed_directory entries key val_entries mods mod_ text
                 Hin Ea H1 H2 H3).
      * apply (IH He). intros text Ht. apply Hall.
        exact (followed_below entries key val_entries text Hin Ea Ht).
Qed.

End Callee.

Section Invariant.
Variable Q : state -> Prop.
Variable R : Path -> Z -> Prop.
Variable allowed : file_info -> string -> Prop.

Hypothesis Hadd : forall p depth info rel st,
  R p depth -> depth_exceeded max_depth depth = false ->
  Q st -> ~ In p (visited st) ->
  _analyze_single_file fs project_path p = Some info ->
  relative_to p project_path = Some rel ->
  Q (mk_state (p :: visited st) ((p, info) :: written st)).

Hypothesis Hnext : forall p depth info text,
  R p depth -> depth_exceeded max_depth depth = false ->
  _analyze_single_file fs project_path p = Some info ->
  allowed info text -> exists_ fs (module_file project_path text) = true ->
  R (module_file project_path text) (depth + 1)%Z.

Hypothesis Hcalls : forall p info rec depth,
  _analyze_single_file fs project_path p = Some info ->
  (forall text, allowed info text ->
     exists_ fs (module_file project_path text) = true ->
     maintains Q (rec (module_file project_path text) (depth + 1)%Z)) ->
  maintains Q (recurse rec (dependencies_of info) depth).

Lemma maintains_analyze_file (fuel : nat) (p : Path) (depth : Z) :
  R p depth -> maintains Q (analyze_file fuel p depth).
Proof.
  revert p depth. induction fuel as [| fuel IH]; intros p depth HR st Hst; [exact I |].
  cbn [_recursive_analyze_file].
  destruct (depth_exceeded max_depth depth) eqn:Hd; [exact Hst |].
  destruct (is_visited p st) eqn:Hvis; [exact Hst |].
  apply is_visited_false in Hvis.
  destruct (_analyze_single_file fs project_path p) as [info |] eqn:Hinfo; [| exact I].
  unfold _write_file_info_to_json.
  destruct (relative_to p project_path) as [rel |] eqn:Hrel; [| exact I].
  cbn [bind visited written].
  apply (Hcalls p info (analyze_file fuel) depth Hinfo).
  - intros text Ha Hex. apply IH. exact (Hnext p depth info text HR Hd Hinfo Ha Hex).
  - exact (Hadd p depth info rel st HR Hd Hst Hvis Hinfo Hrel).
Qed.

End Invariant.

Lemma analysis_of_file (p : Path) (info : file_info) :
  _analyze_single_file fs project_path p = Some info ->
  exists src, fs_lookup fs p = Some (File src).
Proof.
  unfold _analyze_single_file.
  destruct (fs_lookup fs p) as [[src | entries] |]; try discriminate.
  intros _. exists src. reflexivity.
Qed.

(** X13.  Every record that the traversal has written when it returns is
    the record that [_analyze_single_file] gives for the file it is stored
    for, and that file is a file of the file system below the project
    directory: nothing is written for a directory, for a missing file or for
    a file outside the project. *)
Theorem written_records_are_the_analyses (fuel : nat) (entry_file : Path) :
  match analyze_from_entry fs project_path max_depth fuel entry_file with
  | Return st =>
      forall p info, In (p, info) (written st) ->
        _analyze_single_file fs project_path p = Some info /\
        (exists src, fs_lookup fs p = Some (File src)) /\
        (exists rel, relative_to p project_path = Some rel)
  | _ => True
  end.
Proof.
  unfold analyze_from_entry.
  assert (H0 : faithful fs project_path init_state) by (intros p info []).
  destruct (exists_ fs entry_file); [| exact H0].
  refine (maintains_analyze_file (faithful fs project_path) (fun _ _ => True)
            (fun _ _ => True) _ _ _ fuel entry_file 0%Z I init_state H0).
  - intros p depth info rel st _ _ Hst _ Hinfo Hrel q info' [[= <- <-] | Hin].
    + split; [exact Hinfo |]. split; [exact (analysis_of_file p info Hinfo) |].
      exists rel. exact Hrel.
    + exact (Hst q info' Hin).
  - intros; exact I.
  - intros p info rec depth _ Hrec.
    apply (maintains_recurse_any (faithful fs project_path) rec depth (fun _ => True));
      auto.
Qed.

Lemma classify_imports_resolved (imports : list string)
    (dep : string * Path * list string) :
  In dep (fst (_classify_imports fs project_path imports)) ->
  exists imp, In imp imports /\ _resolve_import fs project_path imp = Some dep.
Proof.
  induction imports as [| imp rest IH]; [intros [] |].
  cbn [_classify_imports].
  destruct (_classify_imports fs project_path rest) as [internal external].
  cbn [fst] in IH.
  destruct (_resolve_import fs project_path imp) as [r |] eqn:E; cbn [fst].
  - intros [<- | Hin].
    + exists imp. split; [left; reflexivity | exact E].
    + destruct (IH Hin) as (imp' & H1 & H2). exists imp'. split; [right |]; assumption.
  - intros Hin. destruct (IH Hin) as (imp' & H1 & H2).
    exists imp'. split; [right |]; assumption.
Qed.

Lemma resolve_import_file (imp : string) (dep : string * Path * list string) :
  _resolve_import fs project_path imp = Some dep ->
  exists_ fs (snd (fst dep)) = true /\
  exists dirs file, snd (fst dep) = (project_path ++ dirs ++ [file])%list /\
    (file = fst (fst dep) ++ ".py" \/ file = "__init__.py").
Proof.
  unfold _resolve_import. intros H.
  apply (try_prefixes_spec fs project_path) in H; [| apply Nat.le_refl].
  destruct H as (k & f & Hk & Hfind & _ & ->). cbn [fst snd].
  exact (find_module_file_sound _ _ _ _ Hfind).
Qed.

Lemma plain_project_dirs (q rel : Path) :
  plain_project fs project_path = true ->
  exists_ fs q = true -> relative_to q project_path = Some rel ->
  forallb (fun d => negb (reserved d)) (removelast rel) = true.
Proof.
  unfold plain_project. rewrite forallb_forall. intros Hplain Hex Hrel.
  assert (Hin : In q (all_paths fs)).
  { unfold exists_ in Hex. destruct (fs_lookup fs q) as [n |] eqn:E; [| discriminate].
    exact (fs_lookup_all_paths fs n q E). }
  specialize (Hplain q Hin). rewrite Hrel in Hplain. exact Hplain.
Qed.

(** In a project without reserved directory names the builder cannot fail,
    and its tree has the shape [built]. *)
Lemma classified_imports_plain (imports : list string)
    (dep : string * Path * list string) :
  plain_project fs project_path = true ->
  In dep (fst (_classify_imports fs project_path imports)) ->
  plain_dependency project_path dep.
Proof.
  intros Hplain Hin.
  destruct (classify_imports_resolved imports dep Hin) as (imp & _ & Hres).
  destruct (resolve_import_file imp dep Hres) as (Hex & dirs & file & Hf & _).
  exists (dirs ++ [file])%list.
  assert (Hrel : relative_to (snd (fst dep)) project_path = Some (dirs ++ [file])%list)
    by (rewrite Hf; apply relative_to_app).
  split; [exact Hrel |].
  exact (plain_project_dirs _ _ Hplain Hex Hrel).
Qed.

Lemma analysis_tree_built (p : Path) (info : file_info) :
  plain_project fs project_path = true ->
  _analyze_single_file fs project_path p = Some info ->
  built (dependencies_of info).
Proof.
  intros Hplain. unfold _analyze_single_file.
  destruct (fs_lookup fs p) as [[[message | tree] | entries] |]; try discriminate.
  - intros [= <-]. split; [constructor | exact I].
  - destruct (_classify_imports fs project_path _) as [internal external] eqn:Ec.
    destruct (build_from_built project_path internal (JDict []))
      as (t & Ht & Hbuilt & _).
    + split; [constructor | exact I].
    + intros dep Hin.
      apply (classified_imports_plain
               (Extractor.x_imports (Extractor.analyze_source_code tree)) dep Hplain).
      rewrite Ec. exact Hin.
    + unfold _build_inner_deps_structure. rewrite Ht.
      destruct (relative_to p project_path); [| discriminate].
      intros [= <-]. exact Hbuilt.
Qed.

Lemma followed_module_path (t : json) (text : string) :
  followed t text -> module_path_in t text.
Proof.
  induction 1 as [entries mods d p Ha Hin Hp Hne
                 | entries k ve mods d p Hk Ha Hin Hp Hne
                 | entries k ve p Hk Ha Hf IH].
  - exact (module_here entries mods d p Ha Hin Hp Hne).
  - apply (module_below entries k (JDict ve) p Hk).
    exact (module_here ve mods d p Ha Hin Hp Hne).
  - exact (module_below entries k (JDict ve) p Hk IH).
Qed.

(** X14.  In a project none of whose directories is called [modules] or
    [path], every file that the traversal has analysed when it returns is
    reached from the entry file along module paths that the records of
    analysed files have it follow, through at most [max_depth] records when
    a limit is set.  Every path followed is a module path of the record, so
    the target of an edge of the graph. *)
Theorem analysed_files_are_reached (fuel : nat) (entry_file : Path) :
  plain_project fs project_path = true ->
  (forall t text, followed t text -> module_path_in t text) /\
  match analyze_from_entry fs project_path max_depth fuel entry_file with
  | Return st =>
      forall p, In p (visited st) ->
        exists depth, reached fs project_path entry_file depth p /\
                      depth_exceeded max_depth depth = false
  | _ => True
  end.
Proof.
  intros Hplain. split; [exact followed_module_path |]. unfold analyze_from_entry.
  set (Q := fun st : state => forall p, In p (visited st) ->
              exists depth, reached fs project_path entry_file depth p /\
                            depth_exceeded max_depth depth = false).
  assert (H0 : Q init_state) by (intros p []).
  destruct (exists_ fs entry_file); [| exact H0].
  refine (maintains_analyze_file Q
            (fun p depth => reached fs project_path entry_file depth p)
            (fun info text => followed (dependencies_of info) text)
            _ _ _ fuel entry_file 0%Z (reached_entry _ _ _) init_state H0).
  - intros p depth info rel st HR Hd Hst _ _ _ q [<- | Hin].
    + exists depth. split; assumption.
    + exact (Hst q Hin).
  - intros p depth info text HR _ Hinfo Ht Hex.
    apply (reached_module _ _ _ depth p); [exact HR |].
    exists info, text. repeat split; assumption.
  - intros p info rec depth Hinfo Hrec.
    apply (maintains_recurse_built Q rec depth
             (fun text => followed (dependencies_of info) text) Hrec).
    + exact (analysis_tree_built p info Hplain Hinfo).
    + auto.
Qed.

Section Closure.
Variable pending : list Path.

Local Notation "'visits_'" := (visits fs project_path pending).

Lemma visits_Return : visits_ (fun _ => False) Return.
Proof.
  intros st Hst. split; [exact Hst |]. split; [apply incl_refl | intros q []].
Qed.

Lemma visits_weaken (T1 T2 : Path -> Prop) (step : state -> outcome) :
  (forall q, T2 q -> T1 q) -> visits_ T1 step -> visits_ T2 step.
Proof.
  intros HT H st Hst. specialize (H st Hst).
  destruct (step st) as [st' | |]; auto.
  destruct H as (H1 & H2 & H3). auto.
Qed.

Lemma visits_bind (T1 T2 : Path -> Prop) (f g : state -> outcome) :
  visits_ T1 f -> visits_ T2 g ->
  visits_ (fun q => T1 q \/ T2 q) (fun st => bind (f st) g).
Proof.
  intros Hf Hg st Hst. specialize (Hf st Hst).
  destruct (f st) as [st1 | |]; cbn [bind]; auto.
  destruct Hf as (H1 & H2 & H3). specialize (Hg st1 H1).
  destruct (g st1) as [st2 | |]; auto.
  destruct Hg as (G1 & G2 & G3).
  split; [exact G1 |]. split; [eapply incl_tran; eassumption |].
  intros q [Hq | Hq]; [apply G2, H3, Hq | apply G3, Hq].
Qed.

Section ClosureCallee.
Variable rec : Path -> Z -> state -> outcome.
Variable depth : Z.
Hypothesis Hrec : forall q, visits_ (eq q) (rec q (depth + 1)%Z).

Local Notation "'named'" := (named_files fs project_path).
Local Notation "'followed_files'" := (TraversalSpec.followed_files fs project_path).
Local Notation "'item_files'" := (TraversalSpec.item_files fs project_path).

Lemma visits_analyze_module (mod_ : list (string * json)) :
  visits_ (named [JDict mod_]) (analyze_module fs project_path rec mod_ depth).
Proof.
  intros st Hst. unfold analyze_module.
  assert (Hnone : forall st', closed fs project_path pending st' ->
            incl (visited st) (visited st') ->
            (forall q, named [JDict mod_] q -> In q (visited st')) ->
            closed fs project_path pending st' /\ incl (visited st) (visited st') /\
            forall q, named [JDict mod_] q -> In q (visited st')) by auto.
  destruct (assoc "path" mod_) as [mod_path |] eqn:Ea.
  - destruct (Json.truthy mod_path) eqn:Ht.
    + destruct mod_path as [| text | items | entries]; try exact I.
      destruct (exists_ fs _) eqn:Hex.
      * pose proof (Hrec (module_file project_path text) st Hst) as H.
        fold (module_file project_path text).
        destruct (rec _ _ st) as [st' | |]; auto.
        destruct H as (H1 & H2 & H3). split; [exact H1 |]. split; [exact H2 |].
        intros q (d & text' & [[= <-] | []] & Hp & _ & _ & ->).
        rewrite Ea in Hp. injection Hp as <-. apply H3. reflexivity.
      * apply Hnone; [exact Hst | apply incl_refl |].
        intros q (d & text' & [[= <-] | []] & Hp & _ & Hex' & ->).
        rewrite Ea in Hp. injection Hp as <-.
        unfold module_file in Hex'. rewrite Hex in Hex'. discriminate.
    + apply Hnone; [exact Hst | apply incl_refl |].
      intros q (d & text' & [[= <-] | []] & Hp & Hne & _ & ->).
      rewrite Ea in Hp. injection Hp as ->. cbn in Ht.
      destruct text'; [contradiction | discriminate].
  - apply Hnone; [exact Hst | apply incl_refl |].
    intros q (d & text' & [[= <-] | []] & Hp & _). rewrite Ea in Hp. discriminate.
Qed.

Lemma visits_analyze_modules (mods : list json) :
  visits_ (named mods) (analyze_modules fs project_path rec mods depth).
Proof.
  induction mods as [| m mods IH].
  - apply (visits_weaken (fun _ => False)); [| apply visits_Return].
    intros q (d & text & [] & _).
  - destruct m as [| s | items | mod_]; try (intros st _; exact I).
    cbn [analyze_modules].
    apply (visits_weaken (fun q => named [JDict mod_] q \/ named mods q)).
    + intros q (d & text & [Hin | Hin] & H); [left | right]; exists d, text;
        (split; [| exact H]); [rewrite Hin; left; reflexivity | exact Hin].
    + apply (visits_bind _ _ (analyze_module fs project_path rec mod_ depth)
               (analyze_modules fs project_path rec mods depth));
        [apply visits_analyze_module | exact IH].
Qed.

(** The loops over lists that are not followed still keep the state in
    order. *)
Lemma visits_analyze_dict_items (mods : list json) :
  visits_ (fun _ => False) (analyze_dict_items fs project_path rec mods depth).
Proof.
  induction mods as [| m mods IH]; [apply visits_Return |].
  destruct m as [| s | items | mod_]; try exact IH.
  cbn [analyze_dict_items].
  apply (visits_weaken (fun q => named [JDict mod_] q \/ False)); [intros q [] |].
  apply (visits_bind _ _ (analyze_module fs project_path rec mod_ depth)
           (analyze_dict_items fs project_path rec mods depth));
    [apply visits_analyze_module | exact IH].
Qed.

Lemma visits_for_each {A : Type} (T : A -> Path -> Prop) (body : A -> state -> outcome)
    (l : list A) :
  Forall (fun x => visits_ (T x) (body x)) l ->
  visits_ (fun q => exists x, In x l /\ T x q) (for_each body l).
Proof.
  induction 1 as [| x l Hx Hl IH].
  - apply (visits_weaken (fun _ => False)); [| apply visits_Return].
    intros q (x & [] & _).
  - cbn [for_each].
    apply (visits_weaken (fun q => T x q \/ exists y, In y l /\ T y q)).
    + intros q (y & [<- | Hin] & Hy); [left; exact Hy | right; exists y; auto].
    + apply (visits_bind _ _ (body x) (for_each body l)); assumption.
Qed.

Lemma followed_item (entries : list (string * json)) (text : string) :
  followed (JDict entries) text ->
  exists e, In e entries /\
    match snd e with
    | JList mods =>
        fst e = "modules" /\ exists d, In (JDict d) mods /\
          assoc "path" d = Some (JStr text) /\ text <> ""
    | JDict val_entries =>
        match assoc "modules" val_entries with
        | Some (JList mods) =>
            exists d, In (JDict d) mods /\ assoc "path" d = Some (JStr text) /\
                      text <> ""
        | Some _ => False
        | None => followed (snd e) text
        end
    | _ => False
    end.
Proof.
  intros H. inversion H as [? mods d ? Ha Hin Hp Hne | ? k ve mods d ? Hk Ha Hin Hp Hne
                             | ? k ve ? Hk Ha Hf]; subst.
  - exists ("modules", JList mods). split; [apply assoc_In, Ha |].
    cbn [fst snd]. split; [reflexivity |]. exists d. auto.
  - exists (k, JDict ve). split; [exact Hk |]. cbn [snd]. rewrite Ha. exists d. auto.
  - exists (k, JDict ve). split; [exact Hk |]. cbn [snd]. rewrite Ha. exact Hf.
Qed.

Lemma visits_recurse (deps : json) :
  visits_ (followed_files deps) (recurse rec deps depth).
Proof.
  induction deps as [| s | items _ | entries IH] using json_induction;
    try (intros st _; exact I).
  intros st Hst. rewrite recurse_JDict. revert st Hst.
  apply (visits_weaken (fun q => exists e, In e entries /\ item_files e q)).
  - intros q (text & Hf & Hex & ->).
    destruct (followed_item entries text Hf) as (e & Hin & He).
    exists e. split; [exact Hin |]. unfold item_files.
    destruct (snd e) as [| s | mods | val_entries]; try contradiction.
    + destruct He as (-> & d & H1 & H2 & H3). cbn.
      exists d, text. auto.
    + destruct (assoc "modules" val_entries) as [[| s | mods | d'] |];
        try contradiction.
      * destruct He as (d & H1 & H2 & H3). exists d, text. auto.
      * exists text. auto.
  - apply visits_for_each. apply Forall_forall. intros [key val] Hin.
    rewrite Forall_forall in IH. specialize (IH (key, val) Hin). cbn [snd] in IH.
    unfold recurse_item, item_files. cbn [fst snd].
    destruct val as [| s | mods | val_entries].
    + apply visits_Return.
    + apply visits_Return.
    + destruct (String.eqb key "modules");
        [apply visits_analyze_modules | apply visits_analyze_dict_items].
    + destruct (assoc "modules" val_entries) as [[| s | mods | d] |];
        try (apply (visits_weaken (followed_files (JDict val_entries)));
             [intros q Hq; exact (False_ind _ Hq) | exact IH]).
      * apply visits_analyze_modules.
      * exact IH.
Qed.

End ClosureCallee.
End Closure.

Lemma closed_push (pending : list Path) (p : Path) (st : state)
    (w : list (Path * file_info)) :
  closed fs project_path pending st ->
  closed fs project_path (p :: pending) (mk_state (p :: visited st) w).
Proof.
  intros Hst p' info text Hin Hnot Hinfo Hf Hex. cbn [visited] in *.
  right. destruct Hin as [<- | Hin]; [exfalso; apply Hnot; left; reflexivity |].
  apply (Hst p' info text); auto. intros H. apply Hnot. right. exact H.
Qed.

End TraversalMore.

Section ClosureOfTheTraversal.
Import FileSystem ImportResolver Json Analyzer Aggregator DependencyTree TraversalSpec.
Variable fs : fsnode source.
Variable project_path : Path.

Local Notation "'analyze_file'" := (_recursive_analyze_file fs project_path None).

Lemma visits_analyze_file (fuel : nat) (pending : list Path) (p : Path) (depth : Z) :
  visits fs project_path pending (eq p) (analyze_file fuel p depth).
Proof.
  revert pending p depth. induction fuel as [| fuel IH]; intros pending p depth st Hst;
    [exact I |].
  cbn [_recursive_analyze_file depth_exceeded].
  destruct (is_visited p st) eqn:Hvis.
  { apply is_visited_true in Hvis. split; [exact Hst |].
    split; [apply incl_refl | intros q <-; exact Hvis]. }
  destruct (_analyze_single_file fs project_path p) as [info |] eqn:Hinfo; [| exact I].
  unfold _write_file_info_to_json.
  destruct (relative_to p project_path) as [rel |] eqn:Hrel; [| exact I].
  cbn [bind visited written].
  set (st2 := mk_state (p :: visited st) ((p, info) :: written st)).
  pose proof (visits_recurse fs project_path (p :: pending) (analyze_file fuel) depth
                (fun q => IH (p :: pending) q (depth + 1)%Z)
                (get (inner_project_dependencies info) (JDict [])) st2
                (closed_push fs project_path pending p st _ Hst)) as H.
  destruct (_recurse_inner_dependencies _ _ _ _ _ st2) as [st' | |]; auto.
  destruct H as (H1 & H2 & H3).
  assert (Hp : In p (visited st')) by (apply H2; left; reflexivity).
  split; [| split].
  - intros p' info' text Hin Hnot Hinfo' Hf Hex.
    destruct (Path_eq_dec p' p) as [-> | Hne].
    + rewrite Hinfo in Hinfo'. injection Hinfo' as <-.
      apply H3. exists text. auto.
    + apply (H1 p' info' text); auto. intros [E | E]; [apply Hne; symmetry; exact E | auto].
  - intros q Hq. apply H2. right. exact Hq.
  - intros q <-. exact Hp.
Qed.

(** X15.  Without a depth limit the traversal leaves nothing half done: when
    it returns, the entry file is analysed if it exists, and so is every
    existing file that the record of an analysed file has it follow, that
    is, the modules listed in the project directory and in the first
    directory with modules on each branch of the tree of the record.  (What
    lies below such a directory is recorded as a dependency and not
    followed.) *)
Theorem followed_dependencies_are_analysed (fuel : nat) (entry_file : Path) :
  match analyze_from_entry fs project_path None fuel entry_file with
  | Return st =>
      (exists_ fs entry_file = true -> In entry_file (visited st)) /\
      forall p info text,
        In p (visited st) ->
        _analyze_single_file fs project_path p = Some info ->
        followed (dependencies_of info) text ->
        exists_ fs (module_file project_path text) = true ->
        In (module_file project_path text) (visited st)
  | _ => True
  end.
Proof.
  unfold analyze_from_entry.
  assert (H0 : closed fs project_path [] init_state) by (intros p info text []).
  destruct (exists_ fs entry_file) eqn:Hex.
  - pose proof (visits_analyze_file fuel [] entry_file 0%Z init_state H0) as H.
    destruct (analyze_file fuel entry_file 0%Z init_state) as [st | |]; auto.
    destruct H as (H1 & _ & H3). split; [intros _; apply H3; reflexivity |].
    intros p info text Hin. apply (H1 p info text Hin). intros [].
  - split; [discriminate | intros p info text []].
Qed.

End ClosureOfTheTraversal.

(** What lies below a directory with modules is recorded and not followed:
    in [nested_project] the record of [a.py] lists [pkg/sub/d.py], and the
    traversal ends without a record for it. *)
Example nested_module_not_followed :
  exists st info,
    Analyzer.analyze_from_entry nested_project ["proj"] None 8 ["proj"; "a.py"]
      = Analyzer.Return st /\
    Analyzer.visited st = [["proj"; "pkg"; "c.py"]; ["proj"; "a.py"]] /\
    Analyzer._analyze_single_file nested_project ["proj"] ["proj"; "a.py"] = Some info /\
    Aggregator.extract_internal_module_paths (nodup string_dec)
      (Aggregator.dependencies_of info) = Some ["./pkg/c.py"; "./pkg/sub/d.py"].
Proof.
  eexists. eexists. split; [vm_compute; reflexivity |]. split; [reflexivity |].
  split; [vm_compute; reflexivity |]. vm_compute. reflexivity.
Qed.

(** In [cyclic_project] the files analysed from [a.py] are [a.py] itself,
    [b.py] and [pkg/c.py] that it names, and [bad.py] that [b.py] names. *)
Lemma analysed_files_are_reached_witness :
  TraversalSpec.plain_project cyclic_project ["proj"] = true /\
  match Analyzer.analyze_from_entry cyclic_project ["proj"] (Some 2%Z) 8
          ["proj"; "a.py"] with
  | Analyzer.Return st =>
      forall p, In p (Analyzer.visited st) ->
        exists depth,
          TraversalSpec.reached cyclic_project ["proj"] ["proj"; "a.py"] depth p /\
          Analyzer.depth_exceeded (Some 2%Z) depth = false
  | _ => True
  end.
Proof.
  assert (H : TraversalSpec.plain_project cyclic_project ["proj"] = true)
    by reflexivity.
  split; [exact H |].
  exact (proj2 (analysed_files_are_reached cyclic_project ["proj"] (Some 2%Z) 8
                  ["proj"; "a.py"] H)).
Defined.

(* ================================================================== *)
(** * The text of a module path, written and read back *)
(* ================================================================== *)

Section PathTextFacts.
Import PathText TraversalSpec.

Lemma lstrip_keep (chars : list ascii) (s : string) :
  starts_in chars s = false -> lstrip chars s = s.
Proof.
  destruct s as [| a rest]; [reflexivity |]. cbn [starts_in lstrip]. intros ->.
  reflexivity.
Qed.

Lemma rstrip_keep (chars : list ascii) (s : string) :
  ends_in chars s = false -> rstrip chars s = s.
Proof.
  induction s as [| a rest IH]; [reflexivity |].
  cbn [ends_in rstrip]. destruct rest as [| b rest'].
  - cbn [rstrip]. intros ->. reflexivity.
  - intros H. rewrite (IH H). reflexivity.
Qed.

Lemma starts_in_app (chars : list ascii) (x y : string) :
  x <> "" -> starts_in chars (x ++ y) = starts_in chars x.
Proof. destruct x; [contradiction | reflexivity]. Qed.

Lemma ends_in_app (chars : list ascii) (x y : string) :
  y <> "" -> ends_in chars (x ++ y) = ends_in chars y.
Proof.
  intros Hy. induction x as [| a x IH]; [reflexivity |].
  cbn [String.append ends_in]. destruct (x ++ y)%string eqn:E; [| exact IH].
  destruct x; [cbn in E; contradiction | discriminate].
Qed.

Lemma component_nonempty (name : string) : component name = true -> name <> "".
Proof.
  unfold component. intros H ->. discriminate.
Qed.

Lemma concat_nonempty (sep : string) (rel : list string) :
  rel <> [] -> Forall (fun c => c <> "") rel -> String.concat sep rel <> "".
Proof.
  destruct rel as [| x [| y rest]]; [contradiction | |]; intros _ H;
    inversion H as [| ? ? Hx _]; subst; cbn [String.concat]; [exact Hx |].
  destruct x; [contradiction | discriminate].
Qed.

Lemma starts_in_concat (chars : list ascii) (sep : string) (rel : list string) :
  hd "" rel <> "" ->
  starts_in chars (String.concat sep rel) = starts_in chars (hd "" rel).
Proof.
  destruct rel as [| x [| y rest]]; cbn [hd String.concat]; auto.
  intros Hx. apply starts_in_app, Hx.
Qed.

Lemma ends_in_concat (chars : list ascii) (c : ascii) (rel : list string) :
  rel <> [] -> Forall (fun x => x <> "") rel ->
  ends_in chars (String.concat (String c "") rel) = ends_in chars (last rel "").
Proof.
  induction rel as [| x rest IH]; [contradiction |]. intros _ Hall.
  inversion Hall as [| ? ? Hx Hrest]; subst.
  destruct rest as [| y rest']; [reflexivity |].
  assert (Hne : String.concat (String c "") (y :: rest') <> "")
    by (apply concat_nonempty; [discriminate | exact Hrest]).
  change (String.concat (String c "") (x :: y :: rest'))
    with (x ++ String c (String.concat (String c "") (y :: rest')))%string.
  rewrite ends_in_app by discriminate.
  change (last (x :: y :: rest') "") with (last (y :: rest') "").
  rewrite <- IH by (try discriminate; exact Hrest).
  cbn [ends_in]. destruct (String.concat (String c "") (y :: rest'));
    [contradiction | reflexivity].
Qed.

Lemma split_on_whole (sep : ascii) (x : string) :
  contains_char sep x = false -> split_on sep x = [x].
Proof.
  induction x as [| a x IH]; [reflexivity |].
  cbn [contains_char split_on]. intros H. apply orb_false_iff in H.
  destruct H as [Ha Hx]. rewrite Ha, (IH Hx). reflexivity.
Qed.

Lemma split_on_app (sep : ascii) (x rest : string) :
  contains_char sep x = false ->
  split_on sep (x ++ String sep rest) = x :: split_on sep rest.
Proof.
  induction x as [| a x IH]; cbn [contains_char String.append split_on].
  - intros _. rewrite Ascii.eqb_refl. reflexivity.
  - intros H. apply orb_false_iff in H. destruct H as [Ha Hx].
    rewrite Ha, (IH Hx). reflexivity.
Qed.

(** Splitting the joined text gives the components back. *)
Lemma split_on_concat (sep : ascii) (rel : list string) :
  rel <> [] -> Forall (fun x => contains_char sep x = false) rel ->
  split_on sep (String.concat (String sep "") rel) = rel.
Proof.
  induction rel as [| x rest IH]; [contradiction |]. intros _ Hall.
  inversion Hall as [| ? ? Hx Hrest]; subst.
  destruct rest as [| y rest'].
  - cbn [String.concat]. apply split_on_whole, Hx.
  - change (String.concat (String sep "") (x :: y :: rest'))
      with (x ++ String sep (String.concat (String sep "") (y :: rest')))%string.
    rewrite (split_on_app sep x _ Hx). f_equal.
    apply IH; [discriminate | exact Hrest].
Qed.

Lemma filter_components (rel : list string) :
  forallb component rel = true ->
  filter (fun c => negb (String.eqb c "" || String.eqb c ".")) rel = rel.
Proof.
  induction rel as [| x rest IH]; [reflexivity |].
  cbn [forallb filter]. intros H. apply andb_true_iff in H. destruct H as [Hx Hrest].
  unfold component in Hx. apply andb_true_iff in Hx. destruct Hx as [Hx _].
  apply andb_true_iff in Hx. destruct Hx as [H1 H2].
  apply negb_true_iff in H1, H2. rewrite H1, H2. cbn [orb negb].
  f_equal. exact (IH Hrest).
Qed.

Lemma module_file_of_text (project_path rel : Path) :
  reads_back rel = true ->
  module_file project_path (String.concat "/" rel) = (project_path ++ rel)%list /\
  module_file project_path ("./" ++ String.concat "/" rel) = (project_path ++ rel)%list.
Proof.
  unfold reads_back. intros H.
  apply andb_true_iff in H. destruct H as [H Hend].
  apply andb_true_iff in H. destruct H as [H Hstart].
  apply andb_true_iff in H. destruct H as [Hlen Hall].
  apply negb_true_iff in Hend, Hstart.
  assert (Hne : rel <> []) by (intros ->; discriminate Hlen).
  assert (Hcomp : Forall (fun c => component c = true) rel)
    by (apply Forall_forall; apply forallb_forall; exact Hall).
  assert (Hnonempty : Forall (fun c => c <> "") rel).
  { eapply Forall_impl; [| exact Hcomp]. intros c. apply component_nonempty. }
  assert (Hslash : Forall (fun c => contains_char "/" c = false) rel).
  { eapply Forall_impl; [| exact Hcomp]. intros c Hc. unfold component in Hc.
    apply andb_true_iff in Hc. destruct Hc as [_ Hc]. apply negb_true_iff, Hc. }
  assert (Hhd : hd "" rel <> "").
  { destruct rel as [| x rest]; [contradiction |]. inversion Hnonempty; assumption. }
  set (text := String.concat "/" rel).
  assert (Hl : lstrip ["."%char; "/"%char] text = text).
  { apply lstrip_keep. unfold text. rewrite starts_in_concat by exact Hhd. exact Hstart. }
  assert (Hr : rstrip ["."%char; "/"%char] text = text).
  { apply rstrip_keep. unfold text. rewrite ends_in_concat by assumption. exact Hend. }
  assert (Hread : module_file project_path text = (project_path ++ rel)%list).
  { unfold module_file, strip, join_text. rewrite Hl, Hr. unfold text.
    rewrite split_on_concat by assumption. rewrite filter_components by exact Hall.
    reflexivity. }
  split; [exact Hread |].
  unfold module_file, strip in *.
  change (lstrip ["."%char; "/"%char] ("./" ++ text))
    with (lstrip ["."%char; "/"%char] text).
  exact Hread.
Qed.

(** X16.  The text ['./' + str(relative path)] that the analyzer writes for a
    file is read back by [strip('./')] as the same file, when the names of
    the relative path hold no slash, none is empty or a single dot, the
    first does not begin with a dot and the last does not end with one.
    The strip removes characters, not the prefix: a dot that begins the
    relative path is lost, so the text of [.x/...] is read as [x/...]. *)
Theorem module_path_reads_back (project_path rel : Path) :
  reads_back rel = true ->
  module_file project_path ("./" ++ str_rel rel) = (project_path ++ rel)%list /\
  forall text,
    module_file project_path ("./" ++ String "." text) =
    module_file project_path ("./" ++ text).
Proof.
  intros H. split; [| reflexivity].
  destruct (module_file_of_text project_path rel H) as [_ H2].
  destruct rel as [| x rest]; [discriminate H | exact H2].
Qed.

End PathTextFacts.

Lemma module_path_reads_back_witness :
  TraversalSpec.module_file ["proj"] "./pkg/c.py" = ["proj"; "pkg"; "c.py"] /\
  TraversalSpec.module_file ["proj"] "./.venv/c.py" = ["proj"; "venv"; "c.py"].
Proof.
  destruct (module_path_reads_back ["proj"] ["pkg"; "c.py"] eq_refl) as [H1 H2].
  split; [exact H1 | exact (H2 "venv/c.py")].
Defined.

(* ================================================================== *)
(** * Projects on which the analysis returns *)
(* ================================================================== *)

Section TidyFacts.
Import FileSystem ImportResolver Json Analyzer Aggregator DependencyTree.
Import TraversalSpec PathText TidyProject.
Variable fs : fsnode source.
Variable project_path : Path.
Variable max_depth : option Z.

Local Notation "'analyze_file'" := (_recursive_analyze_file fs project_path max_depth).
Local Notation "'recurse'" := (_recurse_inner_dependencies fs project_path).

Lemma contains_char_app (c : ascii) (x y : string) :
  contains_char c (x ++ y) = (contains_char c x || contains_char c y)%bool.
Proof.
  induction x as [| a x IH]; [reflexivity |].
  cbn [String.append contains_char]. rewrite IH, orb_assoc. reflexivity.
Qed.

Lemma split_on_no_sep (sep : ascii) (s : string) :
  Forall (fun x => contains_char sep x = false) (split_on sep s).
Proof.
  induction s as [| a s IH]; [repeat constructor |].
  cbn [split_on]. destruct (Ascii.eqb a sep) eqn:E.
  - constructor; [reflexivity | exact IH].
  - destruct (split_on sep s) as [| x rest]; [repeat constructor; cbn; rewrite E; reflexivity |].
    inversion IH as [| ? ? Hx Hrest]; subst.
    constructor; [cbn [contains_char]; rewrite E, Hx; reflexivity | exact Hrest].
Qed.

Lemma ends_with_app (suffix x : string) : ends_with suffix (x ++ suffix) = true.
Proof.
  induction x as [| a x IH].
  - destruct suffix; cbn [String.append ends_with]; rewrite String.eqb_refl; reflexivity.
  - cbn [String.append ends_with]. rewrite IH. apply orb_true_r.
Qed.

Lemma name_ok_facts (x : string) :
  name_ok x = true ->
  x <> "" /\ contains_char "/" x = false /\ contains_char "." x = false.
Proof.
  unfold name_ok, part_ok. intros H.
  apply andb_true_iff in H. destruct H as [H H3].
  apply andb_true_iff in H. destruct H as [H1 H2].
  apply negb_true_iff in H1, H2, H3.
  split; [intros ->; discriminate H1 | auto].
Qed.

Lemma name_ok_component (x : string) :
  name_ok x = true ->
  component x = true /\ starts_in ["."%char; "/"%char] x = false.
Proof.
  intros H. destruct (name_ok_facts x H) as (Hne & Hs & Hd). split.
  - unfold component. rewrite Hs.
    apply String.eqb_neq in Hne. rewrite Hne.
    destruct (String.eqb x ".") eqn:E; [| reflexivity].
    apply String.eqb_eq in E. subst x. discriminate Hd.
  - destruct x as [| a r]; [reflexivity |].
    cbn [contains_char] in Hs, Hd. apply orb_false_iff in Hs, Hd.
    cbn. rewrite (proj1 Hd), (proj1 Hs). reflexivity.
Qed.

Lemma file_name_component (x : string) :
  name_ok x = true ->
  component (x ++ ".py") = true /\
  starts_in ["."%char; "/"%char] (x ++ ".py") = false /\
  ends_in ["."%char; "/"%char] (x ++ ".py") = false.
Proof.
  intros H. destruct (name_ok_facts x H) as (Hne & Hs & Hd).
  destruct (name_ok_component x H) as [_ Hstart].
  split; [| split].
  - unfold component. rewrite contains_char_app, Hs, append_py_nonempty.
    assert (E : String.eqb (x ++ ".py") "." = false).
    { apply String.eqb_neq. destruct x as [| a r]; [contradiction |].
      destruct r; discriminate. }
    rewrite E. reflexivity.
  - rewrite starts_in_app by exact Hne. exact Hstart.
  - rewrite ends_in_app by discriminate. reflexivity.
Qed.

Lemma reads_back_module (dirs : list string) (file : string) :
  Forall (fun d => name_ok d = true) dirs ->
  component file = true ->
  starts_in ["."%char; "/"%char] file = false ->
  ends_in ["."%char; "/"%char] file = false ->
  reads_back (dirs ++ [file])%list = true.
Proof.
  intros Hdirs Hc Hs He. unfold reads_back.
  rewrite last_last, He, forallb_app. cbn [forallb]. rewrite Hc.
  assert (Hall : forallb component dirs = true).
  { apply forallb_forall. intros d Hd. rewrite Forall_forall in Hdirs.
    exact (proj1 (name_ok_component d (Hdirs d Hd))). }
  rewrite Hall.
  assert (Hhd : starts_in ["."%char; "/"%char] (hd "" (dirs ++ [file])%list) = false).
  { destruct dirs as [| d dirs']; [exact Hs |]. cbn [app hd].
    inversion Hdirs as [| ? ? Hd _]; subst. exact (proj2 (name_ok_component d Hd)). }
  rewrite Hhd, length_app. cbn [length].
  replace (length dirs + 1) with (S (length dirs)) by lia. reflexivity.
Qed.

Lemma walk_dirs_names (dirs : list string) (base base' : Path) :
  Forall (fun d => d <> "") dirs ->
  walk_dirs fs base dirs = Some base' -> base' = (base ++ dirs)%list.
Proof.
  revert base. induction dirs as [| d dirs IH]; intros base Hall; cbn [walk_dirs].
  - intros [= <-]. rewrite app_nil_r. reflexivity.
  - inversion Hall as [| ? ? Hd Hrest]; subst.
    assert (Hj : join_path base d = (base ++ [d])%list).
    { unfold join_path. apply String.eqb_neq in Hd. rewrite Hd. reflexivity. }
    rewrite Hj.
    destruct (negb (exists_ fs _) || negb (is_dir fs _))%bool; [discriminate |].
    intros H. rewrite (IH _ Hrest H), <- app_assoc. reflexivity.
Qed.

Lemma file_or_package_names (base : Path) (name : string) (f : Path) :
  name <> "" ->
  file_or_package fs base name = Some f ->
  exists_ fs f = true /\
  (f = (base ++ [(name ++ ".py")%string])%list \/ f = (base ++ [name; "__init__.py"])%list).
Proof.
  intros Hne. unfold file_or_package.
  assert (H1 : join_path base (name ++ ".py") = (base ++ [(name ++ ".py")%string])%list).
  { unfold join_path. rewrite append_py_nonempty. reflexivity. }
  assert (H2 : join_path base name = (base ++ [name])%list).
  { unfold join_path. apply String.eqb_neq in Hne. rewrite Hne. reflexivity. }
  rewrite H1, H2.
  destruct (exists_ fs (base ++ [(name ++ ".py")%string])%list) eqn:E1.
  - intros [= <-]. auto.
  - destruct (exists_ fs (base ++ [name])%list
              && exists_ fs (join_path (base ++ [name])%list "__init__.py"))%bool eqn:E2;
      [| discriminate].
    intros [= <-]. apply andb_true_iff in E2. split; [exact (proj2 E2) |].
    right. unfold join_path. cbn. rewrite <- app_assoc. reflexivity.
Qed.

Lemma Forall_removelast {A : Type} (P : A -> Prop) (l : list A) :
  Forall P l -> Forall P (removelast l).
Proof.
  induction 1 as [| x l Hx Hl IH]; [constructor |].
  cbn [removelast]. destruct l; [constructor |]. constructor; assumption.
Qed.

Lemma Forall_firstn_of {A : Type} (P : A -> Prop) (k : nat) (l : list A) :
  Forall P l -> Forall P (firstn k l).
Proof.
  revert l. induction k as [| k IH]; intros l H; [constructor |].
  destruct H; cbn [firstn]; constructor; auto.
Qed.

Lemma Forall_last {A : Type} (P : A -> Prop) (l : list A) (d : A) :
  l <> [] -> Forall P l -> P (last l d).
Proof.
  intros Hne H. induction H as [| x l Hx Hl IH]; [contradiction |].
  destruct l; [exact Hx |]. apply IH. discriminate.
Qed.

Lemma find_module_file_names (parts : list string) (f : Path) :
  Forall (fun d => d <> "") parts ->
  _find_module_file fs project_path parts = Some f ->
  parts <> [] /\ exists_ fs f = true /\
  (f = (project_path ++ removelast parts ++ [(last parts "" ++ ".py")%string])%list \/
   f = (project_path ++ parts ++ ["__init__.py"])%list).
Proof.
  intros Hall. unfold _find_module_file.
  destruct parts as [| p [| q rest]]; [discriminate | |].
  - inversion Hall as [| ? ? Hp _]; subst. intros H.
    destruct (file_or_package_names project_path p f Hp H) as [Hex [-> | ->]];
      (split; [discriminate |]); (split; [exact Hex |]); [left | right]; reflexivity.
  - set (parts := p :: q :: rest) in *.
    destruct (walk_dirs fs project_path (removelast parts)) as [base |] eqn:E;
      [| discriminate].
    apply walk_dirs_names in E; [| apply Forall_removelast, Hall]. subst base.
    assert (Hne : parts <> []) by discriminate.
    intros H. apply file_or_package_names in H; [| exact (Forall_last _ _ _ Hne Hall)].
    destruct H as [Hex [-> | ->]]; (split; [exact Hne |]); (split; [exact Hex |]).
    + left. rewrite <- app_assoc. reflexivity.
    + right. rewrite <- app_assoc. f_equal.
      rewrite (app_removelast_last "" Hne) at 3. rewrite <- app_assoc. reflexivity.
Qed.

(** The file of an import made of names: its text reads back and it is
    called like a module file. *)
Lemma resolved_reads_back (imp : string) (dep : string * Path * list string) :
  import_ok imp = true ->
  _resolve_import fs project_path imp = Some dep ->
  exists rel,
    snd (fst dep) = (project_path ++ rel)%list /\
    reads_back rel = true /\
    ends_with ".py" (last rel "") = true /\
    exists_ fs (project_path ++ rel)%list = true.
Proof.
  unfold import_ok, _resolve_import. intros Hok H.
  apply (try_prefixes_spec fs project_path) in H; [| apply Nat.le_refl].
  destruct H as (k & f & Hk & Hfind & _ & ->). cbn [fst snd].
  set (parts := split_on "." imp) in *.
  assert (Hparts : Forall (fun d => name_ok d = true) parts).
  { apply Forall_forall. intros d Hd. unfold name_ok.
    rewrite forallb_forall in Hok. rewrite (Hok d Hd).
    pose proof (split_on_no_sep "." imp) as Hs. rewrite Forall_forall in Hs.
    rewrite (Hs d Hd). reflexivity. }
  set (prefix := firstn k parts) in *.
  assert (Hprefix : Forall (fun d => name_ok d = true) prefix)
    by (apply Forall_firstn_of, Hparts).
  assert (Hnonempty : Forall (fun d => d <> "") prefix).
  { eapply Forall_impl; [| exact Hprefix]. intros d Hd.
    exact (proj1 (name_ok_facts d Hd)). }
  destruct (find_module_file_names prefix f Hnonempty Hfind) as (Hne & Hex & [-> | ->]).
  - exists (removelast prefix ++ [(last prefix "" ++ ".py")%string])%list.
    destruct (file_name_component (last prefix "") (Forall_last _ _ _ Hne Hprefix))
      as (Hc & Hs & He).
    split; [reflexivity |]. split; [| split].
    + apply reads_back_module; auto. apply Forall_removelast, Hprefix.
    + rewrite last_last. apply ends_with_app.
    + exact Hex.
  - exists (prefix ++ ["__init__.py"])%list.
    split; [reflexivity |]. split; [| split].
    + apply reads_back_module; auto.
    + rewrite last_last. reflexivity.
    + exact Hex.
Qed.

Hypothesis Hplain : plain_project fs project_path = true.
Hypothesis Himports : named_imports fs = true.
Hypothesis Hfiles : no_py_directory fs = true.

Lemma no_module_in_empty (text : string) : ~ module_path_in (JDict []) text.
Proof.
  intros H. inversion H as [? ? ? ? Hm | ? ? ? ? Hin]; [discriminate Hm | destruct Hin].
Qed.

(** The builder cannot fail on the imports of a file of the project. *)
Lemma analysis_succeeds (p : Path) :
  good_file fs project_path p ->
  exists info, _analyze_single_file fs project_path p = Some info.
Proof.
  intros [[src Hsrc] [rel Hrel]]. unfold _analyze_single_file. rewrite Hsrc.
  destruct src as [message | tree]; [eexists; reflexivity |].
  destruct (_classify_imports fs project_path _) as [internal external] eqn:Ec.
  destruct (build_from_built project_path internal (JDict []))
    as (t & Ht & _).
  - split; [constructor | exact I].
  - intros dep Hin.
    apply (classified_imports_plain fs project_path
             (Extractor.x_imports (Extractor.analyze_source_code tree)) dep Hplain).
    rewrite Ec. exact Hin.
  - unfold _build_inner_deps_structure. rewrite Ht, Hrel. eexists. reflexivity.
Qed.

(** Every module path of a record is the text of a file of the project. *)
Lemma dependency_files_good (p : Path) (info : file_info) (text : string) :
  _analyze_single_file fs project_path p = Some info ->
  module_path_in (dependencies_of info) text ->
  good_file fs project_path (module_file project_path text).
Proof.
  unfold _analyze_single_file.
  destruct (fs_lookup fs p) as [[[message | tree] | entries] |] eqn:Hp; try discriminate.
  - intros [= <-] H. destruct (no_module_in_empty text H).
  - destruct (_classify_imports fs project_path _) as [internal external] eqn:Ec.
    assert (Hres : forall dep, In dep internal ->
              exists imp, In imp (Extractor.x_imports (Extractor.analyze_source_code tree))
                          /\ _resolve_import fs project_path imp = Some dep).
    { intros dep Hin. apply (classify_imports_resolved fs project_path). rewrite Ec.
      exact Hin. }
    destruct (build_from_built project_path internal (JDict []))
      as (t & Ht & _ & Hiff).
    + split; [constructor | exact I].
    + intros dep Hin.
      apply (classified_imports_plain fs project_path
               (Extractor.x_imports (Extractor.analyze_source_code tree)) dep Hplain).
      rewrite Ec. exact Hin.
    + unfold _build_inner_deps_structure. rewrite Ht.
      destruct (relative_to p project_path); [| discriminate].
      intros [= <-]. unfold dependencies_of. cbn [inner_project_dependencies get].
      intros Hin. apply Hiff in Hin.
      destruct Hin as [Hin | (dep & Hdep & Htext)]; [destruct (no_module_in_empty text Hin) |].
      destruct (Hres dep Hdep) as (imp & Himp & Hresolve).
      assert (Hok : import_ok imp = true).
      { unfold named_imports in Himports. rewrite forallb_forall in Himports.
        specialize (Himports p (fs_lookup_all_paths fs _ p Hp)).
        rewrite Hp in Himports. rewrite forallb_forall in Himports.
        exact (Himports imp Himp). }
      destruct (resolved_reads_back imp dep Hok Hresolve)
        as (rel & Hfile & Hback & Hpy & Hex).
      unfold dependency_text in Htext. rewrite Hfile, relative_to_app in Htext.
      cbn [option_map] in Htext. injection Htext as <-.
      assert (Hrel : rel <> []) by (intros ->; discriminate Hback).
      assert (Hmod : module_file project_path ("./" ++ str_rel rel)
                     = (project_path ++ rel)%list).
      { destruct rel as [| x rest]; [contradiction |].
        exact (proj2 (module_file_of_text project_path (x :: rest) Hback)). }
      change (good_file fs project_path
                (module_file project_path ("./" ++ str_rel rel))).
      rewrite Hmod. split; [| exists rel; apply relative_to_app].
      unfold exists_ in Hex.
      destruct (fs_lookup fs (project_path ++ rel)%list) as [[src | es] |] eqn:El;
        [exists src; reflexivity | | discriminate].
      exfalso. unfold no_py_directory in Hfiles. rewrite forallb_forall in Hfiles.
      specialize (Hfiles _ (fs_lookup_all_paths fs _ _ El)).
      unfold is_dir in Hfiles. rewrite El in Hfiles.
      assert (Hlast : last (project_path ++ rel)%list "" = last rel "").
      { rewrite (app_removelast_last "" Hrel), app_assoc, !last_last. reflexivity. }
      rewrite Hlast, Hpy in Hfiles. discriminate Hfiles.
Qed.

Lemma never_raises_Return : never_raises Return.
Proof. intros st. discriminate. Qed.

Lemma never_raises_bind (f g : state -> outcome) :
  never_raises f -> never_raises g -> never_raises (fun st => bind (f st) g).
Proof.
  intros Hf Hg st. specialize (Hf st). destruct (f st) as [st1 | |]; cbn [bind];
    [apply Hg | contradiction | discriminate].
Qed.

Lemma never_raises_for_each {A : Type} (body : A -> state -> outcome) (l : list A) :
  Forall (fun x => never_raises (body x)) l -> never_raises (for_each body l).
Proof.
  induction 1 as [| x l Hx Hl IH]; [apply never_raises_Return |].
  cbn [for_each]. apply (never_raises_bind (body x) (for_each body l)); assumption.
Qed.

Section TidyCallee.
Variable rec : Path -> Z -> state -> outcome.
Variable depth : Z.
Variable allowed : string -> Prop.
Hypothesis Hrec : forall text,
  allowed text -> never_raises (rec (module_file project_path text) (depth + 1)%Z).

Lemma never_raises_analyze_modules (mods : list json) :
  Forall (fun m => exists p, is_module_entry m p /\ allowed p) mods ->
  never_raises (analyze_modules fs project_path rec mods depth).
Proof.
  induction 1 as [| m mods (p & (name & subs & -> & Hne) & Hp) Hrest IH];
    [apply never_raises_Return |].
  unfold module_entry. cbn [analyze_modules].
  apply (never_raises_bind
           (analyze_module fs project_path rec _ depth)
           (analyze_modules fs project_path rec mods depth)); [| exact IH].
  intros st. unfold analyze_module. cbn [assoc String.eqb Ascii.eqb Bool.eqb].
  cbn.
  destruct p as [| a r]; [contradiction |]. cbn.
  destruct (exists_ fs _); [apply (Hrec _ Hp) | discriminate].
Qed.

Lemma modules_list_allowed (entries : list (string * json)) (v : json) :
  assoc "modules" entries = Some v -> is_modules_list v ->
  (forall text, module_path_in (JDict entries) text -> allowed text) ->
  exists mods, v = JList mods /\
    Forall (fun m => exists p, is_module_entry m p /\ allowed p) mods.
Proof.
  intros Ha (mods & -> & Hmods) Hall. exists mods. split; [reflexivity |].
  apply Forall_forall. intros m Hm. rewrite Forall_forall in Hmods.
  destruct (Hmods m Hm) as (p & Hentry). exists p. split; [exact Hentry |].
  destruct Hentry as (name & subs & -> & Hne).
  apply Hall. apply (module_here entries mods _ p Ha Hm); [reflexivity | exact Hne].
Qed.

Lemma never_raises_recurse (deps : json) :
  built deps -> (forall text, module_path_in deps text -> allowed text) ->
  never_raises (recurse rec deps depth).
Proof.
  induction deps as [| s | items _ | entries IH] using json_induction;
    try (intros []; fail).
  intros Hb Hall st. rewrite recurse_JDict. revert st.
  apply built_entries in Hb. destruct Hb as [Hnd Hentries].
  apply never_raises_for_each. apply Forall_forall. intros [key val] Hin.
  rewrite Forall_forall in IH. specialize (IH (key, val) Hin). cbn [snd] in IH.
  rewrite Forall_forall in Hentries. pose proof (Hentries (key, val) Hin) as He.
  unfold entry_built in He. cbn [fst snd] in He.
  unfold recurse_item. cbn [fst snd].
  destruct (String.eqb key "modules") eqn:Ek.
  - apply String.eqb_eq in Ek. subst key.
    destruct (modules_list_allowed entries val (In_assoc _ _ _ Hnd Hin) He Hall)
      as (mods & -> & Hmods).
    apply never_raises_analyze_modules, Hmods.
  - destruct (String.eqb key "path").
    + destruct He as [s ->]. apply never_raises_Return.
    + destruct val as [| s | mods | val_entries]; try (destruct He; fail).
      assert (Hbelow : forall text, module_path_in (JDict val_entries) text ->
                                    allowed text).
      { intros text Ht. apply Hall.
        exact (module_below entries key (JDict val_entries) text Hin Ht). }
      pose proof (proj1 (built_entries val_entries) He) as [Hnd' Hentries'].
      destruct (assoc "modules" val_entries) as [v |] eqn:Ea; [| exact (IH He Hbelow)].
      assert (Hv : is_modules_list v).
      { rewrite Forall_forall in Hentries'.
        exact (Hentries' ("modules", v) (assoc_In _ _ _ Ea)). }
      destruct (modules_list_allowed val_entries v Ea Hv Hbelow) as (mods & -> & Hmods).
      apply never_raises_analyze_modules, Hmods.
Qed.

End TidyCallee.

Lemma never_raises_analyze_file (fuel : nat) (p : Path) (depth : Z) :
  good_file fs project_path p -> never_raises (analyze_file fuel p depth).
Proof.
  revert p depth. induction fuel as [| fuel IH]; intros p depth Hgood st; [discriminate |].
  cbn [_recursive_analyze_file].
  destruct (depth_exceeded max_depth depth); [discriminate |].
  destruct (is_visited p st); [discriminate |].
  destruct (analysis_succeeds p Hgood) as [info Hinfo]. rewrite Hinfo.
  unfold _write_file_info_to_json. destruct Hgood as [_ [rel Hrel]]. rewrite Hrel.
  cbn [bind visited written].
  apply (never_raises_recurse (analyze_file fuel) depth
           (fun text => module_path_in (dependencies_of info) text)).
  - intros text Ht. apply IH. exact (dependency_files_good p info text Hinfo Ht).
  - exact (analysis_tree_built fs project_path p info Hplain Hinfo).
  - auto.
Qed.

(** X17.  The analysis of an ordinary project returns.  When no directory of
    the project is called [modules] or [path], no directory is called like a
    module file, the imports of the files are dotted names and the entry
    file is a file below the project directory, the traversal raises
    nothing, whatever the files import and whatever the depth limit: it
    returns, with one record for every file it analysed. *)
Theorem analysis_of_tidy_project_returns (fuel : nat) (entry_file : Path) :
  good_file fs project_path entry_file ->
  length (all_paths fs) < fuel ->
  exists st,
    analyze_from_entry fs project_path max_depth fuel entry_file = Return st /\
    map fst (written st) = visited st /\ NoDup (visited st).
Proof.
  intros Hgood Hfuel. unfold analyze_from_entry.
  assert (H0 : consistent init_state) by (split; [reflexivity | constructor]).
  destruct (exists_ fs entry_file); [| exists init_state; split; [reflexivity | exact H0]].
  assert (Hbudget : budget fs init_state < fuel).
  { unfold budget, unvisited.
    pose proof (List.filter_length_le
                  (fun q => negb (is_visited q init_state)) (all_paths fs)). lia. }
  pose proof (safe_analyze_file fs project_path max_depth fuel entry_file 0%Z
                init_state Hbudget) as Hsafe.
  pose proof (never_raises_analyze_file fuel entry_file 0%Z Hgood init_state) as Hraise.
  destruct (analyze_file fuel entry_file 0%Z init_state) as [st | |];
    [| contradiction | destruct Hsafe].
  exists st. split; [reflexivity |]. exact (proj2 Hsafe H0).
Qed.

End TidyFacts.

Lemma analysis_of_tidy_project_returns_witness :
  exists st,
    Analyzer.analyze_from_entry cyclic_project ["proj"] None 8 ["proj"; "a.py"]
      = Analyzer.Return st /\
    map fst (Analyzer.written st) = Analyzer.visited st /\
    NoDup (Analyzer.visited st).
Proof.
  apply (analysis_of_tidy_project_returns cyclic_project ["proj"] None).
  - reflexivity.
  - reflexivity.
  - reflexivity.
  - split; [eexists; reflexivity | eexists; reflexivity].
  - vm_compute. lia.
Defined.

(* ================================================================== *)
(** * Properties of the copy of the analysed files *)
(* ================================================================== *)

Section CopierFacts.
Import FileSystem Analyzer Copier PathText TraversalSpec.
Variable fs : fsnode source.
Variable project_path : Path.

Local Notation "'source_of'" := (py_source project_path).

Lemma py_source_below (py_path : string) :
  exists rel, source_of py_path = (project_path ++ rel)%list /\
              relative_to (source_of py_path) project_path = Some rel.
Proof.
  unfold py_source, join_text. eexists. split; [reflexivity | apply relative_to_app].
Qed.

(** The loop never raises on the [relative_to], and what it copies are the
    sources that the records name, that exist and that were not copied
    before. *)
Lemma copy_loop_spec (records : list file_info) (copied : list Path)
    (copies : list (Path * Path)) :
  copy_loop fs project_path records copied = Some copies ->
  NoDup copied ->
  NoDup (map fst copies ++ copied) /\
  forall src tgt, In (src, tgt) copies <->
    ~ In src copied /\ src = (project_path ++ tgt)%list /\
    exists_ fs src = true /\
    exists data, In data records /\ path data <> "" /\ src = source_of (path data).
Proof.
  revert copied copies. induction records as [| data rest IH]; intros copied copies.
  - intros [= <-] Hnd. split; [exact Hnd |]. intros src tgt. split; [intros [] |].
    intros (_ & _ & _ & data & [] & _).
  - cbn [copy_loop].
    assert (Hskip : forall copies,
              copy_loop fs project_path rest copied = Some copies -> NoDup copied ->
              (path data <> "" -> exists_ fs (source_of (path data)) = true ->
               In (source_of (path data)) copied) ->
              NoDup (map fst copies ++ copied) /\
              forall src tgt, In (src, tgt) copies <->
                ~ In src copied /\ src = (project_path ++ tgt)%list /\
                exists_ fs src = true /\
                exists d, In d (data :: rest) /\ path d <> "" /\ src = source_of (path d)).
    { intros cs Hcs Hnd Hdata. destruct (IH copied cs Hcs Hnd) as [H1 H2].
      split; [exact H1 |]. intros src tgt. rewrite H2. split.
      - intros (Ha & Hb & Hc & d & Hd & He). repeat split; auto.
        exists d. split; [right; exact Hd | exact He].
      - intros (Ha & Hb & Hc & d & [<- | Hd] & Hne & He).
        + exfalso. apply Ha. rewrite He. apply Hdata; [exact Hne |].
          rewrite <- He. exact Hc.
        + repeat split; auto. exists d. auto. }
    destruct (String.eqb (path data) "") eqn:Ee.
    { intros H Hnd. apply (Hskip copies H Hnd). intros Hne.
      apply String.eqb_eq in Ee. contradiction. }
    destruct (exists_ fs (source_of (path data))) eqn:Hex.
    2: { intros H Hnd. apply (Hskip copies H Hnd). intros _ Habs. discriminate Habs. }
    destruct (py_source_below (path data)) as (rel & Hsrc & Hrel). rewrite Hrel.
    destruct (in_dec Path_eq_dec (source_of (path data)) copied) as [Hin | Hnot].
    { intros H Hnd. apply (Hskip copies H Hnd). intros _ _. exact Hin. }
    destruct (is_dir fs (source_of (path data))); [discriminate |].
    destruct (copy_loop fs project_path rest (source_of (path data) :: copied))
      as [cs |] eqn:Hcs; [| discriminate].
    cbn [option_map]. intros [= <-] Hnd.
    destruct (IH _ cs Hcs (NoDup_cons _ Hnot Hnd)) as [H1 H2].
    split.
    + cbn [map fst app]. apply NoDup_cons.
      * intros Hbad. apply NoDup_remove_2 in H1. exact (H1 Hbad).
      * apply NoDup_remove_1 in H1. exact H1.
    + intros src tgt. cbn [In]. rewrite H2. split.
      * intros [[= <- <-] | (Ha & Hb & Hc & d & Hd & He)].
        -- split; [exact Hnot |]. split; [exact Hsrc |]. split; [exact Hex |].
           exists data. split; [left; reflexivity |]. split; [| reflexivity].
           apply String.eqb_neq, Ee.
        -- split; [intros Hc'; apply Ha; right; exact Hc' |]. repeat split; auto.
           exists d. split; [right; exact Hd | exact He].
      * intros (Ha & Hb & Hc & d & Hd & Hne & He).
        destruct (Path_eq_dec src (source_of (path data))) as [E | E].
        -- left. rewrite E in Hb |- *. f_equal. rewrite Hsrc in Hb.
           apply app_inv_head in Hb. exact Hb.
        -- right. split; [intros [Hx | Hx]; [apply E; symmetry; exact Hx | exact (Ha Hx)] |].
           repeat split; auto.
           destruct Hd as [<- | Hd]; [contradiction |]. exists d. auto.
Qed.

(** X18.  When the copy succeeds, what it copies are exactly the existing
    files that the non-empty [path] of some record names, each of them once,
    whatever the number of records that name it, and each to the place that
    it has in the project; a copied source is never a directory and never
    lies outside the project. *)
Theorem copies_are_the_named_files (records : list file_info)
    (copies : list (Path * Path)) :
  copy_dependent_files fs project_path records = Some copies ->
  NoDup (map fst copies) /\
  (forall src tgt, In (src, tgt) copies <->
     src = (project_path ++ tgt)%list /\ exists_ fs src = true /\
     exists data, In data records /\ path data <> "" /\ src = source_of (path data)) /\
  (forall src tgt, In (src, tgt) copies -> is_dir fs src = false).
Proof.
  unfold copy_dependent_files. intros H.
  destruct (copy_loop_spec records [] copies H (NoDup_nil _)) as [H1 H2].
  rewrite app_nil_r in H1. split; [exact H1 |]. split.
  - intros src tgt. rewrite H2. split; [intros (_ & Hrest); exact Hrest |].
    intros Hrest. split; [intros [] | exact Hrest].
  - clear H1 H2. revert copies H. generalize (@nil Path).
    induction records as [| data rest IH]; intros copied copies; cbn [copy_loop].
    + intros [= <-] src tgt [].
    + destruct (String.eqb (path data) ""); [apply IH |].
      destruct (exists_ fs (source_of (path data))); [| apply IH].
      destruct (relative_to (source_of (path data)) project_path) as [rel |];
        [| discriminate].
      destruct (in_dec Path_eq_dec (source_of (path data)) copied); [apply IH |].
      destruct (is_dir fs (source_of (path data))) eqn:Hd; [discriminate |].
      destruct (copy_loop fs project_path rest (source_of (path data) :: copied))
        as [cs |] eqn:Hcs; [| discriminate].
      cbn [option_map]. intros [= <-] src tgt [[= <- <-] | Hin]; [exact Hd |].
      exact (IH _ cs Hcs src tgt Hin).
Qed.

Lemma relative_to_inv (p base rel : Path) :
  relative_to p base = Some rel -> p = (base ++ rel)%list.
Proof.
  revert p. induction base as [| b base IH]; intros p; destruct p as [| c p]; simpl;
    try discriminate; try (intros H; injection H as H; exact H).
  destruct (String.eqb c b) eqn:E; [| discriminate].
  apply String.eqb_eq in E. subst c. intros H. rewrite (IH p H). reflexivity.
Qed.

(** X19.  The copy and the records of the analyzer.  The record of a file
    that parses names the file itself, so the file is copied, to the place
    it has in the project (its relative path is taken to read back, as those
    of imported modules do).  The record of a file that does not parse
    carries the absolute path of the file, which the copy reads as a path
    below the project directory: it looks for the file under
    [project_path / <absolute path>], not where it is, so that this record
    does not get the file copied. *)
Theorem parsed_files_are_copied (records : list file_info)
    (copies : list (Path * Path)) (p : Path) (info : file_info) :
  copy_dependent_files fs project_path records = Some copies ->
  In info records ->
  _analyze_single_file fs project_path p = Some info ->
  (error info = None ->
   forall rel, relative_to p project_path = Some rel -> reads_back rel = true ->
     source_of (path info) = p /\ In (p, rel) copies) /\
  (error info <> None -> reads_back p = true ->
     source_of (path info) = (project_path ++ p)%list /\
     (project_path <> [] -> source_of (path info) <> p)).
Proof.
  intros Hcopy Hin Hinfo.
  destruct (copy_loop_spec records [] copies Hcopy (NoDup_nil _)) as [_ Hspec].
  pose proof Hinfo as Hinfo'. unfold _analyze_single_file in Hinfo'.
  destruct (fs_lookup fs p) as [[[message | tree] | entries] |] eqn:Hp; try discriminate.
  - injection Hinfo' as <-. cbn [error path]. split; [discriminate |].
    intros _ Hback.
    assert (Hsrc : source_of (str_abs p) = (project_path ++ p)%list).
    { exact (proj1 (module_file_of_text project_path p Hback)). }
    split; [exact Hsrc |]. intros Hne E. rewrite Hsrc in E.
    apply (f_equal (@length string)) in E. rewrite length_app in E.
    destruct project_path; [contradiction | cbn in E; lia].
  - destruct (analyze_parsed_path fs project_path p tree info Hp Hinfo)
      as (rel & Hrel & Hpath & Herr).
    split; [| intros H; contradiction].
    intros _ rel' Hrel' Hback. rewrite Hrel in Hrel'. injection Hrel' as <-.
    assert (Hne : rel <> []) by (intros ->; discriminate Hback).
    assert (Hsrc : source_of (path info) = p).
    { rewrite Hpath, (relative_to_inv p project_path rel Hrel).
      destruct rel as [| x rest]; [contradiction |].
      exact (proj2 (module_file_of_text project_path (x :: rest) Hback)). }
    split; [exact Hsrc |]. apply Hspec. split; [intros [] |].
    split; [exact (relative_to_inv p project_path rel Hrel) |].
    split; [unfold exists_; rewrite Hp; reflexivity |].
    exists info. split; [exact Hin |]. split; [rewrite Hpath; discriminate |].
    symmetry. exact Hsrc.
Qed.

End CopierFacts.

(** The copy for [cyclic_project]: the three files that parse are copied;
    [bad.py] is looked for under [/proj/proj] and is not. *)
Lemma copies_are_the_named_files_witness :
  exists copies,
    Copier.copy_dependent_files cyclic_project ["proj"] cyclic_records = Some copies /\
    map fst copies =
      [["proj"; "pkg"; "c.py"]; ["proj"; "b.py"]; ["proj"; "a.py"]] /\
    NoDup (map fst copies).
Proof.
  eexists. split; [vm_compute; reflexivity |]. split; [reflexivity |].
  exact (proj1 (copies_are_the_named_files cyclic_project ["proj"] cyclic_records _
                  eq_refl)).
Defined.

Lemma parsed_files_are_copied_witness :
  exists copies info,
    Copier.copy_dependent_files cyclic_project ["proj"] cyclic_records = Some copies /\
    Analyzer._analyze_single_file cyclic_project ["proj"] ["proj"; "pkg"; "c.py"]
      = Some info /\
    In (["proj"; "pkg"; "c.py"], ["pkg"; "c.py"]) copies.
Proof.
  eexists. eexists. split; [vm_compute; reflexivity |]. split; [vm_compute; reflexivity |].
  refine (proj2 (proj1 (parsed_files_are_copied cyclic_project ["proj"] cyclic_records
            _ ["proj"; "pkg"; "c.py"] _ eq_refl _ eq_refl) eq_refl
            ["pkg"; "c.py"] eq_refl eq_refl)).
  vm_compute. auto.
Defined.

(* ================================================================== *)
(** * Properties of the error report *)
(* ================================================================== *)

Section ReportFacts.
Import FileSystem Report.
Variable resolve : string -> Path.
Variable actual_code_folder : Path.
Variable dependency_analysis_folder : Path.
Variable code : fsnode (list string).
Variable analyses : fsnode ErrorLocator.json_info.

Local Notation "'examine_'" :=
  (examine resolve actual_code_folder dependency_analysis_folder code analyses).
Local Notation "'extract_from_'" :=
  (extract_from resolve actual_code_folder dependency_analysis_folder code analyses).
Local Notation "'last_stored_'" :=
  (last_stored resolve actual_code_folder dependency_analysis_folder code analyses).
Local Notation "'stored_last_'" :=
  (stored_last resolve actual_code_folder dependency_analysis_folder code analyses).

Lemma last_stored_later (done : list (string * Z)) (k : string) (e : context_entry)
    (frame next : string * Z) :
  last_stored_ done k e frame ->
  (forall e', examine_ next <> Stored k e') ->
  last_stored_ (done ++ [next])%list k e frame.
Proof.
  intros (before & after & -> & Hex & Hlater) Hnext.
  exists before, (after ++ [next])%list. split; [| split; [exact Hex |]].
  - rewrite <- app_assoc. reflexivity.
  - intros later e' Hin. apply in_app_or in Hin.
    destruct Hin as [Hin | [<- | []]]; [exact (Hlater later e' Hin) | apply Hnext].
Qed.

Lemma stored_last_step (done : list (string * Z))
    (ctx : list (string * context_entry)) (frame : string * Z) :
  stored_last_ done ctx ->
  match examine_ frame with
  | Skipped => stored_last_ (done ++ [frame])%list ctx
  | Failed => True
  | Stored key entry => stored_last_ (done ++ [frame])%list (dict_set key entry ctx)
  end.
Proof.
  intros (Hnd & Hlast & Hkeys).
  destruct (examine_ frame) as [| | key entry] eqn:Hex; [| exact I |].
  - split; [exact Hnd |]. split.
    + intros k e Hin. destruct (Hlast k e Hin) as [f Hf]. exists f.
      apply last_stored_later; [exact Hf |]. rewrite Hex. discriminate.
    + intros f k e Hin Hf. apply in_app_or in Hin.
      destruct Hin as [Hin | [<- | []]]; [exact (Hkeys f k e Hin Hf) |].
      rewrite Hex in Hf. discriminate.
  - split; [exact (proj1 (dict_set_keys key entry ctx Hnd)) |]. split.
    + intros k e Hin. apply (In_dict_set_strong k key e entry ctx Hnd) in Hin.
      destruct Hin as [[-> ->] | [Hne Hin]].
      * exists frame. exists done, []. split; [reflexivity |].
        split; [exact Hex | intros later e' []].
      * destruct (Hlast k e Hin) as [f Hf]. exists f.
        apply last_stored_later; [exact Hf |]. rewrite Hex. intros e' [= E _].
        apply Hne. symmetry. exact E.
    + intros f k e Hin Hf. apply dict_set_keys_iff. apply in_app_or in Hin.
      destruct Hin as [Hin | [<- | []]]; [right; exact (Hkeys f k e Hin Hf) |].
      rewrite Hex in Hf. injection Hf as -> _. left. reflexivity.
Qed.

Lemma extract_from_stored_last (todo done : list (string * Z))
    (ctx ctx' : list (string * context_entry)) :
  extract_from_ ctx todo = Some ctx' ->
  stored_last_ done ctx -> stored_last_ (done ++ todo)%list ctx'.
Proof.
  revert done ctx. induction todo as [| frame rest IH]; intros done ctx; cbn [extract_from].
  - intros [= <-]. rewrite app_nil_r. auto.
  - intros H Hinv. pose proof (stored_last_step done ctx frame Hinv) as Hstep.
    replace (done ++ frame :: rest)%list with ((done ++ [frame]) ++ rest)%list
      by (rewrite <- app_assoc; reflexivity).
    destruct (examine_ frame) as [| | key entry]; [| discriminate |];
      exact (IH _ _ H Hstep).
Qed.

Lemma find_key_some (file_path k : string) (keys : list string) :
  find_key file_path keys = Some k ->
  In k keys /\ path_name k = path_name file_path.
Proof.
  unfold find_key. intros H. apply find_some in H. destruct H as [Hin Heq].
  apply String.eqb_eq in Heq. auto.
Qed.

Lemma write_frame_defined (ctx : list (string * context_entry)) (frame : string * Z) :
  exists written, write_frame ctx frame = Some written.
Proof.
  destruct frame as [file_path line_num]. unfold write_frame.
  destruct (find_key file_path (map fst ctx)) as [k |] eqn:Hk; [| eexists; reflexivity].
  destruct (String.eqb k ""); [eexists; reflexivity |].
  apply find_key_some in Hk. destruct Hk as [Hin _].
  apply in_map_iff in Hin. destruct Hin as ([k' e] & <- & Hin). cbn [fst].
  destruct (assoc k' ctx) as [info |] eqn:Ha; [eexists; reflexivity |].
  exfalso. revert Hin Ha. clear. induction ctx as [| [k0 e0] ctx IH]; [intros [] |].
  cbn [assoc In]. destruct (String.eqb k' k0) eqn:E; [discriminate |].
  intros [[= -> _] | Hin]; [rewrite String.eqb_refl in E; discriminate | exact (IH Hin)].
Qed.

(** X20.  What the report shows under a frame.  [extract_code_excerpts]
    keeps one entry for each file, that of the last frame in the file, and
    [write_error_report], which never fails on these entries, writes under
    each frame the entry of the first stored file that has the same file
    name: so the excerpt under a frame is the one around the line of the
    last frame in a file of that name, which may be another line and
    another file than those of the frame. *)
Theorem report_shows_last_frame_of_namesake (error_lines : list (string * Z))
    (code_excerpts : list (string * context_entry)) :
  extract_code_excerpts resolve actual_code_folder dependency_analysis_folder
    code analyses error_lines = Some code_excerpts ->
  NoDup (map fst code_excerpts) /\
  (forall frame k e, In frame error_lines -> examine_ frame = Stored k e ->
     exists e' frame', In (k, e') code_excerpts /\
                       last_stored_ error_lines k e' frame') /\
  (exists written, write_error_report error_lines code_excerpts = Some written) /\
  forall file_path line_num, In (file_path, line_num) error_lines ->
    exists shown,
      write_frame code_excerpts (file_path, line_num) =
        Some (("File: " ++ file_path ++ ", Line: " ++ Excerpt.str_int line_num ++ nl)
              :: shown) /\
      match find_key file_path (map fst code_excerpts) with
      | None => shown = []
      | Some k =>
          path_name k = path_name file_path /\
          exists info frame',
            last_stored_ error_lines k info frame' /\
            shown = if String.eqb k "" then [] else excerpt_block info
      end.
Proof.
  unfold extract_code_excerpts. intros H.
  assert (H0 : stored_last_ [] []).
  { split; [constructor |]. split; [intros k e [] | intros f k e []]. }
  pose proof (extract_from_stored_last error_lines [] [] code_excerpts H H0) as Hinv.
  cbn [app] in Hinv. destruct Hinv as (Hnd & Hlast & Hkeys).
  split; [exact Hnd |]. split; [| split].
  - intros frame k e Hin Hex. pose proof (Hkeys frame k e Hin Hex) as Hk.
    apply in_map_iff in Hk. destruct Hk as ([k' e'] & <- & Hin'). cbn [fst].
    destruct (Hlast k' e' Hin') as [f Hf]. exists e', f. auto.
  - unfold write_error_report.
    assert (Hall : exists body, write_frames code_excerpts error_lines = Some body).
    { clear. induction error_lines as [| frame rest IH]; [eexists; reflexivity |].
      cbn [write_frames]. destruct (write_frame_defined code_excerpts frame) as [a ->].
      destruct IH as [b ->]. eexists. reflexivity. }
    destruct Hall as [body ->]. eexists. reflexivity.
  - intros file_path line_num _. unfold write_frame.
    destruct (find_key file_path (map fst code_excerpts)) as [k |] eqn:Hk;
      [| eexists; split; reflexivity].
    destruct (find_key_some _ _ _ Hk) as [Hin Hname].
    apply in_map_iff in Hin. destruct Hin as ([k' info] & <- & Hin). cbn [fst] in *.
    rewrite (In_assoc k' info code_excerpts Hnd Hin).
    destruct (Hlast k' info Hin) as [f Hf].
    destruct (String.eqb k' "") eqn:Ee; eexists; (split; [reflexivity |]);
      (split; [exact Hname |]); exists info, f; (split; [exact Hf |]);
      rewrite ?Ee; reflexivity.
Qed.

End ReportFacts.

(** In the run [work_frames] the entry kept for [main.py] is that of its
    last frame, at line 3, and the report shows it under all three frames. *)
Lemma report_shows_last_frame_of_namesake_witness :
  exists code_excerpts,
    work_excerpts = Some code_excerpts /\
    map (fun kv => (fst kv, Report.error_line (snd kv))) code_excerpts
      = [("main.py", 3%Z)] /\
    NoDup (map fst code_excerpts) /\
    exists written,
      Report.write_error_report work_frames code_excerpts = Some written.
Proof.
  eexists. split; [vm_compute; reflexivity |]. split; [reflexivity |].
  destruct (report_shows_last_frame_of_namesake (join_text []) ["work"] ["analysis"]
              work_code (FileSystem.Dir []) work_frames _ eq_refl)
    as (H1 & _ & H3 & _).
  split; [exact H1 | exact H3].
Defined.

Example report_of_work_frames :
  option_map (fun ctx => Report.write_frame ctx ("/usr/lib/main.py", 7%Z)) work_excerpts =
  Some (Some
    ["File: /usr/lib/main.py, Line: 7" ++ Report.nl;
     Report.nl ++ "Code Excerpt around error:" ++ Report.nl;
     "   1: import os" ++ Report.nl;
     "   2: x = 1 / 0" ++ Report.nl;
     ">> 3: print(x)" ++ Report.nl;
     Report.nl ++ "Nearest Entity: No nearby entity found" ++ Report.nl ++ Report.nl]).
Proof. vm_compute. reflexivity. Qed.

(* ================================================================== *)
(** * Termination of the traversal and the records of the files reached *)
(* ================================================================== *)

Section TraversalClaim.
Import FileSystem Json Analyzer Aggregator TraversalSpec TidyProject.
Variable fs : fsnode source.
Variable project_path : Path.

Lemma budget_bound (st : state) : budget fs st <= length (all_paths fs).
Proof.
  unfold budget, unvisited. apply List.filter_length_le.
Qed.

(** No call removes or changes a record that is written. *)
Lemma analyze_file_keeps_records (max_depth : option Z) (fuel : nat) (p : Path)
    (depth : Z) (st : state) :
  match _recursive_analyze_file fs project_path max_depth fuel p depth st with
  | Return st' => incl (written st) (written st')
  | _ => True
  end.
Proof.
  refine (maintains_analyze_file fs project_path max_depth
            (fun s => incl (written st) (written s)) (fun _ _ => True)
            (fun _ _ => True) _ _ _ fuel p depth I st (incl_refl _)).
  - intros q d info rel s _ _ Hs _ _ _. cbn [written]. apply incl_tl. exact Hs.
  - intros; exact I.
  - intros q info rec d _ Hrec.
    apply (maintains_recurse_any fs project_path _ rec d (fun _ => True)); auto.
Qed.

(** One call of [_recursive_analyze_file], with fuel beyond the unvisited
    paths: it does not run out of fuel; when it returns, the state is still
    consistent, no file is forgotten, the file is visited if the depth is
    within the limit, and nothing has changed if the file was visited
    before. *)
Lemma analyze_file_call (max_depth : option Z) (fuel : nat) (p : Path) (depth : Z)
    (st : state) :
  budget fs st < fuel -> consistent st ->
  match _recursive_analyze_file fs project_path max_depth fuel p depth st with
  | Return st' =>
      consistent st' /\ incl (visited st) (visited st') /\
      (depth_exceeded max_depth depth = false -> In p (visited st')) /\
      (is_visited p st = true -> st' = st)
  | Raise => True
  | OutOfFuel => False
  end.
Proof.
  intros Hb Hc.
  pose proof (safe_analyze_file fs project_path max_depth fuel p depth st Hb) as Hsafe.
  destruct fuel as [| f]; [lia |].
  cbn [_recursive_analyze_file] in *.
  destruct (depth_exceeded max_depth depth) eqn:Hd.
  { split; [exact Hc |]. split; [apply incl_refl |]. split; [discriminate | reflexivity]. }
  destruct (is_visited p st) eqn:Hvis.
  { split; [exact Hc |]. split; [apply incl_refl |].
    split; [intros _; apply is_visited_true, Hvis | reflexivity]. }
  pose proof (proj1 (is_visited_false p st) Hvis) as Hnot.
  destruct (_analyze_single_file fs project_path p) as [info |] eqn:Hinfo; [| exact I].
  assert (Hin : In p (all_paths fs)).
  { unfold _analyze_single_file in Hinfo.
    destruct (fs_lookup fs p) as [n |] eqn:E; [| discriminate].
    exact (fs_lookup_all_paths fs n p E). }
  unfold _write_file_info_to_json in *.
  destruct (relative_to p project_path) as [rel |]; [| exact I].
  cbn [bind visited written] in *.
  set (st2 := mk_state (p :: visited st) ((p, info) :: written st)) in *.
  assert (Hb2 : budget fs st2 < f).
  { pose proof (budget_add fs st p ((p, info) :: written st) Hin Hnot) as H.
    fold st2 in H. lia. }
  pose proof (safe_recurse fs project_path f
                (_recursive_analyze_file fs project_path max_depth f)
                (safe_analyze_file fs project_path max_depth f)
                (get (inner_project_dependencies info) (JDict [])) depth st2 Hb2)
    as Hrec.
  destruct (_recurse_inner_dependencies fs project_path _ _ depth st2) as [st' | |];
    [| exact I | exact Hsafe].
  destruct Hsafe as [Hincl Hcons]. destruct Hrec as [Hincl2 _].
  split; [exact (Hcons Hc) |]. split; [exact Hincl |].
  split; [intros _; apply Hincl2; left; reflexivity | discriminate].
Qed.


End TraversalClaim.


